(** * MCQ normalization engine of [app.py]

    A shallow embedding of [try_load_json], [parse_plain_mcqs] and
    [parse_mcqs], with the Python string methods and the fragment of the
    [re] module these functions use.

    Conventions.
    - A Python [str] is a [list ascii]; an [ascii] is read as the code point
      of the same number (U+0000 to U+00FF).  Whitespace, decimal digits,
      line boundaries and case folding are Python's, restricted to that
      range.
    - [json.loads] belongs to Python's library: it is a variable of the
      development, of type [pystr -> exc pyval].
    - An exception is a value [Raise e] of the error monad [exc]. *)

From Stdlib Require Import Ascii String ZArith Lia Bool DecimalString.
From Stdlib Require Import Floats.SpecFloat.
From stdpp Require Import base list gmap strings.

Open Scope Z_scope.
Open Scope list_scope.

(** ** Python strings *)

Abbreviation pystr := (list ascii).

Definition txt (s : string) : pystr := list_ascii_of_string s.

Definition code (c : ascii) : Z := Z.of_N (N_of_ascii c).

Definition LF : ascii := ascii_of_nat 10.
Definition CR : ascii := ascii_of_nat 13.

Definition chr_eqb (a b : ascii) : bool := Ascii.eqb a b.

Definition in_range (lo hi : Z) (c : ascii) : bool :=
  (lo <=? code c) && (code c <=? hi).

(** [str.isspace] on one character, which is also [\s] of [re] for a [str]
    pattern: TAB, LF, VT, FF, CR, FS, GS, RS, US, SPACE, NEL, NBSP. *)
Definition is_space (c : ascii) : bool :=
  in_range 9 13 c || in_range 28 32 c || (code c =? 133) || (code c =? 160).

(** [\d] of [re] for a [str] pattern: the decimal digits. *)
Definition is_digit (c : ascii) : bool := in_range 48 57 c.

(** The line boundaries of [str.splitlines]. *)
Definition is_linebreak (c : ascii) : bool :=
  in_range 10 13 c || in_range 28 30 c || (code c =? 133).

(** [str.lower] on one character. *)
Definition lower_char (c : ascii) : ascii :=
  if in_range 65 90 c || (in_range 192 222 c && negb (code c =? 215))
  then ascii_of_N (N_of_ascii c + 32) else c.

Definition lower (s : pystr) : pystr := map lower_char s.

Fixpoint lstrip (s : pystr) : pystr :=
  match s with
  | c :: t => if is_space c then lstrip t else s
  | [] => []
  end.

Definition rstrip (s : pystr) : pystr := rev (lstrip (rev s)).

(** [s.strip()] *)
Definition strip (s : pystr) : pystr := rstrip (lstrip s).

(** [s.replace('\r\n', '\n')] *)
Fixpoint replace_crlf (s : pystr) : pystr :=
  match s with
  | c :: t =>
      match t with
      | d :: t' =>
          if chr_eqb c CR && chr_eqb d LF then LF :: replace_crlf t'
          else c :: replace_crlf t
      | [] => [c]
      end
  | [] => []
  end.

(** [s.find(c)]: the index of the first [c], or -1. *)
Fixpoint find (c : ascii) (s : pystr) : Z :=
  match s with
  | d :: t => if chr_eqb d c then 0
              else let i := find c t in if i =? -1 then -1 else i + 1
  | [] => -1
  end.

(** [s.rfind(c)]: the index of the last [c], or -1. *)
Fixpoint rfind (c : ascii) (s : pystr) : Z :=
  match s with
  | d :: t => let i := rfind c t in
              if i =? -1 then (if chr_eqb d c then 0 else -1) else i + 1
  | [] => -1
  end.

(** [s[lo:hi]] for integers [lo] and [hi] of either sign. *)
Definition slice {A} (s : list A) (lo hi : Z) : list A :=
  let n := Z.of_nat (length s) in
  let clamp i := if i <? 0 then Z.max 0 (i + n) else Z.min i n in
  let a := clamp lo in
  let b := clamp hi in
  take (Z.to_nat (b - a)) (drop (Z.to_nat a) s).

(** [s.splitlines()] *)
Fixpoint splitlines (s : pystr) : list pystr :=
  match s with
  | [] => []
  | c :: t =>
      if is_linebreak c then
        match t with
        | d :: t' => if chr_eqb c CR && chr_eqb d LF
                     then [] :: splitlines t' else [] :: splitlines t
        | [] => [[]]
        end
      else
        match splitlines t with
        | [] => [[c]]
        | l :: ls => (c :: l) :: ls
        end
  end.

(** Truth value of a [str]. *)
Definition nonempty (s : pystr) : bool :=
  match s with [] => false | _ => true end.

(** ** Python values and exceptions *)

#[warnings="-register-all"]
Inductive pyval :=
| PyNone
| PyBool (b : bool)
| PyInt (z : Z)
| PyFloat (f : spec_float)
| PyStr (s : pystr)
| PyList (l : list pyval)
| PyDict (d : gmap pystr pyval).

(** [bool(v)] *)
Definition truthy (v : pyval) : bool :=
  match v with
  | PyNone => false
  | PyBool b => b
  | PyInt z => negb (z =? 0)
  | PyFloat f => match f with S754_zero _ => false | _ => true end
  | PyStr s => nonempty s
  | PyList l => match l with [] => false | _ => true end
  | PyDict d => negb (bool_decide (d = ∅))
  end.

Inductive pyexc :=
  JSONDecodeError | RecursionError | IndexError | TypeError | AttributeError.

Inductive exc (A : Type) :=
| Ret (a : A)
| Raise (e : pyexc).
Arguments Ret {A} a.
Arguments Raise {A} e.

Definition bind {A B} (m : exc A) (f : A -> exc B) : exc B :=
  match m with
  | Ret a => f a
  | Raise e => Raise e
  end.

Notation "x <- m ;; k" := (bind m (fun x => k))
  (at level 100, m at next level, right associativity).

(** [l[i]] *)
Definition getitem {A} (l : list A) (i : Z) : exc A :=
  let n := Z.of_nat (length l) in
  let j := if i <? 0 then i + n else i in
  if (0 <=? j) && (j <? n) then
    match l !! Z.to_nat j with Some x => Ret x | None => Raise IndexError end
  else Raise IndexError.

(** [l[i] = x] *)
Definition setitem {A} (l : list A) (i : Z) (x : A) : exc (list A) :=
  let n := Z.of_nat (length l) in
  let j := if i <? 0 then i + n else i in
  if (0 <=? j) && (j <? n) then Ret (<[Z.to_nat j := x]> l)
  else Raise IndexError.

(** [for x in l: s = body(s, x)] *)
Fixpoint for_each {A S} (l : list A) (body : S -> A -> exc S) (s : S) : exc S :=
  match l with
  | [] => Ret s
  | x :: l' => s' <- body s x ;; for_each l' body s'
  end.

(** The canonical record: the [dict] with the keys [question], [options],
    [answer] and [explanation] that both paths build. *)
Record mcq := Mcq {
  question : pyval;
  options : list pyval;
  answer : pyval;
  explanation : pyval
}.

(** ** The fragment of [re] used by the parser

    A backtracking matcher in continuation-passing style.  A position is
    the character before it ([None] at the start of the text) and the text
    that remains; the continuation is tried at each candidate end, in the
    order of [re]'s own search, and the first success is the match. *)

Inductive gid := G1 | G2.

Record caps := Caps { grp1 : option pystr; grp2 : option pystr }.

Definition no_caps : caps := Caps None None.

Definition set_grp (g : gid) (s : pystr) (c : caps) : caps :=
  match g with
  | G1 => Caps (Some s) (grp2 c)
  | G2 => Caps (grp1 c) (Some s)
  end.

Definition get_grp (g : gid) (c : caps) : option pystr :=
  match g with G1 => grp1 c | G2 => grp2 c end.

Abbreviation pos := (option ascii * pystr)%type.

Inductive regex :=
| Eps                                (* the empty pattern *)
| Chr (p : ascii -> bool)            (* one character of a class *)
| Cat (r1 r2 : regex)                (* r1 r2 *)
| Alt (r1 r2 : regex)                (* r1|r2 *)
| Star (p : ascii -> bool)           (* p*, greedy *)
| Lazy (p : ascii -> bool)           (* p*?, lazy *)
| Bos                                (* ^ without re.M *)
| Bol                                (* ^ with re.M *)
| Eol                                (* $ with re.M *)
| EndZ                               (* \Z *)
| Ahead (r : regex)                  (* (?=r) *)
| Group (g : gid) (r : regex).       (* (r), group g *)

Abbreviation cont := (pos -> caps -> option (pos * caps)).

Definition accept : cont := fun x c => Some (x, c).

Fixpoint star_greedy (p : ascii -> bool) (k : cont)
    (prev : option ascii) (s : pystr) (c : caps) : option (pos * caps) :=
  match s with
  | ch :: t =>
      if p ch then
        match star_greedy p k (Some ch) t c with
        | Some y => Some y
        | None => k (prev, s) c
        end
      else k (prev, s) c
  | [] => k (prev, s) c
  end.

Fixpoint star_lazy (p : ascii -> bool) (k : cont)
    (prev : option ascii) (s : pystr) (c : caps) : option (pos * caps) :=
  match k (prev, s) c with
  | Some y => Some y
  | None =>
      match s with
      | ch :: t => if p ch then star_lazy p k (Some ch) t c else None
      | [] => None
      end
  end.

Definition at_bos (x : pos) : bool :=
  match x.1 with None => true | Some _ => false end.

Definition at_bol (x : pos) : bool :=
  match x.1 with None => true | Some ch => chr_eqb ch LF end.

Definition at_eol (x : pos) : bool :=
  match x.2 with [] => true | ch :: _ => chr_eqb ch LF end.

Definition at_end (x : pos) : bool :=
  match x.2 with [] => true | _ :: _ => false end.

(** The text between two positions of one scan. *)
Definition taken (x y : pos) : pystr :=
  take (length x.2 - length y.2)%nat x.2.

Fixpoint rmatch (r : regex) (k : cont) (x : pos) (c : caps)
    : option (pos * caps) :=
  match r with
  | Eps => k x c
  | Chr p =>
      match x.2 with
      | ch :: t => if p ch then k (Some ch, t) c else None
      | [] => None
      end
  | Cat r1 r2 => rmatch r1 (rmatch r2 k) x c
  | Alt r1 r2 =>
      match rmatch r1 k x c with
      | Some y => Some y
      | None => rmatch r2 k x c
      end
  | Star p => star_greedy p k x.1 x.2 c
  | Lazy p => star_lazy p k x.1 x.2 c
  | Bos => if at_bos x then k x c else None
  | Bol => if at_bol x then k x c else None
  | Eol => if at_eol x then k x c else None
  | EndZ => if at_end x then k x c else None
  | Ahead r' =>
      match rmatch r' accept x c with
      | Some (_, c') => k x c'
      | None => None
      end
  | Group g r' => rmatch r' (fun y c' => k y (set_grp g (taken x y) c')) x c
  end.

(** A match object: [m.start()], [m.end()] and the groups. *)
Record match_obj := MatchObj {
  m_start : nat;
  m_end : nat;
  m_caps : caps
}.

(** One attempt at the position [i], whose text is [s]. *)
Definition match_here (r : regex) (prev : option ascii) (s : pystr) (i : nat)
    : option match_obj :=
  match rmatch r accept (prev, s) no_caps with
  | Some (y, c) => Some (MatchObj i (i + (length s - length y.2)) c)
  | None => None
  end.

Fixpoint search_from (r : regex) (prev : option ascii) (s : pystr) (i : nat)
    : option match_obj :=
  match match_here r prev s i with
  | Some m => Some m
  | None =>
      match s with
      | ch :: t => search_from r (Some ch) t (S i)
      | [] => None
      end
  end.

(** [re.search(r, s)] *)
Definition re_search (r : regex) (s : pystr) : option match_obj :=
  search_from r None s 0.

(** [re.match(r, s)] *)
Definition re_match (r : regex) (s : pystr) : option match_obj :=
  match_here r None s 0.

(** The scan of [finditer]: [skip] characters are still inside the last
    match.  No pattern of the source matches the empty string, so the scan
    resumes where a match ends. *)
Fixpoint finditer_from (r : regex) (skip : nat) (prev : option ascii)
    (s : pystr) (i : nat) : list match_obj :=
  match skip with
  | S n =>
      match s with
      | ch :: t => finditer_from r n (Some ch) t (S i)
      | [] => []
      end
  | O =>
      match match_here r prev s i with
      | Some m =>
          m :: match s with
               | ch :: t =>
                   finditer_from r (m_end m - i - 1) (Some ch) t (S i)
               | [] => []
               end
      | None =>
          match s with
          | ch :: t => finditer_from r 0 (Some ch) t (S i)
          | [] => []
          end
      end
  end.

(** [r.finditer(s)] *)
Definition finditer (r : regex) (s : pystr) : list match_obj :=
  finditer_from r 0 None s 0.

(** [m.group(g)]; [None] when the group took no part in the match. *)
Definition group (m : match_obj) (g : gid) : option pystr :=
  get_grp g (m_caps m).

(** [re.findall(r, s)] for a pattern with one group. *)
Definition findall (r : regex) (s : pystr) : list pystr :=
  map (fun m => default [] (group m G1)) (finditer r s).

(** The pieces of [s] between the matches, from the index [from]. *)
Fixpoint pieces (s : pystr) (from : nat) (ms : list match_obj) : list pystr :=
  match ms with
  | [] => [drop from s]
  | m :: ms' => take (m_start m - from) (drop from s) :: pieces s (m_end m) ms'
  end.

(** [re.split(r, s)] for a pattern without group. *)
Definition re_split (r : regex) (s : pystr) : list pystr :=
  pieces s 0 (finditer r s).

(** ** Character classes and patterns of the source *)

Fixpoint seq (rs : list regex) : regex :=
  match rs with
  | [] => Eps
  | [r] => r
  | r :: rs' => Cat r (seq rs')
  end.

(** [.] with re.S *)
Definition cls_any (c : ascii) : bool := true.
(** [.] without re.S *)
Definition cls_dot (c : ascii) : bool := negb (chr_eqb c LF).
(** [[a-dA-D]]; under re.I the class holds the same characters. *)
Definition cls_abcd (c : ascii) : bool := in_range 97 100 c || in_range 65 68 c.
(** [[\.\)]], also written [[\)\.]] *)
Definition cls_punct (c : ascii) : bool := chr_eqb c "." || chr_eqb c ")".
(** [[\n\r]] *)
Definition cls_nl_cr (c : ascii) : bool := chr_eqb c LF || chr_eqb c CR.
(** [\n] *)
Definition cls_nl (c : ascii) : bool := chr_eqb c LF.
(** [\.] *)
Definition cls_period (c : ascii) : bool := chr_eqb c ".".
(** [[:\s\-]] *)
Definition cls_sep (c : ascii) : bool :=
  chr_eqb c ":" || is_space c || chr_eqb c "-".
(** A literal character under re.I. *)
Definition cls_ci (a : ascii) (c : ascii) : bool :=
  chr_eqb (lower_char c) (lower_char a).

(** A literal word under re.I. *)
Definition word_ci (w : string) : regex :=
  seq (map (fun a => Chr (cls_ci a)) (txt w)).

(** The numbered-question marker:  ^  \s*  \d+  \. *)
Definition marker : regex :=
  seq [Bol; Star is_space; Chr is_digit; Star is_digit; Chr cls_period].

(** The lookahead of [pattern]:  ^ \s* \d+ \. | \Z *)
Definition pattern_ahead : regex := Alt marker EndZ.

(** [pattern], flags re.M | re.S; token by token:
      ^  \s*  \d+  \.  \s*  ( .*? )  (?= ^ \s* \d+ \. | \Z ) *)
Definition pattern : regex :=
  seq [Bol; Star is_space; Chr is_digit; Star is_digit; Chr cls_period;
       Star is_space; Group G1 (Lazy cls_any); Ahead pattern_ahead].

(** The separator of [re.split]:  \n  \s*  \n *)
Definition blank_line : regex :=
  seq [Chr cls_nl; Star is_space; Chr cls_nl].

(** The lookahead of [opt_pattern]:  (?: \n \s* [a-dA-D] [\.\)] \s* ) | \Z *)
Definition opt_ahead : regex :=
  Alt (seq [Chr cls_nl; Star is_space; Chr cls_abcd; Chr cls_punct;
            Star is_space])
      EndZ.

(** [opt_pattern], flags (?s) and re.M; token by token:
      (?: ^ | [\n\r] )  \s*  ( [a-dA-D] )  [\.\)]  \s*  ( .*? )
      (?= (?: \n \s* [a-dA-D] [\.\)] \s* ) | \Z ) *)
Definition opt_pattern : regex :=
  seq [Alt Bol (Chr cls_nl_cr); Star is_space; Group G1 (Chr cls_abcd);
       Chr cls_punct; Star is_space; Group G2 (Lazy cls_any);
       Ahead opt_ahead].

(** The pattern of [answer_match], flags (?mi); token by token:
      ^  \s*  Answer  [:\s\-]*  ( [a-dA-D] )  (?: [\)\.]? )  \s*  ( .* )  $ *)
Definition answer_pattern : regex :=
  seq [Bol; Star is_space; word_ci "Answer"; Star cls_sep;
       Group G1 (Chr cls_abcd); Alt (Chr cls_punct) Eps; Star is_space;
       Group G2 (Star cls_dot); Eol].

(** The pattern of [explanation_match], flags (?mi); token by token:
      ^  \s*  Explanation  [:\s\-]*  ( .* )  $ *)
Definition explanation_pattern : regex :=
  seq [Bol; Star is_space; word_ci "Explanation"; Star cls_sep;
       Group G1 (Star cls_dot); Eol].

(** The pattern of the line scan; token by token:
      ^  ( [a-dA-D] )  [\.\)]  \s*  ( .* ) *)
Definition line_pattern : regex :=
  seq [Bos; Group G1 (Chr cls_abcd); Chr cls_punct; Star is_space;
       Group G2 (Star cls_dot)].

(** ** The parser *)

(** [m.group(g)] used as a [str]: a method call on [None] raises. *)
Definition group_str (m : match_obj) (g : gid) : exc pystr :=
  match group m g with
  | Some s => Ret s
  | None => Raise AttributeError
  end.

(** [ord(s)] *)
Definition ord (s : pystr) : exc Z :=
  match s with
  | [c] => Ret (code c)
  | _ => Raise TypeError
  end.

(** [[f(x) for x in l]] *)
Fixpoint map_exc {A B} (f : A -> exc B) (l : list A) : exc (list B) :=
  match l with
  | [] => Ret []
  | x :: l' => y <- f x ;; ys <- map_exc f l' ;; Ret (y :: ys)
  end.

(** [any(l)] for a list of [str] *)
Definition any (l : list pystr) : bool := existsb nonempty l.

Definition ord_a : Z := 97.

(** [f"{label}) {text}"] *)
Definition labelled (label text : pystr) : pystr :=
  label ++ txt ") " ++ text.

(** The body of [for letter, content in opts]. *)
Definition store_option (options_list : list pystr) (oc : pystr * pystr)
    : exc (list pystr) :=
  idx <- ord oc.1 ;;
  let idx := idx - ord_a in
  if (0 <=? idx) && (idx <? 4) then setitem options_list idx oc.2
  else Ret options_list.

(** The body of [for ln in lines[1:]]. *)
Definition store_line (options_list : list pystr) (ln : pystr)
    : exc (list pystr) :=
  match re_match line_pattern ln with
  | Some m =>
      g1 <- group_str m G1 ;;
      idx <- ord (lower g1) ;;
      let idx := idx - ord_a in
      if (0 <=? idx) && (idx <? 4) then
        g2 <- group_str m G2 ;;
        setitem options_list idx (strip g2)
      else Ret options_list
  | None => Ret options_list
  end.

(** [opts = [(m.group(1).lower(), m.group(2).strip())
             for m in opt_pattern.finditer(block)]] *)
Definition get_opts (block : pystr) : exc (list (pystr * pystr)) :=
  map_exc (fun m => g1 <- group_str m G1 ;;
                    g2 <- group_str m G2 ;;
                    Ret (lower g1, strip g2))
          (finditer opt_pattern block).

(** [q_text]: the text before the first option marker, or the first line. *)
Definition get_q_text (block : pystr) : exc pystr :=
  let first_opt := re_search opt_pattern block in
  match first_opt with
  | Some m => Ret (strip (take (m_start m) block))
  | None => l <- getitem (splitlines block) 0 ;; Ret (strip l)
  end.

(** [options_list] after the loop over [opts]. *)
Definition fill_options (opts : list (pystr * pystr)) : exc (list pystr) :=
  let options_list := [[]; []; []; []] in
  for_each opts store_option options_list.

(** [lines = [ln.strip() for ln in block.splitlines() if ln.strip()]] *)
Definition nonblank_lines (block : pystr) : list pystr :=
  map strip (List.filter (fun ln => nonempty (strip ln)) (splitlines block)).

(** [if not any(options_list): ...], the single-line scan. *)
Definition rescan_lines (block : pystr) (options_list : list pystr)
    : exc (list pystr) :=
  if negb (any options_list) then
    let lines := nonblank_lines block in
    for_each (drop 1 lines) store_line options_list
  else Ret options_list.

(** [answer_text] *)
Definition get_answer_text (block : pystr) (options_list : list pystr)
    : exc pystr :=
  let answer_match := re_search answer_pattern block in
  match answer_match with
  | Some m =>
      g1 <- group_str m G1 ;;
      let ans_letter := lower g1 in
      g2 <- group_str m G2 ;;
      let ans_extra := strip g2 in
      idx <- ord ans_letter ;;
      let idx := idx - ord_a in
      if nonempty ans_extra then Ret (labelled ans_letter ans_extra)
      else
        opt_text <- (if (0 <=? idx) && (idx <? 4)
                     then getitem options_list idx else Ret []) ;;
        Ret (if nonempty opt_text then labelled ans_letter opt_text
             else ans_letter)
  | None => Ret []
  end.

(** [explanation_text] *)
Definition get_explanation_text (block : pystr) : exc pystr :=
  let explanation_match := re_search explanation_pattern block in
  match explanation_match with
  | Some m => g1 <- group_str m G1 ;; Ret (strip g1)
  | None => Ret []
  end.

(** The body of [for block in blocks], after the empty blocks are skipped. *)
Definition parse_block (block : pystr) : exc mcq :=
  opts <- get_opts block ;;
  q_text <- get_q_text block ;;
  options_list <- fill_options opts ;;
  options_list <- rescan_lines block options_list ;;
  answer_text <- get_answer_text block options_list ;;
  explanation_text <- get_explanation_text block ;;
  Ret (Mcq (PyStr q_text) (map PyStr options_list)
           (PyStr answer_text) (PyStr explanation_text)).

(** The blocks of a text that is already normalized and not empty. *)
Definition blocks_of (text : pystr) : list pystr :=
  let blocks := findall pattern text in
  match blocks with
  | [] => map strip (List.filter (fun b => nonempty (strip b))
                            (re_split blank_line text))
  | _ => blocks
  end.

(** The body of [for block in blocks]. *)
Definition parse_step (parsed : list mcq) (block : pystr) : exc (list mcq) :=
  let block := strip block in
  if negb (nonempty block) then Ret parsed
  else r <- parse_block block ;; Ret (parsed ++ [r]).

Definition parse_plain_mcqs (text : pystr) : exc (list mcq) :=
  let text := strip (replace_crlf text) in
  if negb (nonempty text) then Ret []
  else for_each (blocks_of text) parse_step [].

Section Normalize.

(** [json.loads]: the value decoded, or the exception raised. *)
Variable json_loads : pystr -> exc pyval.

Definition try_load_json (text : pystr) : exc pyval :=
  match json_loads text with
  | Ret v => Ret v
  | Raise _ =>
      let start := find "[" text in
      let end_ := rfind "]" text in
      if negb (start =? -1) && negb (end_ =? -1) && (end_ >? start) then
        match json_loads (slice text start (end_ + 1)) with
        | Ret v => Ret v
        | Raise _ => Ret PyNone
        end
      else Ret PyNone
  end.

(** [item.get(key) if isinstance(item, dict) else other] *)
Definition get_if_dict (item : pyval) (key : string) (other : pyval) : pyval :=
  match item with
  | PyDict d => default PyNone (d !! txt key)
  | _ => other
  end.

Definition empty_str : pyval := PyStr [].

(** [v if v else ""] *)
Definition or_empty (v : pyval) : pyval := if truthy v then v else empty_str.

(** The body of [for item in loaded]. *)
Definition normalize_item (normalized : list mcq) (item : pyval)
    : exc (list mcq) :=
  let q := get_if_dict item "question" PyNone in
  let opts := get_if_dict item "options" PyNone in
  let ans := get_if_dict item "answer" empty_str in
  let expl := get_if_dict item "explanation" empty_str in
  let opts_fixed :=
    match opts with
    | PyList opts =>
        if Z.of_nat (length opts) <? 4
        then opts ++ replicate (Z.to_nat (4 - Z.of_nat (length opts))) empty_str
        else slice opts 0 4
    | _ => [empty_str; empty_str; empty_str; empty_str]
    end in
  Ret (normalized ++ [Mcq (or_empty q) opts_fixed (or_empty ans) (or_empty expl)]).

Definition parse_mcqs (text : pystr) : exc (list mcq) :=
  loaded <- try_load_json text ;;
  match loaded with
  | PyList loaded => for_each loaded normalize_item []
  | _ => parse_plain_mcqs text
  end.

End Normalize.


(** ** Definitions used by the statements *)

Definition open_bracket : ascii := "[".
Definition close_bracket : ascii := "]".

(** The all-empty record. *)
Definition blank_record : mcq :=
  Mcq empty_str [empty_str; empty_str; empty_str; empty_str] empty_str empty_str.

(** Four slots out of a list: padded with [""] or cut. *)
Definition fit4 (l : list pyval) : list pyval :=
  take 4 (l ++ replicate 4 empty_str).

(** The record of one element of a structured array. *)
Definition record_of_item (item : pyval) : mcq :=
  match item with
  | PyDict d =>
      Mcq (or_empty (default PyNone (d !! txt "question")))
          (match d !! txt "options" with
           | Some (PyList l) => fit4 l
           | _ => [empty_str; empty_str; empty_str; empty_str]
           end)
          (or_empty (default PyNone (d !! txt "answer")))
          (or_empty (default PyNone (d !! txt "explanation")))
  | _ => blank_record
  end.

(** A decoder that knows one text, for the examples. *)
Definition decoder_of (known : pystr) (v : pyval) (s : pystr) : exc pyval :=
  if bool_decide (s = known) then Ret v else Raise JSONDecodeError.

(** A decoder that refuses every text. *)
Definition refuse_all (s : pystr) : exc pyval := Raise JSONDecodeError.

Definition DQ : ascii := ascii_of_nat 34.

(** The text of a two-element array: a mapping with the key [question] and
    the value [Q1], then the number 7. *)
Definition array_text : pystr :=
  txt "[{" ++ DQ :: txt "question" ++ DQ :: txt ": " ++ DQ :: txt "Q1" ++
  DQ :: txt "}, 7]".

Definition array_value : list pyval :=
  [PyDict {[ txt "question" := PyStr (txt "Q1") ]}; PyInt 7].

(** ** What a match is

    [Matches r x c y c'] holds when [r] can span the text from the position
    [x] to the position [y], turning the groups [c] into [c'], whatever the
    order in which the matcher tries the spans. *)

(** The character before the position reached after [a]. *)
Definition after (prev : option ascii) (a : pystr) : option ascii :=
  match last a with
  | Some ch => Some ch
  | None => prev
  end.

Inductive Matches : regex -> pos -> caps -> pos -> caps -> Prop :=
| MEps x c : Matches Eps x c x c
| MChr p prev ch t c :
    p ch = true -> Matches (Chr p) (prev, ch :: t) c (Some ch, t) c
| MCat r1 r2 x c y c1 z c2 :
    Matches r1 x c y c1 -> Matches r2 y c1 z c2 ->
    Matches (Cat r1 r2) x c z c2
| MAltL r1 r2 x c y c' : Matches r1 x c y c' -> Matches (Alt r1 r2) x c y c'
| MAltR r1 r2 x c y c' : Matches r2 x c y c' -> Matches (Alt r1 r2) x c y c'
| MStar p prev a t c :
    forallb p a = true -> Matches (Star p) (prev, a ++ t) c (after prev a, t) c
| MLazy p prev a t c :
    forallb p a = true -> Matches (Lazy p) (prev, a ++ t) c (after prev a, t) c
| MBos x c : at_bos x = true -> Matches Bos x c x c
| MBol x c : at_bol x = true -> Matches Bol x c x c
| MEol x c : at_eol x = true -> Matches Eol x c x c
| MEndZ x c : at_end x = true -> Matches EndZ x c x c
| MAhead r x c y c' : Matches r x c y c' -> Matches (Ahead r) x c x c'
| MGroup g r x c y c' :
    Matches r x c y c' ->
    Matches (Group g r) x c y (set_grp g (taken x y) c').

(** A pair of [opts] whose label is one lowercased letter of the class. *)
Definition labelled_pair (oc : pystr * pystr) : Prop :=
  exists l, oc.1 = [lower_char l] /\ cls_abcd l = true.

(** The text of the scenario of the specification, line by line. *)
Definition joinlf (ls : list string) : pystr :=
  concat (match map txt ls with
          | [] => []
          | l :: r => l :: map (cons LF) r
          end).

Definition scenario : pystr :=
  joinlf ["1. What is 2+2?"; "a) 3"; "b) 4"; "c) 5"; "d) 6"; "Answer: b";
          "Explanation: Basic arithmetic"]%string.

Definition str (s : string) : pyval := PyStr (txt s).

(** A block whose answer line carries a label only, and without options. *)
Definition label_only : pystr :=
  joinlf ["1. Q"; "Answer: b"; "Explanation: E"]%string.

(** ** Words of the specification *)

(** A text without whitespace at either end. *)
Definition trimmed (s : pystr) : Prop :=
  (forall c t, s = c :: t -> is_space c = false) /\
  (forall c t, s = t ++ [c] -> is_space c = false).

(** The lines of a text, as LF separates them. *)
Fixpoint lines_lf (s : pystr) : list pystr :=
  match s with
  | [] => [[]]
  | c :: t =>
      if chr_eqb c LF then [] :: lines_lf t
      else match lines_lf t with
           | l :: ls => (c :: l) :: ls
           | [] => [[c]]
           end
  end.

Fixpoint skip_digits (s : pystr) : pystr :=
  match s with
  | c :: t => if is_digit c then skip_digits t else s
  | [] => []
  end.

(** A numbered-question marker line: optional leading whitespace, one or
    more digits, a period. *)
Definition is_marker_line (ln : pystr) : bool :=
  match lstrip ln with
  | d :: t =>
      is_digit d &&
      match skip_digits t with
      | c :: _ => chr_eqb c "."
      | [] => false
      end
  | [] => false
  end.

(** Some line of the text is a marker line. *)
Definition has_marker (text : pystr) : bool :=
  existsb is_marker_line (lines_lf text).

(** [[b.strip() for b in re.split(..., text) if b.strip()]] *)
Definition paragraphs (text : pystr) : list pystr :=
  map strip (List.filter (fun b => nonempty (strip b)) (re_split blank_line text)).

(** No two line ends of the text have only whitespace between them. *)
Definition no_blank_line (p : pystr) : Prop :=
  forall a ws b, p = a ++ LF :: ws ++ LF :: b -> forallb is_space ws = false.

(** Two one-line paragraphs around an empty line. *)
Definition two_paragraphs : pystr :=
  joinlf ["Which planet is red"; ""; "Which planet is blue"]%string.

(** The first line of a text. *)
Definition first_line (s : pystr) : pystr := hd [] (lines_lf s).

(** [pattern] after its leading "^\s*". *)
Definition pattern_tail : regex :=
  seq [Chr is_digit; Star is_digit; Chr cls_period; Star is_space;
       Group G1 (Lazy cls_any); Ahead pattern_ahead].

(** A preamble and a numbered question, for the examples. *)
Definition preamble : pystr := txt "Here are your questions:" ++ [LF].

Definition numbered : pystr := joinlf ["1. Q"; "a) x"; "b) y"]%string.

(** ** The freeform shape of one record *)

(** A non-empty text on one line, without whitespace at either end. *)
Definition plain (s : pystr) : Prop :=
  s <> [] /\ trimmed s /\ ~ In LF s /\ ~ In CR s.

(** [s] starts with the word [w], in any case. *)
Fixpoint starts_ci (w s : pystr) : bool :=
  match w with
  | [] => true
  | a :: w' =>
      match s with
      | c :: s' => cls_ci a c && starts_ci w' s'
      | [] => false
      end
  end.

(** [s] starts with an option marker: a letter a-d, then a period or a
    closing parenthesis. *)
Definition starts_marker (s : pystr) : bool :=
  match s with
  | l :: p :: _ => cls_abcd l && cls_punct p
  | _ => false
  end.

(** [s] starts with a character of the separator class of the answer and
    explanation lines. *)
Definition starts_sep (s : pystr) : bool :=
  match s with
  | c :: _ => cls_sep c
  | [] => false
  end.

(** The freeform text of a record:
    1. question / a) .. d) options / Answer: answer / Explanation: text. *)
Definition serialize (q o0 o1 o2 o3 a e : pystr) : pystr :=
  txt "1. " ++ q ++ LF :: txt "a) " ++ o0 ++ LF :: txt "b) " ++ o1 ++
  LF :: txt "c) " ++ o2 ++ LF :: txt "d) " ++ o3 ++
  LF :: txt "Answer: " ++ a ++ LF :: txt "Explanation: " ++ e.

(** The record with these texts in its fields. *)
Definition record (q o0 o1 o2 o3 a e : pystr) : mcq :=
  Mcq (PyStr q) [PyStr o0; PyStr o1; PyStr o2; PyStr o3] (PyStr a) (PyStr e).

(** No attempt that starts inside [a], before [t], succeeds. *)
Definition dead (k : cont) (c : caps) (prev : option ascii) (a t : pystr)
    : Prop :=
  forall a1 a2, a = a1 ++ a2 -> a2 <> [] -> k (after prev a1, a2 ++ t) c = None.


(** ** Words of the further properties *)

(** The blocks that reach the field extractor: each one trimmed, the empty
    ones left out. *)
Definition live_blocks (text : pystr) : list pystr :=
  List.filter nonempty (map strip (blocks_of text)).

(** The slot of a lowercase label: 0 for a, 3 for d. *)
Definition slot_of (l : ascii) : nat := Z.to_nat (code l - ord_a).

(** A field that holds a [str] without whitespace at either end. *)
Definition trimmed_val (v : pyval) : Prop :=
  exists s, v = PyStr s /\ trimmed s.

(** The shapes of an answer: empty, a bare lowercase label, or a label, a
    closing parenthesis, a space and a text. *)
Definition answer_shape (a : pystr) : Prop :=
  a = [] \/
  exists l, in_range 97 100 l = true /\
    (a = [l] \/ exists t, t <> [] /\ a = labelled [l] t).

(** A reply that wraps the array of [array_text] in prose. *)
Definition wrapped_text : pystr :=
  txt "Here are the questions: " ++ array_text ++ txt " Good luck!".

(** ** The exports of [render_export_options]

    Both exports parse the text of the session again and build their
    output from the records.  The clock and the parameters of the
    generation belong to the session: [clock k] is the text of the [k]-th
    reading of [datetime.now().strftime(...)] and [params] is the [dict]
    under the key [generation_params].  The [pandas] and [FPDF] objects
    belong to their libraries: the table is the data handed to
    [pd.DataFrame] and the document is the list of the calls made on
    [pdf], in order. *)

(** [if mcq_list:] *)
Definition some_records (mcq_list : list mcq) : bool :=
  match mcq_list with [] => false | _ => true end.

(** [params.get(key, "N/A")] *)
Definition param (params : gmap pystr pyval) (key : string) : pyval :=
  default (str "N/A") (params !! txt key).

(** A row: the [dict] of one record, its keys in insertion order, which
    is the order of the columns. *)
Abbreviation row := (list (string * pyval)).

Inductive table :=
| Rows (rows : list row)
| TextColumn (lines : list pystr).

(** The [dict] appended to [rows]; its values are evaluated in the order
    of the keys. *)
Definition csv_row (params : gmap pystr pyval) (now : pystr) (m : mcq)
    : exc row :=
  a <- getitem (options m) 0 ;;
  b <- getitem (options m) 1 ;;
  c <- getitem (options m) 2 ;;
  d <- getitem (options m) 3 ;;
  Ret [("question", question m); ("option_a", a); ("option_b", b);
       ("option_c", c); ("option_d", d); ("answer", answer m);
       ("explanation", explanation m); ("difficulty", param params "level");
       ("grade", param params "grade"); ("generated_date", PyStr now)]%string.

(** The body of [for m in mcq_list]: the clock is read once for each row. *)
Definition csv_step (params : gmap pystr pyval) (clock : nat -> pystr)
    (rows : list row) (m : mcq) : exc (list row) :=
  r <- csv_row params (clock (length rows)) m ;;
  Ret (rows ++ [r]).

Definition export_csv (json_loads : pystr -> exc pyval)
    (params : gmap pystr pyval) (clock : nat -> pystr) (raw : pystr)
    : exc table :=
  mcq_list <- parse_mcqs json_loads raw ;;
  if some_records mcq_list then
    rows <- for_each mcq_list (csv_step params clock) [] ;;
    Ret (Rows rows)
  else Ret (TextColumn (splitlines raw)).

Definition columns : list string :=
  ["question"; "option_a"; "option_b"; "option_c"; "option_d"; "answer";
   "explanation"; "difficulty"; "grade"; "generated_date"]%string.

(** The calls made on the [FPDF] object; the width of a cell is always 0. *)
Inductive pdf_op :=
| SetAutoPageBreak (margin : Z)
| AddPage
| SetFont (style : string) (size : Z)
| Cell (h : Z) (text : pystr) (align : string)
| Ln (h : Z)
| MultiCell (h : Z) (text : pystr).

(** [text.encode("latin-1", "replace")]: one byte for each character, the
    byte of [?] for a character that Latin-1 does not have. *)
Definition encode_latin1 (text : pystr) : list Z :=
  map (fun c => if code c <? 256 then code c else 63) text.

(** [bs.decode("latin-1")] *)
Definition decode_latin1 (bs : list Z) : pystr :=
  map (fun b => ascii_of_N (Z.to_N b)) bs.

(** [safe_text] on a [str], which is what every call passes. *)
Definition safe_text (text : pystr) : pystr :=
  decode_latin1 (encode_latin1 text).

(** The decimal digits of [i], as an f-string writes them. *)
Definition decimal (i : nat) : pystr :=
  txt (NilZero.string_of_uint (Nat.to_uint i)).

Section Document.

(** [str(v)] for a value that is not a [str]. *)
Variable py_str : pyval -> pystr.

(** A replacement field of an f-string. *)
Definition fstr (v : pyval) : pystr :=
  match v with PyStr s => s | _ => py_str v end.

(** [for idx, opt in enumerate(options)], from the index [idx] on. *)
Fixpoint option_cells (idx : nat) (opts : list pyval) : list pdf_op :=
  match opts with
  | [] => []
  | opt :: opts' =>
      (if truthy opt
       then [MultiCell 8 (safe_text (txt "   " ++ ascii_of_nat (65 + idx) ::
                                     txt ") " ++ fstr opt))]
       else []) ++ option_cells (S idx) opts'
  end.

(** The calls for the record numbered [i]. *)
Definition record_cells (include_answers exam_mode : bool) (i : nat) (m : mcq)
    : list pdf_op :=
  [MultiCell 8 (safe_text (decimal i ++ txt ". " ++ fstr (question m))); Ln 1]
  ++ option_cells 0 (options m) ++ [Ln 1]
  ++ (if include_answers && negb exam_mode then
        (if truthy (answer m)
         then [MultiCell 8 (safe_text (txt "Answer: " ++ fstr (answer m)))]
         else [])
        ++ (if truthy (explanation m)
            then [MultiCell 8
                    (safe_text (txt "Explanation: " ++ fstr (explanation m)))]
            else [])
      else [])
  ++ [Ln 4].

(** [for i, mcq in enumerate(mcq_list, 1)], from the number [i] on. *)
Fixpoint body_cells (include_answers exam_mode : bool) (i : nat)
    (mcq_list : list mcq) : list pdf_op :=
  match mcq_list with
  | [] => []
  | m :: rest =>
      record_cells include_answers exam_mode i m
      ++ body_cells include_answers exam_mode (S i) rest
  end.

Definition pdf_header (params : gmap pystr pyval) (now : pystr)
    : list pdf_op :=
  [SetAutoPageBreak 15; AddPage; SetFont "B" 16;
   Cell 10 (safe_text (txt "Smart MCQ Generator - Question Bank")) "C";
   Ln 5; SetFont EmptyString 10;
   Cell 8 (safe_text (txt "Generated: " ++ now)) EmptyString;
   Cell 8 (safe_text (txt "Difficulty: " ++ fstr (param params "level") ++
                      txt " | Grade: " ++ fstr (param params "grade")))
        EmptyString;
   Ln 5; SetFont EmptyString 12]%string.

Definition export_pdf (json_loads : pystr -> exc pyval)
    (params : gmap pystr pyval) (clock : nat -> pystr)
    (include_answers exam_mode : bool) (raw : pystr) : exc (list pdf_op) :=
  mcq_list <- parse_mcqs json_loads raw ;;
  Ret (pdf_header params (clock 0%nat) ++
       if some_records mcq_list
       then body_cells include_answers exam_mode 1 mcq_list
       else map (fun line => MultiCell 8 (safe_text line)) (splitlines raw)).

End Document.



(** The same text with the line ends of Windows. *)
Fixpoint to_crlf (s : pystr) : pystr :=
  match s with
  | [] => []
  | c :: t => if chr_eqb c LF then CR :: LF :: to_crlf t else c :: to_crlf t
  end.

(** A question between two runs of blank lines. *)
Definition padded_text : pystr :=
  [LF; " "%char] ++ txt "1. Q" ++ [CR; LF; LF].

(** What the fourth slot holds when the text of a record is parsed again:
    the fourth option and the two lines after it. *)
Definition last_slot (o3 a e : pystr) : pystr :=
  o3 ++ LF :: txt "Answer: " ++ a ++ LF :: txt "Explanation: " ++ e.

(** The text of a record without its number: the one block of the text. *)
Definition block_text (q o0 o1 o2 slot3 : pystr) : pystr :=
  q ++ LF :: txt "a) " ++ o0 ++ LF :: txt "b) " ++ o1 ++
  LF :: txt "c) " ++ o2 ++ LF :: txt "d) " ++ slot3.

(** [plain], as a test. *)
Definition plainb (s : pystr) : bool :=
  match s, last s with
  | c :: _, Some d =>
      negb (is_space c) && negb (is_space d) &&
      forallb (fun x => negb (chr_eqb x LF) && negb (chr_eqb x CR)) s
  | _, _ => false
  end.

(** * Properties *)

(** ** [find], [rfind] and slices *)

Ltac zbool :=
  repeat match goal with
  | H : (_ >? _) = _ |- _ => rewrite Z.gtb_ltb in H
  | H : (_ =? _) = true |- _ => apply Z.eqb_eq in H
  | H : (_ =? _) = false |- _ => apply Z.eqb_neq in H
  | H : (_ <? _) = true |- _ => apply Z.ltb_lt in H
  | H : (_ <? _) = false |- _ => apply Z.ltb_ge in H
  | H : (_ <=? _) = true |- _ => apply Z.leb_le in H
  | H : (_ <=? _) = false |- _ => apply Z.leb_gt in H
  end.

Lemma chr_eqb_eq (a b : ascii) : chr_eqb a b = true <-> a = b.
Proof. unfold chr_eqb. apply Ascii.eqb_eq. Qed.

Lemma chr_eqb_neq (a b : ascii) : chr_eqb a b = false <-> a <> b.
Proof. unfold chr_eqb. apply Ascii.eqb_neq. Qed.

Lemma chr_eqb_refl (a : ascii) : chr_eqb a a = true.
Proof. by apply chr_eqb_eq. Qed.

Lemma find_ge (c : ascii) (s : pystr) : -1 <= find c s.
Proof.
  induction s as [|d t IH]; simpl; [lia|].
  destruct (chr_eqb d c); [lia|].
  destruct (find c t =? -1) eqn:E; lia.
Qed.

Lemma rfind_ge (c : ascii) (s : pystr) : -1 <= rfind c s.
Proof.
  induction s as [|d t IH]; simpl; [lia|].
  destruct (rfind c t =? -1) eqn:E; [destruct (chr_eqb d c)|]; lia.
Qed.

Lemma find_absent (c : ascii) (s : pystr) : ~ In c s -> find c s = -1.
Proof.
  induction s as [|d t IH]; simpl; intros H; [done|].
  destruct (chr_eqb d c) eqn:E.
  - apply chr_eqb_eq in E. tauto.
  - rewrite IH by tauto. reflexivity.
Qed.

Lemma rfind_absent (c : ascii) (s : pystr) : ~ In c s -> rfind c s = -1.
Proof.
  induction s as [|d t IH]; simpl; intros H; [done|].
  rewrite IH by tauto. simpl.
  destruct (chr_eqb d c) eqn:E; [|done].
  apply chr_eqb_eq in E. tauto.
Qed.

Lemma find_first (c : ascii) (a t : pystr) :
  ~ In c a -> find c (a ++ c :: t) = Z.of_nat (length a).
Proof.
  induction a as [|d a IH]; simpl; intros H.
  - by rewrite chr_eqb_refl.
  - destruct (chr_eqb d c) eqn:E.
    + apply chr_eqb_eq in E. tauto.
    + rewrite IH by tauto.
      destruct (Z.of_nat (length a) =? -1) eqn:E'; lia.
Qed.

Lemma rfind_last (c : ascii) (a b : pystr) :
  ~ In c b -> rfind c (a ++ c :: b) = Z.of_nat (length a).
Proof.
  intros H. induction a as [|d a IH]; simpl.
  - rewrite rfind_absent by done. simpl. by rewrite chr_eqb_refl.
  - rewrite IH. destruct (Z.of_nat (length a) =? -1) eqn:E'; lia.
Qed.

Lemma find_found (c : ascii) (s : pystr) :
  find c s <> -1 ->
  exists a t, s = a ++ c :: t /\ ~ In c a /\ find c s = Z.of_nat (length a).
Proof.
  induction s as [|d s IH]; simpl; [done|].
  destruct (chr_eqb d c) eqn:E.
  - apply chr_eqb_eq in E. subst d. intros _. exists [], s.
    split; [done|]. split; [simpl; tauto|done].
  - destruct (find c s =? -1) eqn:E'; [done|]. intros _.
    destruct IH as (a & t & -> & Ha & Hf); [lia|].
    exists (d :: a), t. apply chr_eqb_neq in E.
    split; [done|]. split; [simpl; intros [?|?]; tauto|].
    rewrite Hf. simpl length. lia.
Qed.

Lemma rfind_present (c : ascii) (s : pystr) : In c s -> rfind c s <> -1.
Proof.
  induction s as [|d s IH]; simpl; [done|]. intros [->|Hin].
  - pose proof (rfind_ge c s).
    destruct (rfind c s =? -1) eqn:E; [rewrite chr_eqb_refl; lia|].
    apply Z.eqb_neq in E. lia.
  - specialize (IH Hin). pose proof (rfind_ge c s).
    destruct (rfind c s =? -1) eqn:E; [apply Z.eqb_eq in E; lia|lia].
Qed.

Lemma rfind_found (c : ascii) (s : pystr) :
  rfind c s <> -1 ->
  exists a b, s = a ++ c :: b /\ ~ In c b /\ rfind c s = Z.of_nat (length a).
Proof.
  induction s as [|d s IH]; simpl; [done|].
  destruct (rfind c s =? -1) eqn:E'.
  - destruct (chr_eqb d c) eqn:E; [|done]. intros _.
    apply chr_eqb_eq in E. subst d. exists [], s.
    split; [done|]. split; [|done].
    intros Hin. apply Z.eqb_eq in E'. by apply rfind_present in Hin.
  - intros _. apply Z.eqb_neq in E'.
    destruct IH as (a & b & -> & Hb & Hf); [lia|].
    exists (d :: a), b. split; [done|]. split; [done|].
    rewrite Hf. simpl length. lia.
Qed.

Lemma slice_middle {A} (a m b : list A) :
  slice (a ++ m ++ b) (Z.of_nat (length a)) (Z.of_nat (length a + length m)) = m.
Proof.
  unfold slice. rewrite !length_app.
  destruct (Z.ltb_spec (Z.of_nat (length a)) 0); [lia|].
  destruct (Z.ltb_spec (Z.of_nat (length a + length m)) 0); [lia|].
  rewrite !Z.min_l by lia.
  replace (Z.to_nat (Z.of_nat (length a + length m) - Z.of_nat (length a)))
    with (length m) by lia.
  rewrite Nat2Z.id, drop_app_length, take_app_length. reflexivity.
Qed.

(** ** The format detector *)

Section Detector.

Variable json_loads : pystr -> exc pyval.

Lemma try_load_json_returns (text : pystr) :
  exists v, try_load_json json_loads text = Ret v.
Proof.
  unfold try_load_json. destruct (json_loads text); [eauto|].
  destruct (_ && _); [|eauto].
  destruct (json_loads _); eauto.
Qed.

Lemma try_load_json_bracketed (text a m b : pystr) (e : pyexc) :
  json_loads text = Raise e ->
  text = a ++ open_bracket :: m ++ close_bracket :: b ->
  ~ In open_bracket a -> ~ In close_bracket b ->
  try_load_json json_loads text =
    Ret (match json_loads (open_bracket :: m ++ [close_bracket]) with
         | Ret v => v
         | Raise _ => PyNone
         end).
Proof.
  intros Hr -> Ha Hb. unfold try_load_json. rewrite Hr.
  fold open_bracket close_bracket.
  rewrite find_first by done.
  replace (a ++ open_bracket :: m ++ close_bracket :: b)
    with ((a ++ open_bracket :: m) ++ close_bracket :: b)
    by (by rewrite <- app_assoc).
  rewrite rfind_last by done.
  rewrite length_app. simpl length.
  destruct (negb _ && negb _ && _) eqn:E.
  - replace ((a ++ open_bracket :: m) ++ close_bracket :: b)
      with (a ++ (open_bracket :: m ++ [close_bracket]) ++ b)
      by (rewrite <- !app_assoc; simpl; by rewrite <- app_assoc).
    replace (Z.of_nat (length a + S (length m)) + 1)
      with (Z.of_nat (length a + length (open_bracket :: m ++ [close_bracket])))
      by (simpl; rewrite length_app; simpl; lia).
    rewrite slice_middle.
    by destruct (json_loads (open_bracket :: m ++ [close_bracket])).
  - exfalso. rewrite !andb_false_iff, !negb_false_iff in E.
    destruct E as [[E|E]|E]; zbool; lia.
Qed.

Lemma try_load_json_unbracketed (text : pystr) (e : pyexc) :
  json_loads text = Raise e ->
  (forall a m b, text <> a ++ open_bracket :: m ++ close_bracket :: b) ->
  try_load_json json_loads text = Ret PyNone.
Proof.
  intros Hr Hno. unfold try_load_json. rewrite Hr.
  fold open_bracket close_bracket.
  destruct (negb _ && negb _ && _) eqn:E; [|done]. exfalso.
  rewrite !andb_true_iff, !negb_true_iff in E. destruct E as [[E1 E2] E3].
  zbool.
  destruct (find_found open_bracket text) as (a & t & Ht & Ha & Hf); [lia|].
  destruct (rfind_found close_bracket text) as (a' & b & Ht' & Hb & Hr');
    [lia|].
  assert (Hlen : (length a < length a')%nat) by lia.
  assert (Hpre : a' = a ++ drop (length a) a').
  { rewrite <- (take_drop (length a) a') at 1. f_equal.
    transitivity (take (length a) text).
    - rewrite Ht'. by rewrite take_app_le by lia.
    - rewrite Ht. apply take_app_length. }
  destruct (drop (length a) a') as [|x m] eqn:Ed.
  { apply (f_equal length) in Ed. rewrite length_drop in Ed. simpl in Ed. lia. }
  assert (x = open_bracket).
  { rewrite Hpre in Ht'. rewrite Ht in Ht'. rewrite <- app_assoc in Ht'.
    apply app_inv_head in Ht'. simpl in Ht'. congruence. }
  subst x. apply (Hno a m b). rewrite Ht', Hpre at 1.
  by rewrite <- app_assoc.
Qed.

End Detector.

(** C7: the format detector returns for every text and never raises; what
    [json.loads] decodes from the whole text is returned as it is; when the
    whole text is refused and has a first [[] before its last []], the result
    is what [json.loads] decodes from the span between them, both included,
    and [None] if that is refused too; without such a span it is [None]. *)
Theorem try_load_json_never_raises
    (json_loads : pystr -> exc pyval) (text : pystr) :
  (exists v, try_load_json json_loads text = Ret v) /\
  (forall v, json_loads text = Ret v ->
     try_load_json json_loads text = Ret v) /\
  (forall e, json_loads text = Raise e ->
     (forall a m b,
        text = a ++ open_bracket :: m ++ close_bracket :: b ->
        ~ In open_bracket a -> ~ In close_bracket b ->
        try_load_json json_loads text =
          Ret (match json_loads (open_bracket :: m ++ [close_bracket]) with
               | Ret v => v
               | Raise _ => PyNone
               end)) /\
     ((forall a m b, text <> a ++ open_bracket :: m ++ close_bracket :: b) ->
        try_load_json json_loads text = Ret PyNone)).
Proof.
  split; [apply try_load_json_returns|]. split.
  - intros v Hv. unfold try_load_json. by rewrite Hv.
  - intros e He. split.
    + intros a m b. by apply try_load_json_bracketed with e.
    + by apply try_load_json_unbracketed with e.
Qed.

(** ** The structured-array path *)

Lemma fit4_short (l : list pyval) :
  (length l < 4)%nat ->
  l ++ replicate (4 - length l) empty_str = fit4 l.
Proof.
  intros H. unfold fit4. rewrite take_app.
  rewrite take_ge by lia. f_equal.
  rewrite take_replicate. f_equal. lia.
Qed.

Lemma fit4_long (l : list pyval) :
  (4 <= length l)%nat -> slice l 0 4 = fit4 l.
Proof.
  intros H. unfold fit4, slice. simpl.
  rewrite (Z.min_l 4) by lia. rewrite (Z.min_l 0) by lia. simpl.
  by rewrite take_app_le by lia.
Qed.

Lemma length_fit4 (l : list pyval) : length (fit4 l) = 4%nat.
Proof.
  unfold fit4. rewrite length_take, length_app, length_replicate. lia.
Qed.

Lemma normalize_item_spec (normalized : list mcq) (item : pyval) :
  normalize_item normalized item = Ret (normalized ++ [record_of_item item]).
Proof.
  unfold normalize_item. do 3 f_equal.
  destruct item as [| | | | | |d]; try reflexivity.
  unfold record_of_item, get_if_dict. f_equal.
  destruct (d !! txt "options") as [[| | | | |l|]|]; try reflexivity.
  simpl. destruct (Z.ltb_spec (Z.of_nat (length l)) 4).
  - replace (Z.to_nat (4 - Z.of_nat (length l))) with (4 - length l)%nat
      by lia.
    apply fit4_short. lia.
  - apply fit4_long. lia.
Qed.

Lemma for_each_normalize_item (l : list pyval) (acc : list mcq) :
  for_each l normalize_item acc = Ret (acc ++ map record_of_item l).
Proof.
  revert acc. induction l as [|item l IH]; intros acc; cbn [for_each map].
  - by rewrite app_nil_r.
  - rewrite normalize_item_spec. cbn [bind]. rewrite IH.
    by rewrite <- app_assoc.
Qed.

Lemma record_of_item_options (item : pyval) :
  length (options (record_of_item item)) = 4%nat.
Proof.
  destruct item as [| | | | | |d]; try reflexivity.
  cbn [record_of_item options].
  destruct (d !! txt "options") as [[| | | | |l|]|]; try reflexivity.
  apply length_fit4.
Qed.

(** C1: when the format detector yields an array of N elements, [parse_mcqs]
    returns exactly the N records of the elements, in order: the record of a
    mapping is read from its four keys with [""] as default, the record of
    any other element is the all-empty one; the result does not depend on
    the freeform parser. *)
Theorem parse_mcqs_structured
    (json_loads : pystr -> exc pyval) (text : pystr) (loaded : list pyval) :
  try_load_json json_loads text = Ret (PyList loaded) ->
  parse_mcqs json_loads text = Ret (map record_of_item loaded) /\
  length (map record_of_item loaded) = length loaded /\
  (forall item, In item loaded -> (forall d, item <> PyDict d) ->
     record_of_item item = blank_record).
Proof.
  intros H. unfold parse_mcqs. rewrite H. simpl.
  rewrite for_each_normalize_item. split; [done|].
  split; [apply length_map|].
  intros item _ Hd. destruct item; try reflexivity. by destruct (Hd d).
Qed.

Lemma parse_mcqs_structured_witness :
  parse_mcqs (decoder_of array_text (PyList array_value)) array_text =
    Ret [Mcq (PyStr (txt "Q1")) [empty_str; empty_str; empty_str; empty_str]
             empty_str empty_str;
         blank_record].
Proof.
  apply (parse_mcqs_structured
           (decoder_of array_text (PyList array_value)) array_text array_value).
  reflexivity.
Defined.

(** ** The matcher finds matches only *)

Lemma after_nil (prev : option ascii) : after prev [] = prev.
Proof. reflexivity. Qed.

Lemma after_cons (prev : option ascii) (ch : ascii) (a : pystr) :
  after prev (ch :: a) = after (Some ch) a.
Proof.
  unfold after. destruct a as [|d a]; [done|].
  rewrite last_cons_cons. destruct (last (d :: a)) eqn:E; [done|].
  by apply last_None in E.
Qed.

Lemma after_app (prev : option ascii) (a b : pystr) :
  after prev (a ++ b) = after (after prev a) b.
Proof.
  revert prev. induction a as [|ch a IH]; intros prev; [done|].
  simpl app. rewrite !after_cons. apply IH.
Qed.

Lemma star_greedy_sound p k prev s c res :
  star_greedy p k prev s c = Some res ->
  exists a t, s = a ++ t /\ forallb p a = true /\
              k (after prev a, t) c = Some res.
Proof.
  revert prev. induction s as [|ch s IH]; intros prev; simpl.
  - intros H. by exists [], [].
  - destruct (p ch) eqn:Hp; [|intros H; by exists [], (ch :: s)].
    destruct (star_greedy p k (Some ch) s c) eqn:Hs.
    + intros [= ->]. destruct (IH _ Hs) as (a & t & -> & Ha & Hk).
      exists (ch :: a), t. rewrite after_cons. simpl. by rewrite Hp.
    + intros H. by exists [], (ch :: s).
Qed.

Lemma star_lazy_sound p k prev s c res :
  star_lazy p k prev s c = Some res ->
  exists a t, s = a ++ t /\ forallb p a = true /\
              k (after prev a, t) c = Some res.
Proof.
  revert prev. induction s as [|ch s IH]; intros prev; simpl.
  - destruct (k (prev, []) c) eqn:Hk; [|done]. intros [= ->].
    by exists [], [].
  - destruct (k (prev, ch :: s) c) eqn:Hk.
    + intros [= ->]. by exists [], (ch :: s).
    + destruct (p ch) eqn:Hp; [|done]. intros Hs.
      destruct (IH _ Hs) as (a & t & -> & Ha & Hk').
      exists (ch :: a), t. rewrite after_cons. simpl. by rewrite Hp.
Qed.

Lemma rmatch_sound r : forall k x c res,
  rmatch r k x c = Some res ->
  exists y c', Matches r x c y c' /\ k y c' = Some res.
Proof.
  induction r as [|p|r1 IH1 r2 IH2|r1 IH1 r2 IH2|p|p| | | | |r IH|g r IH];
    intros k [prev s] c res; simpl.
  - intros H. exists (prev, s), c. split; [constructor|done].
  - destruct s as [|ch t]; [done|]. destruct (p ch) eqn:Hp; [|done].
    intros H. exists (Some ch, t), c. split; [by constructor|done].
  - intros H. destruct (IH1 _ _ _ _ H) as (y & c1 & H1 & H').
    destruct (IH2 _ _ _ _ H') as (z & c2 & H2 & H'').
    exists z, c2. split; [by econstructor|done].
  - destruct (rmatch r1 k (prev, s) c) eqn:E1.
    + intros [= ->]. destruct (IH1 _ _ _ _ E1) as (y & c' & H1 & H').
      exists y, c'. split; [by apply MAltL|done].
    + intros H. destruct (IH2 _ _ _ _ H) as (y & c' & H2 & H').
      exists y, c'. split; [by apply MAltR|done].
  - intros H. destruct (star_greedy_sound _ _ _ _ _ _ H) as (a & t & -> & Ha & Hk).
    exists (after prev a, t), c. split; [by constructor|done].
  - intros H. destruct (star_lazy_sound _ _ _ _ _ _ H) as (a & t & -> & Ha & Hk).
    exists (after prev a, t), c. split; [by constructor|done].
  - destruct (at_bos (prev, s)) eqn:E; [|done]. intros H.
    exists (prev, s), c. split; [by constructor|done].
  - destruct (at_bol (prev, s)) eqn:E; [|done]. intros H.
    exists (prev, s), c. split; [by constructor|done].
  - destruct (at_eol (prev, s)) eqn:E; [|done]. intros H.
    exists (prev, s), c. split; [by constructor|done].
  - destruct (at_end (prev, s)) eqn:E; [|done]. intros H.
    exists (prev, s), c. split; [by constructor|done].
  - destruct (rmatch r accept (prev, s) c) as [[y c']|] eqn:E; [|done].
    intros H. destruct (IH _ _ _ _ E) as (y' & c'' & Hm & [= -> ->]).
    exists (prev, s), c'. split; [by econstructor|done].
  - intros H. destruct (IH _ _ _ _ H) as (y & c' & Hm & Hk).
    exists y, (set_grp g (taken (prev, s) y) c'). split; [by constructor|done].
Qed.

Lemma match_here_sound r prev s i m :
  match_here r prev s i = Some m ->
  exists y, Matches r (prev, s) no_caps y (m_caps m) /\
            m_start m = i /\ m_end m = (i + (length s - length y.2))%nat.
Proof.
  unfold match_here.
  destruct (rmatch r accept (prev, s) no_caps) as [[y c]|] eqn:E; [|done].
  intros [= <-]. destruct (rmatch_sound _ _ _ _ _ E) as (y' & c' & Hm & [= -> ->]).
  by exists y.
Qed.

Lemma taken_app (prev prev' : option ascii) (a t : pystr) :
  taken (prev, a ++ t) (prev', t) = a.
Proof.
  unfold taken. simpl. rewrite length_app.
  replace (length a + length t - length t)%nat with (length a) by lia.
  apply take_app_length.
Qed.

Lemma taken_cons (prev prev' : option ascii) (ch : ascii) (t : pystr) :
  taken (prev, ch :: t) (prev', t) = [ch].
Proof. apply (taken_app prev prev' [ch] t). Qed.

Ltac inv_step H := inversion H; subst; clear H.

Ltac inv_matches :=
  repeat match goal with
  | H : Matches Eps _ _ _ _ |- _ => inv_step H
  | H : Matches (Chr _) _ _ _ _ |- _ => inv_step H
  | H : Matches (Cat _ _) _ _ _ _ |- _ => inv_step H
  | H : Matches (Alt _ _) _ _ _ _ |- _ => inv_step H
  | H : Matches (Star _) _ _ _ _ |- _ => inv_step H
  | H : Matches (Lazy _) _ _ _ _ |- _ => inv_step H
  | H : Matches Bos _ _ _ _ |- _ => inv_step H
  | H : Matches Bol _ _ _ _ |- _ => inv_step H
  | H : Matches Eol _ _ _ _ |- _ => inv_step H
  | H : Matches EndZ _ _ _ _ |- _ => inv_step H
  | H : Matches (Ahead _) _ _ _ _ |- _ => inv_step H
  | H : Matches (Group _ _) _ _ _ _ |- _ => inv_step H
  end.

Lemma opt_pattern_shape x y c :
  Matches opt_pattern x no_caps y c ->
  exists lead ws1 l p ws2 body,
    x.2 = lead ++ ws1 ++ l :: p :: ws2 ++ body ++ y.2 /\
    ((lead = [] /\ at_bol x = true) \/
     (exists ch, lead = [ch] /\ cls_nl_cr ch = true)) /\
    forallb is_space ws1 = true /\ cls_abcd l = true /\ cls_punct p = true /\
    forallb is_space ws2 = true /\
    c = Caps (Some [l]) (Some body) /\
    (y.2 = [] \/
     exists ws l' p' rest,
       y.2 = LF :: ws ++ l' :: p' :: rest /\ forallb is_space ws = true /\
       cls_abcd l' = true /\ cls_punct p' = true).
Proof.
  unfold opt_pattern, opt_ahead. simpl. intros H. inv_matches.
  all: rewrite ?taken_app, ?taken_cons.
  all: simpl.
  all: repeat match goal with
       | H : cls_nl _ = true |- _ => apply chr_eqb_eq in H; subst
       end.
  1, 2: eexists [], _, _, _, _, _.
  3, 4: eexists [_], _, _, _, _, _.
  all: split; [reflexivity|].
  all: split; [first [left; split; [reflexivity|eassumption]
                     |right; eexists; split; [reflexivity|eassumption]]|].
  all: do 5 (split; [first [eassumption|reflexivity]|]).
  1, 3: right; eexists _, _, _, _; split; [reflexivity|]; by repeat split.
  all: left.
  all: match goal with
       | H : at_end (_, ?t) = true |- ?t = [] => by destruct t
       end.
Qed.

Lemma answer_pattern_groups x y c :
  Matches answer_pattern x no_caps y c ->
  exists l body, c = Caps (Some [l]) (Some body) /\ cls_abcd l = true.
Proof.
  unfold answer_pattern, word_ci. simpl. intros H. inv_matches.
  all: rewrite ?taken_app, ?taken_cons; simpl; eauto.
Qed.

Lemma explanation_pattern_groups x y c :
  Matches explanation_pattern x no_caps y c ->
  exists body, c = Caps (Some body) None.
Proof.
  unfold explanation_pattern, word_ci. simpl. intros H. inv_matches.
  all: rewrite ?taken_app, ?taken_cons; simpl; eauto.
Qed.

Lemma line_pattern_shape x y c :
  Matches line_pattern x no_caps y c ->
  exists l p ws body,
    x.2 = l :: p :: ws ++ body ++ y.2 /\ at_bos x = true /\
    cls_abcd l = true /\ cls_punct p = true /\
    forallb is_space ws = true /\ forallb cls_dot body = true /\
    c = Caps (Some [l]) (Some body).
Proof.
  unfold line_pattern. simpl. intros H. inv_matches.
  all: rewrite ?taken_app, ?taken_cons; simpl.
  eexists _, _, _, _. by repeat split.
Qed.

Lemma search_from_sound r prev s i m :
  search_from r prev s i = Some m ->
  exists a t, s = a ++ t /\
              match_here r (after prev a) t (i + length a) = Some m.
Proof.
  revert prev i. induction s as [|ch s IH]; intros prev i; simpl.
  - destruct (match_here r prev [] i) eqn:E; [|done]. intros [= ->].
    exists [], []. by rewrite Nat.add_0_r.
  - destruct (match_here r prev (ch :: s) i) eqn:E.
    + intros [= ->]. exists [], (ch :: s). by rewrite Nat.add_0_r.
    + intros H. destruct (IH _ _ H) as (a & t & -> & Hm).
      exists (ch :: a), t. rewrite after_cons. simpl length.
      by replace (i + S (length a))%nat with (S i + length a)%nat by lia.
Qed.

Lemma finditer_from_sound r skip prev s i m :
  In m (finditer_from r skip prev s i) ->
  exists a t, s = a ++ t /\
              match_here r (after prev a) t (i + length a) = Some m.
Proof.
  revert skip prev i. induction s as [|ch s IH]; intros skip prev i.
  - destruct skip; simpl; [|done].
    destruct (match_here r prev [] i) eqn:E; [|done].
    intros [<-|[]]. exists [], []. by rewrite Nat.add_0_r.
  - assert (Hrec : forall n, In m (finditer_from r n (Some ch) s (S i)) ->
        exists a t, ch :: s = a ++ t /\
          match_here r (after prev a) t (i + length a) = Some m).
    { intros n H. destruct (IH _ _ _ H) as (a & t & -> & Hm).
      exists (ch :: a), t. rewrite after_cons. simpl length.
      by replace (i + S (length a))%nat with (S i + length a)%nat by lia. }
    destruct skip; simpl; [|apply Hrec].
    destruct (match_here r prev (ch :: s) i) eqn:E; [|apply Hrec].
    intros [<-|H]; [|by apply Hrec in H].
    exists [], (ch :: s). by rewrite Nat.add_0_r.
Qed.

(** ** The freeform parser returns *)

Lemma label_index (l : ascii) :
  cls_abcd l = true -> 0 <= code (lower_char l) - ord_a < 4.
Proof.
  destruct l as [[] [] [] [] [] [] [] []]; intros H; vm_compute in H;
    try discriminate H; clear H; vm_compute; split; congruence.
Qed.

Lemma label_lower (l : ascii) :
  cls_abcd l = true -> cls_abcd (lower_char l) = true.
Proof.
  destruct l as [[] [] [] [] [] [] [] []]; intros H; vm_compute in H;
    try discriminate H; reflexivity.
Qed.

Lemma setitem_ok {A} (l : list A) (i : Z) (x : A) :
  0 <= i < Z.of_nat (length l) ->
  setitem l i x = Ret (<[Z.to_nat i := x]> l).
Proof.
  intros H. unfold setitem.
  destruct (Z.ltb_spec i 0); [lia|].
  destruct (Z.leb_spec 0 i); [|lia].
  destruct (Z.ltb_spec i (Z.of_nat (length l))); [done|lia].
Qed.

Lemma getitem_ok {A} (l : list A) (i : Z) :
  0 <= i < Z.of_nat (length l) ->
  exists x, getitem l i = Ret x /\ l !! Z.to_nat i = Some x.
Proof.
  intros H. unfold getitem.
  destruct (Z.ltb_spec i 0); [lia|].
  destruct (Z.leb_spec 0 i); [|lia].
  destruct (Z.ltb_spec i (Z.of_nat (length l))); [|lia]. simpl.
  destruct (lookup_lt_is_Some_2 l (Z.to_nat i)) as [x Hx]; [lia|].
  rewrite Hx. eauto.
Qed.


Lemma finditer_opt_groups (block : pystr) (m : match_obj) :
  In m (finditer opt_pattern block) ->
  exists l body, m_caps m = Caps (Some [l]) (Some body) /\ cls_abcd l = true.
Proof.
  intros H. apply finditer_from_sound in H as (a & t & _ & Hm).
  apply match_here_sound in Hm as (y & HM & _).
  apply opt_pattern_shape in HM
    as (lead & ws1 & l & p & ws2 & body & _ & _ & _ & Hl & _ & _ & Hc & _).
  eauto.
Qed.

Lemma get_opts_ok (block : pystr) :
  exists opts, get_opts block = Ret opts /\ Forall labelled_pair opts.
Proof.
  unfold get_opts. generalize (finditer_opt_groups block).
  generalize (finditer opt_pattern block) as ms.
  induction ms as [|m ms IH]; intros H; cbn [map_exc].
  - by exists [].
  - destruct (H m) as (l & body & Hc & Hl); [by left|].
    destruct IH as (opts & -> & HF); [intros; apply H; by right|].
    unfold group_str, group. rewrite Hc. simpl.
    eexists. split; [reflexivity|]. constructor; [|done]. by exists l.
Qed.

Lemma store_option_ok (ol : list pystr) (oc : pystr * pystr) :
  labelled_pair oc -> length ol = 4%nat ->
  exists ol', store_option ol oc = Ret ol' /\ length ol' = 4%nat.
Proof.
  intros (l & Hl & Hc) Hlen. unfold store_option. rewrite Hl. simpl.
  pose proof (label_index l Hc) as Hi.
  destruct (Z.leb_spec 0 (code (lower_char l) - ord_a)); [|lia].
  destruct (Z.ltb_spec (code (lower_char l) - ord_a) 4); [|lia]. simpl.
  rewrite setitem_ok by lia. eexists. split; [reflexivity|].
  by rewrite length_insert.
Qed.

Lemma for_each_length4 {A} (body : list pystr -> A -> exc (list pystr))
    (P : A -> Prop) (l : list A) (ol : list pystr) :
  (forall ol x, P x -> length ol = 4%nat ->
     exists ol', body ol x = Ret ol' /\ length ol' = 4%nat) ->
  Forall P l -> length ol = 4%nat ->
  exists ol', for_each l body ol = Ret ol' /\ length ol' = 4%nat.
Proof.
  intros Hbody HP. revert ol. induction HP as [|x l Hx HP IH]; intros ol Hlen.
  - by exists ol.
  - cbn [for_each]. destruct (Hbody ol x Hx Hlen) as (ol1 & -> & Hlen1).
    cbn [bind]. by apply IH.
Qed.

Lemma fill_options_ok (opts : list (pystr * pystr)) :
  Forall labelled_pair opts ->
  exists ol, fill_options opts = Ret ol /\ length ol = 4%nat.
Proof.
  intros H. unfold fill_options.
  by apply for_each_length4 with (P := labelled_pair);
    [apply store_option_ok| |].
Qed.

Lemma store_line_ok (ol : list pystr) (ln : pystr) :
  length ol = 4%nat ->
  exists ol', store_line ol ln = Ret ol' /\ length ol' = 4%nat.
Proof.
  intros Hlen. unfold store_line, re_match.
  destruct (match_here line_pattern None ln 0) as [m|] eqn:E; [|by exists ol].
  apply match_here_sound in E as (y & HM & _).
  apply line_pattern_shape in HM
    as (l & p & ws & body & _ & _ & Hl & _ & _ & _ & Hc).
  unfold group_str, group. rewrite Hc. simpl.
  pose proof (label_index l Hl) as Hi.
  destruct (Z.leb_spec 0 (code (lower_char l) - ord_a)); [|lia].
  destruct (Z.ltb_spec (code (lower_char l) - ord_a) 4); [|lia]. simpl.
  rewrite setitem_ok by lia. eexists. split; [reflexivity|].
  by rewrite length_insert.
Qed.

Lemma rescan_lines_ok (block : pystr) (ol : list pystr) :
  length ol = 4%nat ->
  exists ol', rescan_lines block ol = Ret ol' /\ length ol' = 4%nat.
Proof.
  intros Hlen. unfold rescan_lines. destruct (negb (any ol)); [|by exists ol].
  apply for_each_length4 with (P := fun _ => True); [|by apply Forall_true|done].
  intros ? ? _. apply store_line_ok.
Qed.

Lemma splitlines_nonempty (s : pystr) : s <> [] -> splitlines s <> [].
Proof.
  destruct s as [|c t]; [done|]. intros _. simpl.
  destruct (is_linebreak c).
  - destruct t as [|d t']; [done|]. by destruct (_ && _).
  - by destruct (splitlines t).
Qed.

Lemma get_q_text_ok (block : pystr) :
  block <> [] -> exists q, get_q_text block = Ret q.
Proof.
  intros H. unfold get_q_text.
  destruct (re_search opt_pattern block); [eauto|].
  destruct (splitlines block) as [|l ls] eqn:E.
  - by apply splitlines_nonempty in H.
  - by exists (strip l).
Qed.

Lemma search_answer_groups (block : pystr) (m : match_obj) :
  re_search answer_pattern block = Some m ->
  exists l body, m_caps m = Caps (Some [l]) (Some body) /\ cls_abcd l = true.
Proof.
  intros H. apply search_from_sound in H as (a & t & _ & Hm).
  apply match_here_sound in Hm as (y & HM & _).
  by apply answer_pattern_groups in HM.
Qed.

Lemma get_answer_text_ok (block : pystr) (ol : list pystr) :
  length ol = 4%nat -> exists a, get_answer_text block ol = Ret a.
Proof.
  intros Hlen. unfold get_answer_text.
  destruct (re_search answer_pattern block) as [m|] eqn:E; [|eauto].
  apply search_answer_groups in E as (l & body & Hc & Hl).
  unfold group_str, group. rewrite Hc. simpl.
  destruct (nonempty (strip body)); [eauto|].
  pose proof (label_index l Hl) as Hi.
  destruct (Z.leb_spec 0 (code (lower_char l) - ord_a)); [|lia].
  destruct (Z.ltb_spec (code (lower_char l) - ord_a) 4); [|lia]. simpl.
  destruct (getitem_ok ol (code (lower_char l) - ord_a)) as (x & -> & _);
    [lia|].
  simpl. eauto.
Qed.

Lemma get_explanation_text_ok (block : pystr) :
  exists e, get_explanation_text block = Ret e.
Proof.
  unfold get_explanation_text.
  destruct (re_search explanation_pattern block) as [m|] eqn:E; [|eauto].
  apply search_from_sound in E as (a & t & _ & Hm).
  apply match_here_sound in Hm as (y & HM & _).
  apply explanation_pattern_groups in HM as (body & Hc).
  unfold group_str, group. rewrite Hc. simpl. eauto.
Qed.

Lemma parse_block_ok (block : pystr) :
  block <> [] ->
  exists r, parse_block block = Ret r /\ length (options r) = 4%nat.
Proof.
  intros H. unfold parse_block.
  destruct (get_opts_ok block) as (opts & -> & Hopts). cbn [bind].
  destruct (get_q_text_ok block H) as (q & ->). cbn [bind].
  destruct (fill_options_ok opts Hopts) as (ol & -> & Hol). cbn [bind].
  destruct (rescan_lines_ok block ol Hol) as (ol' & -> & Hol'). cbn [bind].
  destruct (get_answer_text_ok block ol' Hol') as (a & ->). cbn [bind].
  destruct (get_explanation_text_ok block) as (e & ->).
  cbn [bind]. eexists. split; [reflexivity|].
  cbn [options]. by rewrite length_map.
Qed.

Lemma parse_step_ok (parsed : list mcq) (block : pystr) :
  Forall (fun r => length (options r) = 4%nat) parsed ->
  exists parsed', parse_step parsed block = Ret parsed' /\
    Forall (fun r => length (options r) = 4%nat) parsed'.
Proof.
  intros H. unfold parse_step.
  destruct (strip block) as [|c b] eqn:E; [by exists parsed|].
  cbn [nonempty negb].
  destruct (parse_block_ok (c :: b)) as (r & -> & Hr); [done|].
  cbn [bind]. eexists. split; [reflexivity|].
  apply Forall_app. split; [done|]. by constructor.
Qed.

Lemma parse_plain_mcqs_ok (text : pystr) :
  exists rs, parse_plain_mcqs text = Ret rs /\
    Forall (fun r => length (options r) = 4%nat) rs.
Proof.
  unfold parse_plain_mcqs.
  destruct (negb (nonempty (strip (replace_crlf text)))); [by exists []|].
  generalize (blocks_of (strip (replace_crlf text))) as bs.
  assert (H0 : Forall (fun r => length (options r) = 4%nat) (@nil mcq))
    by constructor.
  revert H0. generalize (@nil mcq) as acc. intros acc H0 bs. revert acc H0.
  induction bs as [|b bs IH]; intros acc H0; cbn [for_each].
  - by exists acc.
  - destruct (parse_step_ok acc b H0) as (acc' & -> & H1). cbn [bind].
    by apply IH.
Qed.

Lemma parse_mcqs_ok (json_loads : pystr -> exc pyval) (text : pystr) :
  exists rs, parse_mcqs json_loads text = Ret rs /\
    Forall (fun r => length (options r) = 4%nat) rs.
Proof.
  unfold parse_mcqs.
  destruct (try_load_json_returns json_loads text) as (v & ->). cbn [bind].
  destruct v; try apply parse_plain_mcqs_ok.
  rewrite for_each_normalize_item. eexists. split; [reflexivity|].
  simpl. apply Forall_forall. intros r Hr.
  apply list_elem_of_In, in_map_iff in Hr as (item & <- & _).
  apply record_of_item_options.
Qed.

Lemma lstrip_spaces (s : pystr) : forallb is_space s = true -> lstrip s = [].
Proof.
  induction s as [|c s IH]; [done|]. simpl.
  intros [Hc Hs]%andb_true_iff. rewrite Hc. by apply IH.
Qed.

Lemma replace_crlf_cons2 (c d : ascii) (t : pystr) :
  replace_crlf (c :: d :: t) =
    if chr_eqb c CR && chr_eqb d LF then LF :: replace_crlf t
    else c :: replace_crlf (d :: t).
Proof. reflexivity. Qed.

Lemma replace_crlf_spaces (s : pystr) :
  forallb is_space s = true -> forallb is_space (replace_crlf s) = true.
Proof.
  induction s as [s IH] using (induction_ltof1 _ (@length _)).
  unfold ltof in IH. destruct s as [|c [|d t]]; [done|done|].
  intros H. simpl in H. apply andb_true_iff in H as [Hc H].
  apply andb_true_iff in H as [Hd Ht].
  rewrite replace_crlf_cons2. destruct (chr_eqb c CR && chr_eqb d LF).
  - cbn [forallb]. rewrite IH; [done|simpl; lia|done].
  - cbn [forallb]. rewrite Hc. cbn [andb]. apply IH; [simpl; lia|].
    cbn [forallb]. by rewrite Hd.
Qed.

Lemma strip_spaces (s : pystr) : forallb is_space s = true -> strip s = [].
Proof. intros H. unfold strip. by rewrite lstrip_spaces. Qed.

Lemma parse_plain_mcqs_blank (text : pystr) :
  forallb is_space text = true -> parse_plain_mcqs text = Ret [].
Proof.
  intros H. unfold parse_plain_mcqs.
  by rewrite strip_spaces by by apply replace_crlf_spaces.
Qed.

(** C4: [parse_mcqs] returns a list of records for every text and never
    raises; on a text of whitespace only, such as [""] and ["   "], that
    [json.loads] does not decode into an array, the list is empty. *)
Theorem parse_mcqs_total (json_loads : pystr -> exc pyval) :
  (forall text, exists rs, parse_mcqs json_loads text = Ret rs) /\
  (forall text, forallb is_space text = true ->
     (forall l, json_loads text <> Ret (PyList l)) ->
     parse_mcqs json_loads text = Ret []) /\
  ((forall l, json_loads (txt "") <> Ret (PyList l)) ->
     parse_mcqs json_loads (txt "") = Ret []) /\
  ((forall l, json_loads (txt "   ") <> Ret (PyList l)) ->
     parse_mcqs json_loads (txt "   ") = Ret []).
Proof.
  assert (Hblank : forall text, forallb is_space text = true ->
     (forall l, json_loads text <> Ret (PyList l)) ->
     parse_mcqs json_loads text = Ret []).
  { intros text Hs Hl. unfold parse_mcqs.
    assert (Hv : exists v, try_load_json json_loads text = Ret v /\
                           forall l, v <> PyList l).
    { unfold try_load_json. destruct (json_loads text) as [v|e] eqn:E.
      - exists v. split; [done|]. intros l ->. by apply (Hl l).
      - assert (Hf : find "[" text = -1).
        { apply find_absent. intros Hin.
          apply (proj1 (forallb_forall _ _)) with (x := "["%char) in Hs;
            [discriminate Hs|done]. }
        rewrite Hf. simpl. by exists PyNone. }
    destruct Hv as (v & -> & Hv). cbn [bind].
    destruct v; try by apply parse_plain_mcqs_blank. by destruct (Hv l). }
  split; [|split; [done|split; by apply Hblank]].
  intros text. destruct (parse_mcqs_ok json_loads text) as (rs & Hrs & _).
  by exists rs.
Qed.

Lemma parse_mcqs_total_witness :
  parse_mcqs refuse_all (txt "") = Ret [] /\
  parse_mcqs refuse_all (txt "   ") = Ret [].
Proof.
  destruct (parse_mcqs_total refuse_all) as (_ & _ & H1 & H2).
  split; [apply H1|apply H2]; intros l; discriminate.
Defined.

(** C5: every record that [parse_mcqs] returns, on the structured-array
    path and on the freeform path, has exactly four option slots; on the
    structured-array path a list of options shorter than four is padded
    with [""] and a longer one is cut after its fourth element. *)
Theorem options_always_four (json_loads : pystr -> exc pyval) (text : pystr) :
  (exists rs, parse_mcqs json_loads text = Ret rs /\
     Forall (fun r => length (options r) = 4%nat) rs) /\
  (forall acc d l, d !! txt "options" = Some (PyList l) ->
     exists r, normalize_item acc (PyDict d) = Ret (acc ++ [r]) /\
       options r = take 4 l ++ replicate (4 - length l) empty_str).
Proof.
  split; [apply parse_mcqs_ok|].
  intros acc d l Hd. rewrite normalize_item_spec. eexists.
  split; [reflexivity|]. cbn [record_of_item options]. rewrite Hd.
  unfold fit4. rewrite take_app. f_equal. rewrite take_replicate.
  f_equal. lia.
Qed.

(** C2, as the code runs it: on the scenario text the fourth option slot
    holds the rest of the block and the answer holds the explanation line. *)
Theorem scenario_result (json_loads : pystr -> exc pyval) :
  (forall l, json_loads scenario <> Ret (PyList l)) ->
  parse_mcqs json_loads scenario =
    Ret [Mcq (str "What is 2+2?")
             [str "3"; str "4"; str "5";
              PyStr (joinlf ["6"; "Answer: b";
                             "Explanation: Basic arithmetic"]%string)]
             (str "b) Explanation: Basic arithmetic")
             (str "Basic arithmetic")].
Proof.
  intros Hl. unfold parse_mcqs.
  assert (Hv : exists v, try_load_json json_loads scenario = Ret v /\
                         forall l, v <> PyList l).
  { unfold try_load_json. destruct (json_loads scenario) as [v|e] eqn:E.
    - exists v. split; [done|]. intros l ->. by apply (Hl l).
    - by exists PyNone. }
  destruct Hv as (v & -> & Hv). cbn [bind].
  destruct v; try by vm_compute. by destruct (Hv l).
Qed.

Lemma scenario_result_witness :
  parse_mcqs refuse_all scenario =
    Ret [Mcq (str "What is 2+2?")
             [str "3"; str "4"; str "5";
              PyStr (joinlf ["6"; "Answer: b";
                             "Explanation: Basic arithmetic"]%string)]
             (str "b) Explanation: Basic arithmetic")
             (str "Basic arithmetic")].
Proof. apply (scenario_result refuse_all). intros l. discriminate. Defined.

(** C6, as the code runs it: an answer line that carries a label only, in a
    block without options, resolves to the label followed by the text of
    the next line. *)
Theorem label_only_result (json_loads : pystr -> exc pyval) :
  (forall l, json_loads label_only <> Ret (PyList l)) ->
  parse_mcqs json_loads label_only =
    Ret [Mcq (str "Q") [empty_str; empty_str; empty_str; empty_str]
             (str "b) Explanation: E") (str "E")].
Proof.
  intros Hl. unfold parse_mcqs.
  assert (Hv : exists v, try_load_json json_loads label_only = Ret v /\
                         forall l, v <> PyList l).
  { unfold try_load_json. destruct (json_loads label_only) as [v|e] eqn:E.
    - exists v. split; [done|]. intros l ->. by apply (Hl l).
    - by exists PyNone. }
  destruct Hv as (v & -> & Hv). cbn [bind].
  destruct v; try by vm_compute. by destruct (Hv l).
Qed.

Lemma label_only_result_witness :
  parse_mcqs refuse_all label_only =
    Ret [Mcq (str "Q") [empty_str; empty_str; empty_str; empty_str]
             (str "b) Explanation: E") (str "E")].
Proof. apply (label_only_result refuse_all). intros l. discriminate. Defined.

(** ** [strip] *)

Lemma lstrip_head (s : pystr) (c : ascii) (t : pystr) :
  lstrip s = c :: t -> is_space c = false.
Proof.
  induction s as [|d s IH]; simpl; [done|].
  destruct (is_space d) eqn:E; [done|]. by intros [= -> ->].
Qed.

Lemma lstrip_nonspace (c : ascii) (t : pystr) :
  is_space c = false -> lstrip (c :: t) = c :: t.
Proof. intros H. simpl. by rewrite H. Qed.

Lemma lstrip_app_spaces (a s : pystr) :
  forallb is_space a = true -> lstrip (a ++ s) = lstrip s.
Proof.
  induction a as [|c a IH]; [done|]. simpl.
  intros [Hc Ha]%andb_true_iff. rewrite Hc. by apply IH.
Qed.

Lemma lstrip_split (s : pystr) :
  exists a, s = a ++ lstrip s /\ forallb is_space a = true.
Proof.
  induction s as [|c s (a & IH & Ha)]; [by exists []|]. simpl.
  destruct (is_space c) eqn:E.
  - exists (c :: a). simpl. rewrite E, Ha. split; [by f_equal|done].
  - by exists [].
Qed.

Lemma rstrip_snoc_nonspace (s : pystr) (c : ascii) :
  is_space c = false -> rstrip (s ++ [c]) = s ++ [c].
Proof.
  intros H. unfold rstrip. rewrite rev_app_distr. simpl. rewrite H.
  simpl. by rewrite rev_involutive.
Qed.

Lemma rstrip_snoc_space (s : pystr) (c : ascii) :
  is_space c = true -> rstrip (s ++ [c]) = rstrip s.
Proof.
  intros H. unfold rstrip. rewrite rev_app_distr. simpl. by rewrite H.
Qed.

Lemma rstrip_app_spaces (s a : pystr) :
  forallb is_space a = true -> rstrip (s ++ a) = rstrip s.
Proof.
  induction a as [|c a IH] using rev_ind; [by rewrite app_nil_r|].
  rewrite forallb_app. simpl. intros [Ha [Hc _]%andb_true_iff]%andb_true_iff.
  rewrite app_assoc, rstrip_snoc_space by done. by apply IH.
Qed.

Lemma rstrip_split (s : pystr) :
  exists a, s = rstrip s ++ a /\ forallb is_space a = true.
Proof.
  unfold rstrip. destruct (lstrip_split (rev s)) as (a & Ha & Hs).
  exists (rev a). split.
  - rewrite <- rev_app_distr, <- Ha. by rewrite rev_involutive.
  - rewrite forallb_forall in *. intros x Hx. apply Hs. by apply in_rev.
Qed.

Lemma rstrip_last (s t : pystr) (c : ascii) :
  rstrip s = t ++ [c] -> is_space c = false.
Proof.
  unfold rstrip. intros H. apply (f_equal (@rev _)) in H.
  rewrite rev_involutive, rev_app_distr in H. simpl in H.
  by apply lstrip_head in H.
Qed.

Lemma rstrip_cons_nonspace (c : ascii) (s : pystr) :
  is_space c = false -> rstrip (c :: s) = c :: rstrip s.
Proof.
  intros Hc. induction s as [|d s IH] using rev_ind.
  - by apply (rstrip_snoc_nonspace [] c).
  - destruct (is_space d) eqn:Hd.
    + rewrite (rstrip_snoc_space s d Hd).
      rewrite app_comm_cons, rstrip_snoc_space by done. apply IH.
    + rewrite (rstrip_snoc_nonspace s d Hd).
      by rewrite app_comm_cons, rstrip_snoc_nonspace.
Qed.

Lemma strip_trimmed (s : pystr) : trimmed (strip s).
Proof.
  unfold strip. split.
  - intros c t H. destruct (lstrip s) as [|d u] eqn:E; [done|].
    pose proof (lstrip_head _ _ _ E) as Hd.
    rewrite rstrip_cons_nonspace in H by done. by injection H as -> _.
  - intros c t H. by apply rstrip_last in H.
Qed.

Lemma strip_of_trimmed (s : pystr) : trimmed s -> strip s = s.
Proof.
  intros [Hh Hl]. unfold strip. destruct s as [|c s]; [done|].
  rewrite lstrip_nonspace by by eapply Hh.
  destruct (c :: s) as [|d u] eqn:E using rev_ind; [done|].
  apply rstrip_snoc_nonspace. by eapply Hl.
Qed.

Lemma strip_idemp (s : pystr) : strip (strip s) = strip s.
Proof. apply strip_of_trimmed, strip_trimmed. Qed.

Lemma trimmed_nil : trimmed [].
Proof. split; intros c t H; [done|by destruct t]. Qed.

(** ** Marker lines *)

Lemma pattern_shape x y c :
  Matches pattern x no_caps y c ->
  at_bol x = true /\
  exists ws d ds ws2 body,
    x.2 = ws ++ d :: ds ++ "."%char :: ws2 ++ body ++ y.2 /\
    forallb is_space ws = true /\ is_digit d = true /\
    forallb is_digit ds = true /\ forallb is_space ws2 = true /\
    c = Caps (Some body) None.
Proof.
  unfold pattern, pattern_ahead, marker. simpl. intros H. inv_matches.
  all: repeat match goal with
       | H : cls_period _ = true |- _ => apply chr_eqb_eq in H; subst
       end.
  all: rewrite ?taken_app.
  all: split; [done|].
  all: eexists _, _, _, _, _; split; [reflexivity|done].
Qed.

Lemma lines_lf_nonempty (s : pystr) : lines_lf s <> [].
Proof.
  destruct s as [|c s]; [done|]. cbn [lines_lf].
  destruct (chr_eqb c LF); [done|]. by destruct (lines_lf s).
Qed.

Lemma lines_lf_app_lf (u v : pystr) :
  lines_lf (u ++ LF :: v) = lines_lf u ++ lines_lf v.
Proof.
  induction u as [|c u IH]; cbn [app lines_lf].
  - by rewrite chr_eqb_refl.
  - destruct (chr_eqb c LF); [by rewrite IH|]. rewrite IH.
    pose proof (lines_lf_nonempty u). by destruct (lines_lf u).
Qed.

Lemma lines_lf_app_first (a v : pystr) :
  ~ In LF a ->
  exists l ls, lines_lf v = l :: ls /\ lines_lf (a ++ v) = (a ++ l) :: ls.
Proof.
  intros Ha. induction a as [|c a IH]; cbn [app lines_lf].
  - pose proof (lines_lf_nonempty v).
    destruct (lines_lf v) as [|l ls]; [done|]. by exists l, ls.
  - destruct IH as (l & ls & Hv & Ha'); [simpl in Ha; tauto|].
    destruct (chr_eqb c LF) eqn:E.
    + apply chr_eqb_eq in E. simpl in Ha. tauto.
    + rewrite Ha'. by exists l, ls.
Qed.

Lemma skip_digits_app (ds s : pystr) :
  forallb is_digit ds = true -> skip_digits (ds ++ s) = skip_digits s.
Proof.
  induction ds as [|d ds IH]; [done|]. cbn [forallb app skip_digits].
  intros [Hd Hds]%andb_true_iff. rewrite Hd. by apply IH.
Qed.

Lemma is_marker_line_intro (w ds more : pystr) (d : ascii) :
  forallb is_space w = true -> is_digit d = true ->
  forallb is_digit ds = true ->
  is_marker_line (w ++ d :: ds ++ "."%char :: more) = true.
Proof.
  intros Hw Hd Hds. unfold is_marker_line.
  rewrite lstrip_app_spaces by done.
  assert (Hsp : is_space d = false).
  { destruct d as [[] [] [] [] [] [] [] []]; vm_compute in Hd;
      try discriminate Hd; reflexivity. }
  rewrite lstrip_nonspace by done. rewrite Hd.
  by rewrite skip_digits_app by done.
Qed.

Lemma split_last_lf (ws : pystr) :
  exists w1 w2, ws = w1 ++ w2 /\ (w1 = [] \/ exists w, w1 = w ++ [LF]) /\
                ~ In LF w2.
Proof.
  induction ws as [|c ws (w1 & w2 & -> & H1 & H2)] using rev_ind.
  - exists [], []. split; [done|]. split; [by left|]. by intros [].
  - destruct (chr_eqb c LF) eqn:E.
    + apply chr_eqb_eq in E. subst c. exists ((w1 ++ w2) ++ [LF]), [].
      split; [by rewrite app_nil_r|]. split; [right; by eexists|by intros []].
    + apply chr_eqb_neq in E. exists w1, (w2 ++ [c]).
      split; [by rewrite app_assoc|]. split; [done|].
      intros [H|H]%in_app_or; [done|]. simpl in H. by destruct H.
Qed.

Lemma digit_not_lf (d : ascii) : is_digit d = true -> d <> LF.
Proof. intros H ->. by vm_compute in H. Qed.

(** A marker found by the pattern sits on a marker line. *)
Lemma marker_found (u ws ds z : pystr) (d : ascii) :
  at_bol (after None u, ws ++ d :: ds ++ "."%char :: z) = true ->
  forallb is_space ws = true -> is_digit d = true ->
  forallb is_digit ds = true ->
  has_marker (u ++ ws ++ d :: ds ++ "."%char :: z) = true.
Proof.
  intros Hbol Hws Hd Hds.
  destruct (split_last_lf ws) as (w1 & w2 & -> & Hw1 & Hw2).
  rewrite forallb_app in Hws. apply andb_true_iff in Hws as [Hs1 Hs2].
  assert (Hline : forall v, exists l ls,
    lines_lf (w2 ++ d :: ds ++ "."%char :: v) = l :: ls /\
    is_marker_line l = true).
  { intros v.
    destruct (lines_lf_app_first (w2 ++ d :: ds ++ ["."%char]) v)
      as (l & ls & Hv & Hl).
    { intros [H|H]%in_app_or; [done|]. simpl in H. destruct H as [H|H].
      - by apply digit_not_lf in Hd.
      - apply in_app_or in H as [H|H].
        + rewrite forallb_forall in Hds. apply Hds in H. by vm_compute in H.
        + simpl in H. by destruct H. }
    exists ((w2 ++ d :: ds ++ ["."%char]) ++ l), ls.
    split.
    - rewrite <- Hl. f_equal. rewrite <- !app_assoc. simpl.
      by rewrite <- app_assoc.
    - rewrite <- !app_assoc. simpl. rewrite <- app_assoc. simpl.
      by apply is_marker_line_intro. }
  unfold has_marker. apply existsb_exists.
  destruct (Hline z) as (l & ls & Hl & Hm). exists l. split; [|done].
  destruct Hw1 as [->|(w & ->)].
  - (* the line starts where the match starts *)
    simpl app. unfold at_bol in Hbol. simpl in Hbol.
    destruct u as [|c u] using rev_ind.
    + simpl. rewrite Hl. by left.
    + unfold after in Hbol. rewrite last_snoc in Hbol.
      apply chr_eqb_eq in Hbol. subst c. rewrite <- app_assoc. simpl.
      rewrite lines_lf_app_lf. apply in_or_app. right. rewrite Hl. by left.
  - rewrite <- !app_assoc. simpl. rewrite app_assoc.
    rewrite lines_lf_app_lf. apply in_or_app. right. rewrite Hl. by left.
Qed.

Lemma parse_mcqs_freeform (json_loads : pystr -> exc pyval) (text : pystr) :
  (forall l, try_load_json json_loads text <> Ret (PyList l)) ->
  parse_mcqs json_loads text = parse_plain_mcqs text.
Proof.
  intros H. unfold parse_mcqs.
  destruct (try_load_json_returns json_loads text) as (v & Hv).
  rewrite Hv in *. cbn [bind]. destruct v; try reflexivity.
  by destruct (H l).
Qed.

Lemma finditer_from_nil r prev s i :
  (forall a t, s = a ++ t ->
     match_here r (after prev a) t (i + length a) = None) ->
  finditer_from r 0 prev s i = [].
Proof.
  intros H. destruct (finditer_from r 0 prev s i) as [|m ms] eqn:E; [done|].
  assert (Hin : In m (finditer_from r 0 prev s i)) by (rewrite E; by left).
  apply finditer_from_sound in Hin as (a & t & Hs & Hm).
  by rewrite (H a t Hs) in Hm.
Qed.

Lemma pattern_needs_marker (a s : pystr) (i : nat) :
  has_marker (a ++ s) = false -> match_here pattern (after None a) s i = None.
Proof.
  intros H. destruct (match_here pattern (after None a) s i) as [m|] eqn:E;
    [|done].
  apply match_here_sound in E as (y & HM & _).
  apply pattern_shape in HM
    as (Hbol & ws & d & ds & ws2 & body & Hs & Hws & Hd & Hds & _).
  simpl in Hs. subst s. by rewrite marker_found in H.
Qed.

Lemma blocks_of_unmarked (text : pystr) :
  has_marker text = false -> blocks_of text = paragraphs text.
Proof.
  intros H. unfold blocks_of, findall, finditer.
  rewrite finditer_from_nil; [done|].
  intros a t ->. by apply pattern_needs_marker.
Qed.

Lemma parse_step_trimmed (parsed : list mcq) (block : pystr) :
  trimmed block -> block <> [] ->
  exists r, parse_block block = Ret r /\
            parse_step parsed block = Ret (parsed ++ [r]).
Proof.
  intros Ht Hne. unfold parse_step. rewrite strip_of_trimmed by done.
  destruct block as [|c b]; [done|]. cbn [nonempty negb].
  destruct (parse_block_ok (c :: b)) as (r & Hr & _); [done|].
  exists r. by rewrite Hr.
Qed.

Lemma for_each_parse_step (bs : list pystr) (acc : list mcq) :
  Forall (fun b => trimmed b /\ b <> []) bs ->
  exists rs, for_each bs parse_step acc = Ret (acc ++ rs) /\
             Forall2 (fun b r => parse_block b = Ret r) bs rs.
Proof.
  intros H. revert acc. induction H as [|b bs [Ht Hne] H IH]; intros acc.
  - exists []. by rewrite app_nil_r.
  - cbn [for_each].
    destruct (parse_step_trimmed acc b Ht Hne) as (r & Hr & ->). cbn [bind].
    destruct (IH (acc ++ [r])) as (rs & -> & HF).
    exists (r :: rs). split; [by rewrite <- app_assoc|by constructor].
Qed.

Lemma paragraphs_trimmed (text : pystr) :
  Forall (fun b => trimmed b /\ b <> []) (paragraphs text).
Proof.
  unfold paragraphs. apply Forall_forall. intros b Hb.
  apply list_elem_of_In, in_map_iff in Hb as (p & <- & Hp).
  apply filter_In in Hp as [_ Hp]. split; [apply strip_trimmed|].
  by destruct (strip p).
Qed.

Lemma parse_plain_mcqs_unmarked (text : pystr) :
  has_marker (strip (replace_crlf text)) = false ->
  exists rs, parse_plain_mcqs text = Ret rs /\
    Forall2 (fun b r => parse_block b = Ret r)
            (paragraphs (strip (replace_crlf text))) rs.
Proof.
  intros H. unfold parse_plain_mcqs.
  destruct (strip (replace_crlf text)) as [|c t] eqn:E.
  - exists []. split; [done|].
    replace (paragraphs []) with (@nil pystr) by (vm_compute; reflexivity).
    constructor.
  - cbn [nonempty negb]. rewrite blocks_of_unmarked by done.
    destruct (for_each_parse_step (paragraphs (c :: t)) [])
      as (rs & Hrs & HF); [apply paragraphs_trimmed|].
    by exists rs.
Qed.

(** ** How the matcher and the scans run on a text given in pieces *)

Lemma star_greedy_stop p k prev s c :
  match s with [] => True | ch :: _ => p ch = false end ->
  star_greedy p k prev s c = k (prev, s) c.
Proof. destruct s as [|ch t]; [done|]. simpl. by intros ->. Qed.

Lemma star_greedy_app_some p k prev a t c y :
  forallb p a = true ->
  star_greedy p k (after prev a) t c = Some y ->
  star_greedy p k prev (a ++ t) c = Some y.
Proof.
  revert prev. induction a as [|ch a IH]; intros prev; [done|].
  cbn [forallb app star_greedy]. intros [Hc Ha]%andb_true_iff.
  rewrite after_cons, Hc. intros H. by rewrite (IH _ Ha H).
Qed.

Lemma star_lazy_here p k prev s c y :
  k (prev, s) c = Some y -> star_lazy p k prev s c = Some y.
Proof. intros H. destruct s; simpl; by rewrite H. Qed.

Lemma star_lazy_skip p k prev a t c :
  forallb p a = true ->
  (forall a1 a2, a = a1 ++ a2 -> a2 <> [] ->
     k (after prev a1, a2 ++ t) c = None) ->
  star_lazy p k prev (a ++ t) c = star_lazy p k (after prev a) t c.
Proof.
  revert prev. induction a as [|ch a IH]; intros prev; [done|].
  cbn [forallb app]. intros [Hc Ha]%andb_true_iff Hk.
  assert (H0 : k (prev, ch :: a ++ t) c = None)
    by by apply (Hk [] (ch :: a)).
  cbn [star_lazy]. rewrite H0, Hc.
  rewrite after_cons. apply IH; [done|].
  intros a1 a2 -> Hne. specialize (Hk (ch :: a1) a2).
  rewrite after_cons in Hk. by apply Hk.
Qed.

Lemma search_from_here r prev s i m :
  match_here r prev s i = Some m -> search_from r prev s i = Some m.
Proof. intros H. destruct s; simpl; by rewrite H. Qed.

Lemma search_from_skip r prev a t i :
  (forall a1 a2, a = a1 ++ a2 -> a2 <> [] ->
     match_here r (after prev a1) (a2 ++ t) (i + length a1) = None) ->
  search_from r prev (a ++ t) i =
    search_from r (after prev a) t (i + length a).
Proof.
  revert prev i. induction a as [|ch a IH]; intros prev i Hk.
  - by rewrite Nat.add_0_r.
  - assert (H0 : match_here r prev (ch :: a ++ t) i = None).
    { rewrite <- (Nat.add_0_r i). by apply (Hk [] (ch :: a)). }
    cbn [app search_from]. rewrite H0.
    rewrite after_cons. simpl length.
    replace (i + S (length a))%nat with (S i + length a)%nat by lia.
    apply IH. intros a1 a2 -> Hne. specialize (Hk (ch :: a1) a2).
    rewrite after_cons in Hk. simpl length in Hk.
    replace (i + S (length a1))%nat with (S i + length a1)%nat in Hk by lia.
    by apply Hk.
Qed.

Lemma finditer_from_skip r prev a t i :
  (forall a1 a2, a = a1 ++ a2 -> a2 <> [] ->
     match_here r (after prev a1) (a2 ++ t) (i + length a1) = None) ->
  finditer_from r 0 prev (a ++ t) i =
    finditer_from r 0 (after prev a) t (i + length a).
Proof.
  revert prev i. induction a as [|ch a IH]; intros prev i Hk.
  - by rewrite Nat.add_0_r.
  - assert (H0 : match_here r prev (ch :: a ++ t) i = None).
    { rewrite <- (Nat.add_0_r i). by apply (Hk [] (ch :: a)). }
    cbn [app finditer_from]. rewrite H0.
    rewrite after_cons. simpl length.
    replace (i + S (length a))%nat with (S i + length a)%nat by lia.
    apply IH. intros a1 a2 -> Hne. specialize (Hk (ch :: a1) a2).
    rewrite after_cons in Hk. simpl length in Hk.
    replace (i + S (length a1))%nat with (S i + length a1)%nat in Hk by lia.
    by apply Hk.
Qed.

Lemma finditer_from_skipn r prev a t i :
  finditer_from r (length a) prev (a ++ t) i =
    finditer_from r 0 (after prev a) t (i + length a).
Proof.
  revert prev i. induction a as [|ch a IH]; intros prev i.
  - by rewrite Nat.add_0_r.
  - cbn [app length finditer_from]. rewrite after_cons, IH. f_equal. lia.
Qed.

Lemma finditer_from_hit r prev a t i m :
  a <> [] ->
  match_here r prev (a ++ t) i = Some m -> m_end m = (i + length a)%nat ->
  finditer_from r 0 prev (a ++ t) i =
    m :: finditer_from r 0 (after prev a) t (i + length a).
Proof.
  intros Hne Hm He. destruct a as [|ch a]; [done|].
  cbn [app finditer_from]. cbn [app] in Hm. rewrite Hm. f_equal.
  rewrite He. simpl length.
  replace (i + S (length a) - i - 1)%nat with (length a) by lia.
  rewrite finditer_from_skipn, after_cons. f_equal. lia.
Qed.

(** ** Paragraphs *)

Lemma blank_line_shape x y c :
  Matches blank_line x no_caps y c ->
  exists w, x.2 = LF :: w ++ LF :: y.2 /\ forallb is_space w = true.
Proof.
  unfold blank_line. simpl. intros H. inv_matches.
  repeat match goal with
         | H : cls_nl _ = true |- _ => apply chr_eqb_eq in H; subst
         end.
  by eexists.
Qed.

Lemma space_LF : is_space LF = true.
Proof. reflexivity. Qed.

Lemma forallb_mid {A} (f : A -> bool) (x z : list A) (c : A) :
  forallb f (x ++ c :: z) = true -> f c = true.
Proof.
  rewrite forallb_app. cbn [forallb].
  by intros [_ [H _]%andb_true_iff]%andb_true_iff.
Qed.

(** A run of whitespace that starts inside a text ending with a character
    that is no whitespace ends inside that text. *)
Lemma spaces_end_inside (a tail w rest : pystr) (c : ascii) :
  is_space c = false -> forallb is_space w = true ->
  (a ++ [c]) ++ tail = w ++ rest ->
  exists k, a ++ [c] = w ++ k /\ k <> [] /\ rest = k ++ tail.
Proof.
  intros Hc Hw H.
  apply app_eq_inv in H as [(k & Hk1 & Hk2)|(k & Hk1 & Hk2)].
  - exists k. split; [done|]. split; [|done]. intros ->.
    rewrite app_nil_r in Hk1. subst w.
    apply forallb_mid in Hw. congruence.
  - subst w. rewrite <- app_assoc in Hw. apply forallb_mid in Hw. congruence.
Qed.

Lemma blank_line_inside (p a1 a2 tail : pystr) prev i :
  trimmed p -> no_blank_line p -> p = a1 ++ a2 -> a2 <> [] ->
  match_here blank_line prev (a2 ++ tail) i = None.
Proof.
  intros Ht Hnb -> Hne.
  destruct (match_here blank_line prev (a2 ++ tail) i) as [m|] eqn:E; [|done].
  exfalso. apply match_here_sound in E as (y & HM & _).
  apply blank_line_shape in HM as (w & Hs & Hw). cbn [snd] in Hs.
  destruct a2 as [|c0 a3]; [done|]. injection Hs as -> Hs.
  destruct a3 as [|c a3 _] using rev_ind.
  { destruct Ht as [_ Ht]. pose proof (Ht LF a1 eq_refl) as H.
    by rewrite space_LF in H. }
  assert (Hc : is_space c = false).
  { destruct Ht as [_ Ht]. apply (Ht c (a1 ++ LF :: a3)).
    by rewrite <- app_assoc. }
  destruct (spaces_end_inside _ _ _ _ _ Hc Hw Hs) as (k & Hk & Hkne & Hy).
  destruct k as [|k0 k]; [done|]. injection Hy as <- _.
  rewrite Hk in Hnb. specialize (Hnb a1 w k eq_refl). congruence.
Qed.

Lemma blank_line_at_end prev i : match_here blank_line prev [] i = None.
Proof. reflexivity. Qed.

Lemma blank_line_at_sep (ws r : pystr) (c : ascii) prev i :
  forallb is_space ws = true -> is_space c = false ->
  match_here blank_line prev (LF :: ws ++ LF :: c :: r) i =
    Some (MatchObj i (i + length (LF :: ws ++ [LF])) no_caps).
Proof.
  intros Hws Hc. unfold match_here, blank_line.
  cbn [seq rmatch snd fst]. rewrite (chr_eqb_refl LF : cls_nl LF = true).
  rewrite (star_greedy_app_some is_space _ _ ws _ _
             ((Some LF, c :: r), no_caps) Hws).
  - f_equal. f_equal. cbn [snd length]. rewrite !length_app. cbn [length]. lia.
  - cbn [star_greedy]. rewrite space_LF, Hc.
    assert (Hn : cls_nl c = false).
    { apply chr_eqb_neq. intros ->. by rewrite space_LF in Hc. }
    cbn [rmatch snd]. rewrite Hn.
    by rewrite (chr_eqb_refl LF : cls_nl LF = true).
Qed.

Lemma star_greedy_none_here p k prev s c :
  star_greedy p k prev s c = None -> k (prev, s) c = None.
Proof.
  destruct s as [|d t]; [done|]. cbn [star_greedy].
  destruct (p d); [|done]. by destruct (star_greedy p k (Some d) t c).
Qed.

Lemma star_greedy_backtrack p k prev a t c :
  forallb p a = true ->
  star_greedy p k (after prev a) t c = None ->
  (forall a1 a2, a = a1 ++ a2 -> a1 <> [] -> a2 <> [] ->
     k (after prev a1, a2 ++ t) c = None) ->
  star_greedy p k prev (a ++ t) c = k (prev, a ++ t) c.
Proof.
  revert prev. induction a as [|ch a IH]; intros prev Ha Hdeep Hk.
  - cbn [app]. rewrite after_nil in Hdeep. rewrite Hdeep.
    by rewrite (star_greedy_none_here _ _ _ _ _ Hdeep).
  - cbn [forallb] in Ha. apply andb_true_iff in Ha as [Hc Ha].
    cbn [app star_greedy]. rewrite Hc. rewrite after_cons in Hdeep.
    rewrite IH; [| done | done |].
    + destruct a as [|d a].
      * rewrite after_nil in Hdeep. cbn [app].
        by rewrite (star_greedy_none_here _ _ _ _ _ Hdeep).
      * assert (H0 : k (Some ch, (d :: a) ++ t) c = None)
          by by apply (Hk [ch] (d :: a)).
        by rewrite H0.
    + intros a1 a2 -> H1 H2. specialize (Hk (ch :: a1) a2 eq_refl).
      rewrite after_cons in Hk. by apply Hk.
Qed.

Lemma blank_line_not_lf (c : ascii) (s : pystr) prev i :
  c <> LF -> match_here blank_line prev (c :: s) i = None.
Proof.
  intros Hc. unfold match_here, blank_line. cbn [seq rmatch snd].
  apply chr_eqb_neq in Hc. unfold cls_nl at 1. by rewrite Hc.
Qed.

Lemma blank_line_in_gap (g tail a1 a2 : pystr) prev i :
  ~ In LF g -> g = a1 ++ a2 -> a2 <> [] ->
  match_here blank_line prev (a2 ++ tail) i = None.
Proof.
  intros Hg -> Hne. destruct a2 as [|c a2]; [done|].
  apply blank_line_not_lf. intros Heq. apply Hg, in_or_app. right. by left.
Qed.

Lemma blank_line_at_gap (ws g2 r : pystr) (c : ascii) prev i :
  forallb is_space ws = true -> forallb is_space g2 = true ->
  ~ In LF g2 -> is_space c = false ->
  match_here blank_line prev (LF :: ws ++ LF :: g2 ++ c :: r) i =
    Some (MatchObj i (i + length (LF :: ws ++ [LF])) no_caps).
Proof.
  intros Hws Hg2 Hlf Hc. unfold match_here, blank_line.
  cbn [seq rmatch snd fst]. rewrite (chr_eqb_refl LF : cls_nl LF = true).
  assert (Hn : forall prev' s, match s with [] => True | d :: _ => d <> LF end ->
    rmatch (Chr cls_nl) accept (prev', s) no_caps = None).
  { intros prev' [|d s'] H; [done|]. cbn [rmatch snd]. unfold cls_nl.
    apply chr_eqb_neq in H. by rewrite H. }
  rewrite (star_greedy_app_some is_space _ _ ws _ _
             ((Some LF, g2 ++ c :: r), no_caps) Hws).
  - f_equal. f_equal. cbn [snd length]. rewrite !length_app. cbn [length].
    rewrite !length_app. cbn [length]. lia.
  - change (LF :: g2 ++ c :: r) with ((LF :: g2) ++ c :: r).
    rewrite star_greedy_backtrack.
    + cbn [app rmatch snd].
      by rewrite (chr_eqb_refl LF : cls_nl LF = true).
    + cbn [forallb]. by rewrite space_LF.
    + rewrite star_greedy_stop by done. apply Hn. intros ->.
      by rewrite space_LF in Hc.
    + intros a1 a2 Ha H1 H2. apply Hn.
      destruct a1 as [|d a1]; [done|]. injection Ha as <- ->.
      destruct a2 as [|e a2]; [done|]. intros Heq.
      apply Hlf, in_or_app. right. by left.
Qed.

Lemma finditer_blank_line (p1 g1 ws g2 p2 : pystr) :
  trimmed p1 -> no_blank_line p1 -> trimmed p2 -> no_blank_line p2 ->
  p2 <> [] -> forallb is_space ws = true -> forallb is_space g2 = true ->
  ~ In LF g1 -> ~ In LF g2 ->
  finditer blank_line (p1 ++ g1 ++ LF :: ws ++ LF :: g2 ++ p2) =
    [MatchObj (length (p1 ++ g1))
              (length (p1 ++ g1) + length (LF :: ws ++ [LF])) no_caps].
Proof.
  intros Ht1 Hn1 Ht2 Hn2 Hne Hws Hg2 Hl1 Hl2. unfold finditer.
  rewrite finditer_from_skip.
  2: { intros a1 a2 Hp Ha2. by apply blank_line_inside with p1 a1. }
  rewrite finditer_from_skip.
  2: { intros a1 a2 Hp Ha2. by apply blank_line_in_gap with g1 a1. }
  rewrite <- Nat.add_assoc, <- length_app.
  destruct p2 as [|c r]; [done|].
  assert (Hc : is_space c = false) by (destruct Ht2 as [Ht2 _]; by eapply Ht2).
  replace (LF :: ws ++ LF :: g2 ++ c :: r)
    with ((LF :: ws ++ [LF]) ++ g2 ++ c :: r)
    by (simpl; by rewrite <- app_assoc).
  rewrite (finditer_from_hit _ _ _ _ _
             (MatchObj (0 + length (p1 ++ g1))
                (0 + length (p1 ++ g1) + length (LF :: ws ++ [LF])) no_caps));
    [|done| |reflexivity].
  2: { replace ((LF :: ws ++ [LF]) ++ g2 ++ c :: r)
         with (LF :: ws ++ LF :: g2 ++ c :: r)
         by (simpl; by rewrite <- app_assoc).
       by apply blank_line_at_gap. }
  f_equal. apply finditer_from_nil. intros a t Hp.
  destruct t as [|d t]; [apply blank_line_at_end|].
  apply app_eq_inv in Hp as [(k & Hk1 & Hk2)|(k & Hk1 & Hk2)].
  - rewrite Hk2. destruct k as [|k0 k].
    + cbn [app]. rewrite <- (app_nil_r (c :: r)).
      by apply blank_line_inside with (c :: r) [].
    + apply blank_line_in_gap with g2 a; done.
  - rewrite <- (app_nil_r (d :: t)).
    by apply blank_line_inside with (c :: r) k.
Qed.

Lemma strip_padded (g1 p g2 : pystr) :
  trimmed p -> forallb is_space g1 = true -> forallb is_space g2 = true ->
  strip (g1 ++ p ++ g2) = p.
Proof.
  intros Ht H1 H2. unfold strip. rewrite lstrip_app_spaces by done.
  destruct p as [|c p].
  - cbn [app]. by rewrite lstrip_spaces.
  - cbn [app]. rewrite lstrip_nonspace by (destruct Ht as [Ht _]; by eapply Ht).
    rewrite app_comm_cons, rstrip_app_spaces by done.
    pose proof (strip_of_trimmed _ Ht) as Hs. unfold strip in Hs.
    by rewrite lstrip_nonspace in Hs by (destruct Ht as [Ht _]; by eapply Ht).
Qed.

Lemma paragraphs_two (p1 g1 ws g2 p2 : pystr) :
  trimmed p1 -> no_blank_line p1 -> trimmed p2 -> no_blank_line p2 ->
  p1 <> [] -> p2 <> [] ->
  forallb is_space g1 = true -> forallb is_space ws = true ->
  forallb is_space g2 = true -> ~ In LF g1 -> ~ In LF g2 ->
  paragraphs (p1 ++ g1 ++ LF :: ws ++ LF :: g2 ++ p2) = [p1; p2].
Proof.
  intros Ht1 Hn1 Ht2 Hn2 Hne1 Hne2 Hg1 Hws Hg2 Hl1 Hl2.
  unfold paragraphs, re_split. rewrite finditer_blank_line by done.
  cbn [pieces m_start m_end]. rewrite Nat.sub_0_r, drop_0.
  rewrite app_assoc, take_app_length.
  replace ((p1 ++ g1) ++ LF :: ws ++ LF :: g2 ++ p2)
    with (((p1 ++ g1) ++ LF :: ws ++ [LF]) ++ g2 ++ p2)
    by (rewrite <- !app_assoc; simpl; by rewrite <- !app_assoc).
  rewrite drop_app_length' by (rewrite (length_app (p1 ++ g1)); done).
  pose proof (strip_padded [] p1 g1 Ht1 eq_refl Hg1) as S1.
  pose proof (strip_padded g2 p2 [] Ht2 Hg2 eq_refl) as S2.
  cbn [app] in S1. rewrite app_nil_r in S2.
  cbn [List.filter map]. rewrite S1, S2.
  destruct p1; [done|]. destruct p2; [done|]. cbn [nonempty map].
  by rewrite S1, S2.
Qed.

Lemma trimmed_ends (c d : ascii) (m : pystr) :
  is_space c = false -> is_space d = false -> trimmed (c :: m ++ [d]).
Proof.
  intros Hc Hd. split.
  - by intros c' t [= <- _].
  - intros d' t H. rewrite app_comm_cons in H.
    by apply app_inj_tail in H as [_ <-].
Qed.

Lemma no_lf_no_blank_line (p : pystr) : ~ In LF p -> no_blank_line p.
Proof.
  intros H a ws b ->. exfalso. apply H, in_or_app. right. by left.
Qed.

(** C8: for a text that the format detector does not read as an array and
    whose normalized form has no numbered-question marker line, the blocks
    are the non-empty trimmed pieces between blank-line separators and every
    one of them yields exactly one record, in order; in particular two
    paragraphs around a gap of whitespace that holds two line ends or more
    yield exactly two records. *)
Theorem paragraph_fallback (json_loads : pystr -> exc pyval) (text : pystr) :
  (forall l, try_load_json json_loads text <> Ret (PyList l)) ->
  has_marker (strip (replace_crlf text)) = false ->
  (exists rs, parse_mcqs json_loads text = Ret rs /\
     Forall2 (fun b r => parse_block b = Ret r)
             (paragraphs (strip (replace_crlf text))) rs) /\
  (forall p1 g1 ws g2 p2,
     strip (replace_crlf text) = p1 ++ g1 ++ LF :: ws ++ LF :: g2 ++ p2 ->
     trimmed p1 -> p1 <> [] -> no_blank_line p1 ->
     trimmed p2 -> p2 <> [] -> no_blank_line p2 ->
     forallb is_space (g1 ++ ws ++ g2) = true ->
     ~ In LF g1 -> ~ In LF g2 ->
     exists r1 r2, parse_mcqs json_loads text = Ret [r1; r2] /\
       parse_block p1 = Ret r1 /\ parse_block p2 = Ret r2).
Proof.
  intros Hfree Hm. rewrite parse_mcqs_freeform by done.
  destruct (parse_plain_mcqs_unmarked text Hm) as (rs & Hrs & HF).
  split; [by exists rs|].
  intros p1 g1 ws g2 p2 Ht Ht1 Hne1 Hn1 Ht2 Hne2 Hn2 Hg Hl1 Hl2.
  rewrite !forallb_app in Hg.
  apply andb_true_iff in Hg as [Hg1 [Hws Hg2]%andb_true_iff].
  rewrite Ht, paragraphs_two in HF by done.
  inversion HF as [|? r1 ? rs1 H1 HF1]; subst.
  inversion HF1 as [|? r2 ? rs2 H2 HF2]; subst.
  inversion HF2; subst. by exists r1, r2.
Qed.

Lemma paragraph_fallback_witness :
  exists r1 r2, parse_mcqs refuse_all two_paragraphs = Ret [r1; r2] /\
    parse_block (txt "Which planet is red") = Ret r1 /\
    parse_block (txt "Which planet is blue") = Ret r2.
Proof.
  assert (Hlf : forall s : pystr, forallb (fun c => negb (chr_eqb c LF)) s = true ->
                          ~ In LF s).
  { intros s Hs Hin. rewrite forallb_forall in Hs. apply Hs in Hin.
    by rewrite chr_eqb_refl in Hin. }
  apply (proj2 (paragraph_fallback refuse_all two_paragraphs
                  ltac:(intros l; discriminate) eq_refl))
    with (g1 := []) (ws := []) (g2 := []).
  - reflexivity.
  - by apply (trimmed_ends "W" "d" (txt "hich planet is re")).
  - discriminate.
  - apply no_lf_no_blank_line, Hlf. reflexivity.
  - by apply (trimmed_ends "W" "e" (txt "hich planet is blu")).
  - discriminate.
  - apply no_lf_no_blank_line, Hlf. reflexivity.
  - reflexivity.
  - intros [].
  - intros [].
Defined.

(** ** The text before the first marker line *)

Lemma after_nonempty (p q : option ascii) (u : pystr) :
  u <> [] -> after p u = after q u.
Proof.
  intros H. unfold after. destruct (last u) eqn:E; [done|].
  by apply last_None in E.
Qed.

Lemma after_snoc (p : option ascii) (u : pystr) (c : ascii) :
  after p (u ++ [c]) = Some c.
Proof. unfold after. by rewrite last_snoc. Qed.

Lemma skip_digits_split (t : pystr) :
  exists ds, t = ds ++ skip_digits t /\ forallb is_digit ds = true.
Proof.
  induction t as [|c t (ds & IH & Hds)]; [by exists []|].
  cbn [skip_digits]. destruct (is_digit c) eqn:E; [|by exists []].
  exists (c :: ds). cbn [forallb app]. rewrite E, Hds. split; [by f_equal|done].
Qed.

Lemma is_marker_line_elim (l : pystr) :
  is_marker_line l = true ->
  exists w d ds more,
    l = w ++ d :: ds ++ "."%char :: more /\ forallb is_space w = true /\
    is_digit d = true /\ forallb is_digit ds = true.
Proof.
  unfold is_marker_line. destruct (lstrip_split l) as (w & Hl & Hw).
  destruct (lstrip l) as [|d t]; [done|].
  intros [Hd Ht]%andb_true_iff.
  destruct (skip_digits_split t) as (ds & Ht' & Hds).
  destruct (skip_digits t) as [|c more]; [done|].
  apply chr_eqb_eq in Ht. subst c.
  exists w, d, ds, more. by rewrite Hl, Ht' at 1.
Qed.

Lemma first_line_split (s : pystr) : exists tail, s = first_line s ++ tail.
Proof.
  unfold first_line. induction s as [|c s (tail & IH)]; [by exists []|].
  cbn [lines_lf]. destruct (chr_eqb c LF); [by exists (c :: s)|].
  pose proof (lines_lf_nonempty s).
  destruct (lines_lf s) as [|l ls]; [done|]. cbn [hd] in *.
  exists tail. cbn [app]. by f_equal.
Qed.

Lemma pattern_unfold prev s c :
  rmatch pattern accept (prev, s) c =
    if at_bol (prev, s)
    then star_greedy is_space (rmatch pattern_tail accept) prev s c
    else None.
Proof. reflexivity. Qed.

Lemma pattern_tail_prev prev prev' s c :
  rmatch pattern_tail accept (prev, s) c =
  rmatch pattern_tail accept (prev', s) c.
Proof. by destruct s. Qed.

Lemma star_lazy_any_total k prev s c :
  (forall prev', exists r, k (prev', []) c = Some r) ->
  exists r, star_lazy cls_any k prev s c = Some r.
Proof.
  intros Hend. revert prev. induction s as [|ch s IH]; intros prev.
  - destruct (Hend prev) as (r & Hr). exists r. cbn [star_lazy]. by rewrite Hr.
  - cbn [star_lazy]. destruct (k (prev, ch :: s) c) as [r|]; [by exists r|].
    apply IH.
Qed.

Lemma digit_not_space (d : ascii) : is_digit d = true -> is_space d = false.
Proof.
  destruct d as [[] [] [] [] [] [] [] []]; intros H; vm_compute in H;
    try discriminate H; reflexivity.
Qed.

Lemma pattern_tail_total prev d ds z c :
  is_digit d = true -> forallb is_digit ds = true ->
  exists res,
    rmatch pattern_tail accept (prev, d :: ds ++ "."%char :: z) c = Some res.
Proof.
  intros Hd Hds. unfold pattern_tail. cbn [seq rmatch snd fst]. rewrite Hd.
  destruct (lstrip_split z) as (zs & Hz & Hzs).
  assert (Hlazy : exists res,
    star_lazy cls_any
      (fun y c' =>
         rmatch (Ahead pattern_ahead) accept y
           (set_grp G1 (taken (after (Some "."%char) zs, lstrip z) y) c'))
      (after (Some "."%char) zs) (lstrip z) c = Some res).
  { apply star_lazy_any_total. intros prev'. eexists.
    unfold pattern_ahead, marker. cbn [seq rmatch snd fst star_greedy].
    destruct (at_bol (prev', [])); reflexivity. }
  destruct Hlazy as (res & Hres). exists res.
  apply star_greedy_app_some; [done|].
  rewrite star_greedy_stop by done. cbn [rmatch snd fst].
  rewrite (chr_eqb_refl "."%char : cls_period "." = true).
  rewrite Hz at 1. apply star_greedy_app_some; [done|].
  rewrite star_greedy_stop; [exact Hres|].
  destruct (lstrip z) as [|e t] eqn:E; [done|]. by apply lstrip_head in E.
Qed.

(** The match of [pattern] at a line start from which a marker follows. *)
Lemma pattern_at_marker prev w d ds z :
  at_bol (prev, w ++ d :: ds ++ "."%char :: z) = true ->
  forallb is_space w = true -> is_digit d = true ->
  forallb is_digit ds = true ->
  exists res,
    rmatch pattern_tail accept (None, d :: ds ++ "."%char :: z) no_caps
      = Some res /\
    rmatch pattern accept (prev, w ++ d :: ds ++ "."%char :: z) no_caps
      = Some res.
Proof.
  intros Hbol Hw Hd Hds.
  destruct (pattern_tail_total None d ds z no_caps Hd Hds) as (res & Hres).
  exists res. split; [done|]. rewrite pattern_unfold, Hbol.
  apply star_greedy_app_some; [done|].
  rewrite star_greedy_stop by by apply digit_not_space.
  by rewrite (pattern_tail_prev _ None).
Qed.

Lemma finditer_caps_shift r skip prev s i j :
  map m_caps (finditer_from r skip prev s i) =
  map m_caps (finditer_from r skip prev s j).
Proof.
  revert skip prev i j. induction s as [|ch s IH]; intros skip prev i j.
  - destruct skip; [|done]. cbn [finditer_from]. unfold match_here.
    by destruct (rmatch r accept (prev, []) no_caps) as [[y c]|].
  - destruct skip; cbn [finditer_from]; [|apply IH]. unfold match_here.
    destruct (rmatch r accept (prev, ch :: s) no_caps) as [[y c]|];
      [|apply IH].
    cbn [map m_caps m_end]. f_equal.
    replace (i + (length (ch :: s) - length y.2) - i - 1)%nat
      with (j + (length (ch :: s) - length y.2) - j - 1)%nat by lia.
    apply IH.
Qed.

Section Prefix.

Variables (w ds z : pystr) (d : ascii).
Hypothesis Hw : forallb is_space w = true.
Hypothesis Hd : is_digit d = true.
Hypothesis Hds : forallb is_digit ds = true.

(** The text from the first marker line on. *)
Let rest : pystr := w ++ d :: ds ++ "."%char :: z.

Lemma marker_inside (a1 ws' ds' k' tail' : pystr) (d' : ascii) (p : pystr) :
  a1 ++ ws' ++ d' :: k' = p ++ [LF] ->
  ds' ++ "."%char :: tail' = k' ++ rest ->
  is_digit d' = true -> forallb is_digit ds' = true ->
  exists j, k' = ds' ++ "."%char :: j.
Proof.
  intros Hpre Hk Hd' Hds'.
  assert (Hlast : exists k'', k' = k'' ++ [LF]).
  { destruct k' as [|e k' _] using rev_ind.
    - rewrite !app_assoc in Hpre. apply app_inj_tail in Hpre as [_ ->].
      by vm_compute in Hd'.
    - rewrite app_comm_cons, !app_assoc in Hpre.
      apply app_inj_tail in Hpre as [_ ->]. by exists k'. }
  destruct Hlast as (k'' & ->).
  replace (ds' ++ "."%char :: tail') with ((ds' ++ ["."%char]) ++ tail') in Hk
    by by rewrite <- app_assoc.
  apply app_eq_inv in Hk as [(j & Hj & _)|(j & Hj & _)].
  - exfalso.
    assert (Hin : In LF (ds' ++ ["."%char])).
    { rewrite Hj. apply in_or_app. left. apply in_or_app. right. by left. }
    apply in_app_or in Hin as [Hin|Hin].
    + rewrite forallb_forall in Hds'. apply Hds' in Hin. by vm_compute in Hin.
    + simpl in Hin. by destruct Hin.
  - exists j. by rewrite Hj, <- app_assoc.
Qed.

Lemma pattern_inside_prefix (pre a1 a2 : pystr) (i : nat) :
  (exists p, pre = p ++ [LF]) -> has_marker pre = false ->
  pre = a1 ++ a2 ->
  match_here pattern (after None a1) (a2 ++ rest) i = None \/
  (forallb is_space a2 = true /\ at_bol (after None a1, a2 ++ rest) = true).
Proof.
  intros (p & Hp) Hm Hpre.
  destruct (match_here pattern (after None a1) (a2 ++ rest) i) as [m|] eqn:E;
    [right|by left].
  apply match_here_sound in E as (y & HM & _).
  apply pattern_shape in HM
    as (Hbol & ws' & d' & ds' & ws2 & body & Hs & Hws' & Hd' & Hds' & _).
  split; [|done]. cbn [snd] in Hs.
  apply app_eq_inv in Hs as [(k & Hk1 & Hk2)|(k & Hk1 & Hk2)].
  - destruct k as [|k0 k']; [by rewrite Hk1, app_nil_r|]. exfalso.
    injection Hk2 as <- Hk2.
    destruct (marker_inside a1 ws' ds' k' (ws2 ++ body ++ y.2) d' p)
      as (j & ->); [by rewrite <- Hp, Hpre, Hk1|done|done|done|].
    rewrite Hpre, Hk1 in Hm. rewrite marker_found in Hm; done.
  - rewrite Hk1 in Hws'. rewrite forallb_app in Hws'.
    by apply andb_true_iff in Hws' as [? _].
Qed.

Lemma finditer_pattern_prefix :
  exists y c u,
    rest = u ++ y /\ u <> [] /\
    forall pre,
      (pre = [] \/ exists p, pre = p ++ [LF]) -> has_marker pre = false ->
      forall a2 a1 i, pre = a1 ++ a2 ->
        map m_caps (finditer_from pattern 0 (after None a1) (a2 ++ rest) i) =
        c :: map m_caps (finditer_from pattern 0 (after (Some LF) u) y 0).
Proof.
  destruct (pattern_at_marker None w d ds z eq_refl Hw Hd Hds)
    as ([y c] & Htail & Hres).
  assert (Hany : forall prev a, forallb is_space a = true ->
    at_bol (prev, a ++ rest) = true ->
    rmatch pattern accept (prev, a ++ rest) no_caps = Some (y, c)).
  { intros prev a Ha Hbol. unfold rest in *. rewrite app_assoc in *.
    destruct (pattern_at_marker prev (a ++ w) d ds z Hbol) as (res & H1 & H2);
      [by rewrite forallb_app, Ha, Hw|done|done|].
    rewrite H2. rewrite Htail in H1. by injection H1 as <-. }
  destruct (rmatch_sound _ _ _ _ _ Hres) as (y' & c' & HM & [= -> ->]).
  apply pattern_shape in HM
    as (_ & ws' & d' & ds' & ws2 & body & Hs & _ & _ & _ & _ & _).
  cbn [snd] in Hs. destruct y as [py y]. cbn [snd] in Hs.
  set (u := ws' ++ d' :: ds' ++ "."%char :: ws2 ++ body).
  assert (Hu : rest = u ++ y).
  { unfold u, rest. rewrite Hs. rewrite <- !app_assoc. cbn [app].
    rewrite <- !app_assoc. cbn [app]. by rewrite <- !app_assoc. }
  assert (Hune : u <> []) by (unfold u; by destruct ws').
  exists y, c, u. split; [done|]. split; [done|].
  assert (Hhit : forall prev a i, forallb is_space a = true ->
    at_bol (prev, a ++ rest) = true ->
    map m_caps (finditer_from pattern 0 prev (a ++ rest) i) =
    c :: map m_caps (finditer_from pattern 0 (after (Some LF) u) y 0)).
  { intros prev a i Ha Hbol. rewrite Hu, app_assoc.
    rewrite (finditer_from_hit _ _ _ _ _
               (MatchObj i (i + length (a ++ u)) c)).
    - cbn [map m_caps]. f_equal.
      rewrite (finditer_caps_shift _ _ _ _ _ 0). f_equal. f_equal.
      rewrite after_app. by apply after_nonempty.
    - by destruct a.
    - unfold match_here. rewrite <- app_assoc, <- Hu, (Hany prev a Ha Hbol).
      f_equal. f_equal. cbn [snd]. rewrite Hu, !length_app. lia.
    - reflexivity. }
  intros pre Hend Hm.
  induction a2 as [|ch a2 IH]; intros a1 i Hpre.
  - rewrite app_nil_r in Hpre. subst a1. apply (Hhit _ []); [done|].
    destruct Hend as [->|(p & ->)]; [done|].
    unfold at_bol. cbn [fst]. rewrite after_snoc. apply chr_eqb_refl.
  - destruct (pattern_inside_prefix pre a1 (ch :: a2) i) as [Hnone|[Hsp Hbol]];
      [|done|done| |].
    + destruct Hend as [->|Hp]; [by destruct a1|done].
    + cbn [app finditer_from]. cbn [app] in Hnone. rewrite Hnone.
      rewrite <- (after_snoc (after None a1) [] ch). cbn [app].
      rewrite <- after_app. apply IH. by rewrite <- app_assoc.
    + by apply Hhit.
Qed.

End Prefix.

Lemma findall_caps r s :
  findall r s =
    map (fun c => default [] (grp1 c)) (map m_caps (finditer r s)).
Proof. unfold findall. by rewrite map_map. Qed.

(** C10: when the normalized text is [pre ++ rest], where [rest] starts at
    the first marker line and [pre], empty or ended by a line end, has no
    marker line, the blocks are those of [rest] alone: no character of
    [pre] reaches a block, hence a record. *)
Theorem prefix_discarded
    (json_loads : pystr -> exc pyval) (text pre rest : pystr) :
  (forall l, try_load_json json_loads text <> Ret (PyList l)) ->
  strip (replace_crlf text) = pre ++ rest ->
  (pre = [] \/ exists p, pre = p ++ [LF]) ->
  has_marker pre = false ->
  is_marker_line (first_line rest) = true ->
  blocks_of (pre ++ rest) = blocks_of rest /\
  blocks_of rest = findall pattern rest /\
  findall pattern rest <> [] /\
  parse_mcqs json_loads text = for_each (blocks_of rest) parse_step [].
Proof.
  intros Hfree Ht Hend Hm Hfirst.
  destruct (first_line_split rest) as (tail & Hrest).
  destruct (is_marker_line_elim _ Hfirst)
    as (w & d & ds & more & Hl & Hw & Hd & Hds).
  rewrite Hl in Hrest. rewrite <- !app_assoc in Hrest. cbn [app] in Hrest.
  rewrite <- !app_assoc in Hrest. cbn [app] in Hrest.
  destruct (finditer_pattern_prefix w ds (more ++ tail) d Hw Hd Hds)
    as (y & c & u & Hu & Hune & Hscan).
  rewrite <- Hrest in Hscan.
  assert (H1 : findall pattern (pre ++ rest) =
               default [] (grp1 c) ::
               map (fun c => default [] (grp1 c))
                   (map m_caps (finditer_from pattern 0 (after (Some LF) u) y 0))).
  { rewrite findall_caps. unfold finditer.
    pose proof (Hscan pre Hend Hm pre [] 0%nat eq_refl) as H.
    rewrite after_nil in H. by rewrite H. }
  assert (H2 : findall pattern rest =
               default [] (grp1 c) ::
               map (fun c => default [] (grp1 c))
                   (map m_caps (finditer_from pattern 0 (after (Some LF) u) y 0))).
  { rewrite findall_caps. unfold finditer.
    pose proof (Hscan [] (or_introl eq_refl) eq_refl [] [] 0%nat eq_refl) as H.
    rewrite after_nil in H. cbn [app] in H. by rewrite H. }
  assert (Hb : blocks_of (pre ++ rest) = blocks_of rest)
    by (unfold blocks_of; by rewrite H1, H2).
  split; [done|]. split; [unfold blocks_of; by rewrite H2|].
  split; [by rewrite H2|].
  rewrite parse_mcqs_freeform by done. unfold parse_plain_mcqs.
  rewrite Ht. rewrite Hb.
  destruct (pre ++ rest) as [|? ?] eqn:E; [|done].
  apply app_eq_nil in E as [_ ->]. by destruct w.
Qed.

Lemma prefix_discarded_witness :
  blocks_of (preamble ++ numbered) = blocks_of numbered /\
  blocks_of numbered = findall pattern numbered /\
  findall pattern numbered <> [] /\
  parse_mcqs refuse_all (preamble ++ numbered) =
    for_each (blocks_of numbered) parse_step [].
Proof.
  apply (prefix_discarded refuse_all (preamble ++ numbered) preamble numbered).
  - intros l. discriminate.
  - reflexivity.
  - right. by eexists.
  - reflexivity.
  - reflexivity.
Defined.

(** ** Attempts that cannot succeed *)

Lemma dead_nil k c prev t : dead k c prev [] t.
Proof. intros a1 a2 H Hne. by destruct a1, a2. Qed.

Lemma dead_cons k c prev ch a t :
  k (prev, ch :: a ++ t) c = None -> dead k c (Some ch) a t ->
  dead k c prev (ch :: a) t.
Proof.
  intros H0 H a1 a2 Ha Hne. destruct a1 as [|d a1].
  - cbn [app] in Ha. subst a2. by rewrite after_nil.
  - injection Ha as <- ->. rewrite after_cons. by apply H.
Qed.

Lemma dead_app k c prev a b t :
  dead k c prev a (b ++ t) -> dead k c (after prev a) b t ->
  dead k c prev (a ++ b) t.
Proof.
  revert prev. induction a as [|ch a IH]; intros prev Ha Hb; [done|].
  cbn [app]. apply dead_cons.
  - rewrite <- app_assoc. by apply (Ha [] (ch :: a)).
  - apply IH.
    + intros a1 a2 -> Hne. specialize (Ha (ch :: a1) a2 eq_refl Hne).
      by rewrite after_cons in Ha.
    + by rewrite after_cons in Hb.
Qed.

Lemma match_here_none r prev s i :
  rmatch r accept (prev, s) no_caps = None -> match_here r prev s i = None.
Proof. unfold match_here. by intros ->. Qed.

Lemma search_from_dead r prev a t i :
  dead (rmatch r accept) no_caps prev a t ->
  search_from r prev (a ++ t) i =
    search_from r (after prev a) t (i + length a).
Proof.
  intros H. apply search_from_skip. intros a1 a2 Ha Hne.
  apply match_here_none. by apply H.
Qed.

Lemma finditer_from_dead r prev a t i :
  dead (rmatch r accept) no_caps prev a t ->
  finditer_from r 0 prev (a ++ t) i =
    finditer_from r 0 (after prev a) t (i + length a).
Proof.
  intros H. apply finditer_from_skip. intros a1 a2 Ha Hne.
  apply match_here_none. by apply H.
Qed.

Lemma star_lazy_dead p k prev a t c :
  forallb p a = true -> dead k c prev a t ->
  star_lazy p k prev (a ++ t) c = star_lazy p k (after prev a) t c.
Proof. intros Ha H. by apply star_lazy_skip. Qed.

(** A run of characters, none of them a line end, that a pattern can only
    leave through a line end. *)
Lemma dead_no_lf k c prev a t :
  (forall p ch s, ch <> LF -> k (p, ch :: s) c = None) ->
  ~ In LF a -> dead k c prev a t.
Proof.
  intros Hk Ha a1 a2 -> Hne. destruct a2 as [|ch a2]; [done|].
  cbn [app]. apply Hk. intros ->. apply Ha, in_or_app. right. by left.
Qed.

Lemma after_not_lf prev a :
  a <> [] -> ~ In LF a -> at_bol (after prev a, @nil ascii) = false.
Proof.
  intros Hne Ha. unfold at_bol, after. cbn [fst].
  destruct (last a) as [ch|] eqn:E; [|by apply last_None in E].
  apply chr_eqb_neq. intros ->. apply Ha.
  apply last_Some in E as (a' & ->). apply in_or_app. right. by left.
Qed.

Lemma at_bol_text prev s s' : at_bol (prev, s) = at_bol (prev, s').
Proof. reflexivity. Qed.

(** A line that a pattern anchored at line starts does not match. *)
Lemma dead_line k c prev l t :
  (forall p s, at_bol (p, s) = false -> k (p, s) c = None) ->
  ~ In LF l -> k (prev, l ++ LF :: t) c = None ->
  dead k c prev (l ++ [LF]) t.
Proof.
  intros Hk Hl H0 a1 a2 Ha Hne. destruct a1 as [|d a1].
  - cbn [app] in Ha. subst a2. rewrite after_nil, <- app_assoc. exact H0.
  - apply Hk. rewrite (at_bol_text _ _ []).
    (* the attempt starts after a character of the line *)
    destruct a2 as [|e a2 _] using rev_ind; [done|].
    rewrite app_assoc in Ha. apply app_inj_tail in Ha as [Ha _].
    apply after_not_lf; [done|]. intros Hin. apply Hl. rewrite Ha.
    apply in_or_app. by left.
Qed.

(** ** Words, letters and plain texts *)

Lemma word_ci_run (w : pystr) k prev s c :
  w <> [] ->
  rmatch (seq (map (fun a => Chr (cls_ci a)) w)) k (prev, s) c =
    if starts_ci w s
    then k (after prev (take (length w) s), drop (length w) s) c
    else None.
Proof.
  intros Hw. revert prev s.
  induction w as [|a w IH]; intros prev s; [done|].
  destruct w as [|b w].
  - cbn [map seq rmatch starts_ci snd length].
    destruct s as [|ch t]; [done|]. rewrite andb_true_r.
    by destruct (cls_ci a ch).
  - change (seq (map (fun a => Chr (cls_ci a)) (a :: b :: w)))
      with (Cat (Chr (cls_ci a)) (seq (map (fun a => Chr (cls_ci a)) (b :: w)))).
    cbn [rmatch snd]. destruct s as [|ch t]; [done|].
    change (starts_ci (a :: b :: w) (ch :: t))
      with (cls_ci a ch && starts_ci (b :: w) t).
    destruct (cls_ci a ch); [|done]. cbn [andb].
    rewrite IH by done. cbn [length take drop].
    destruct (starts_ci (b :: w) t); [|done]. by rewrite after_cons.
Qed.

Lemma starts_ci_line (w q rest : pystr) :
  starts_ci w q = false ->
  forallb (fun a => negb (cls_ci a LF)) w = true ->
  starts_ci w (q ++ LF :: rest) = false.
Proof.
  revert q. induction w as [|a w IH]; intros q; [done|].
  cbn [starts_ci forallb]. intros Hq [Ha Hw]%andb_true_iff.
  destruct q as [|c q]; cbn [app].
  - apply negb_true_iff in Ha. by rewrite Ha.
  - destruct (cls_ci a c); [|done]. cbn [andb] in *. by apply IH.
Qed.

Lemma abcd_not_space (l : ascii) : cls_abcd l = true -> is_space l = false.
Proof.
  destruct l as [[] [] [] [] [] [] [] []]; intros H; vm_compute in H;
    try discriminate H; reflexivity.
Qed.

Lemma abcd_not_sep (l : ascii) : cls_abcd l = true -> cls_sep l = false.
Proof.
  destruct l as [[] [] [] [] [] [] [] []]; intros H; vm_compute in H;
    try discriminate H; reflexivity.
Qed.

Lemma lower_label (l : ascii) :
  in_range 97 100 l = true -> lower_char l = l /\ cls_abcd l = true.
Proof.
  destruct l as [[] [] [] [] [] [] [] []]; intros H; vm_compute in H;
    try discriminate H; by vm_compute.
Qed.

Lemma not_space_not_nl_cr (c : ascii) :
  is_space c = false -> cls_nl_cr c = false.
Proof.
  destruct c as [[] [] [] [] [] [] [] []]; intros H; vm_compute in H;
    try discriminate H; reflexivity.
Qed.

Lemma plain_head (s : pystr) :
  plain s -> exists c s', s = c :: s' /\ is_space c = false.
Proof.
  intros (Hne & [Hh _] & _). destruct s as [|c s']; [done|].
  exists c, s'. split; [done|]. by eapply Hh.
Qed.

Lemma plain_last (s : pystr) :
  plain s -> exists s' d, s = s' ++ [d] /\ is_space d = false.
Proof.
  intros (Hne & [_ Hl] & _). destruct s as [|d s' _] using rev_ind; [done|].
  exists s', d. split; [done|]. by eapply Hl.
Qed.

Lemma plain_no_lf (s : pystr) : plain s -> ~ In LF s.
Proof. by intros (_ & _ & H & _). Qed.

Lemma plain_no_cr (s : pystr) : plain s -> ~ In CR s.
Proof. by intros (_ & _ & _ & H). Qed.

Lemma plain_strip (s : pystr) : plain s -> strip s = s.
Proof. intros (_ & H & _). by apply strip_of_trimmed. Qed.

Lemma plain_dot (s : pystr) : plain s -> forallb cls_dot s = true.
Proof.
  intros H. apply forallb_forall. intros c Hc. unfold cls_dot.
  apply negb_true_iff, chr_eqb_neq. intros ->. by apply (plain_no_lf s).
Qed.

Lemma forallb_any (s : pystr) : forallb cls_any s = true.
Proof. by induction s. Qed.

Lemma star_greedy_accept p prev s c :
  exists y, star_greedy p accept prev s c = Some (y, c).
Proof.
  revert prev. induction s as [|ch s IH]; intros prev; [by eexists|].
  cbn [star_greedy]. destruct (p ch); [|by eexists].
  destruct (IH (Some ch)) as (y & ->). by eexists.
Qed.

Lemma replace_crlf_no_cr (s : pystr) : ~ In CR s -> replace_crlf s = s.
Proof.
  induction s as [s IH] using (induction_ltof1 _ (@length _)).
  unfold ltof in IH. destruct s as [|c [|d t]]; [done|done|].
  intros H. rewrite replace_crlf_cons2.
  assert (Hc : chr_eqb c CR = false).
  { apply chr_eqb_neq. intros ->. apply H. by left. }
  rewrite Hc. cbn [andb]. f_equal. apply IH; [simpl; lia|].
  intros Hin. apply H. by right.
Qed.

(** * Further properties of the parser *)

(** ** One record for each block *)

Lemma for_each_parse_step_all (bs : list pystr) (acc : list mcq) :
  exists rs, for_each bs parse_step acc = Ret (acc ++ rs) /\
    Forall2 (fun b r => parse_block b = Ret r)
            (List.filter nonempty (map strip bs)) rs.
Proof.
  revert acc. induction bs as [|b bs IH]; intros acc.
  - exists []. rewrite app_nil_r. split; [done|constructor].
  - cbn [for_each map List.filter]. unfold parse_step at 1.
    destruct (strip b) as [|c s] eqn:E; cbn [nonempty negb].
    + cbn [bind]. apply IH.
    + destruct (parse_block_ok (c :: s)) as (r & Hr & _); [done|].
      rewrite Hr. cbn [bind].
      destruct (IH (acc ++ [r])) as (rs & -> & HF).
      exists (r :: rs). split; [by rewrite <- app_assoc|by constructor].
Qed.

Lemma parse_plain_mcqs_blocks (text : pystr) :
  exists rs, parse_plain_mcqs text = Ret rs /\
    Forall2 (fun b r => parse_block b = Ret r)
            (live_blocks (strip (replace_crlf text))) rs.
Proof.
  unfold parse_plain_mcqs, live_blocks.
  destruct (strip (replace_crlf text)) as [|c t] eqn:E.
  - exists []. split; [done|].
    replace (List.filter nonempty (map strip (blocks_of [])))
      with (@nil pystr) by (vm_compute; reflexivity).
    constructor.
  - cbn [nonempty negb].
    destruct (for_each_parse_step_all (blocks_of (c :: t)) [])
      as (rs & Hrs & HF).
    by exists rs.
Qed.

(** X1: the freeform parser returns exactly one record for each block that
    is not blank, in the order of the blocks, whatever the block holds, and
    none for a blank block. *)
Theorem one_record_per_block (text : pystr) :
  exists rs, parse_plain_mcqs text = Ret rs /\
    length rs = length (live_blocks (strip (replace_crlf text))) /\
    Forall2 (fun b r => parse_block b = Ret r)
            (live_blocks (strip (replace_crlf text))) rs.
Proof.
  destruct (parse_plain_mcqs_blocks text) as (rs & Hrs & HF).
  exists rs. split; [done|]. split; [|done].
  symmetry. by eapply Forall2_length.
Qed.

Lemma live_blocks_ready (text : pystr) :
  Forall (fun b => trimmed b /\ b <> []) (live_blocks text).
Proof.
  unfold live_blocks. apply Forall_forall. intros b Hb.
  apply list_elem_of_In, filter_In in Hb as [Hb Hne].
  apply in_map_iff in Hb as (p & <- & _).
  split; [apply strip_trimmed|]. by destruct (strip p).
Qed.

(** What holds of the record of every block holds of every record. *)
Lemma parse_plain_mcqs_all (P : mcq -> Prop) (text : pystr) :
  (forall b r, trimmed b -> b <> [] -> parse_block b = Ret r -> P r) ->
  exists rs, parse_plain_mcqs text = Ret rs /\ Forall P rs.
Proof.
  intros HP. destruct (parse_plain_mcqs_blocks text) as (rs & Hrs & HF).
  exists rs. split; [done|].
  pose proof (live_blocks_ready (strip (replace_crlf text))) as Hl.
  clear Hrs. induction HF as [|b r bs rs' Hbr HF IH]; [constructor|].
  inversion Hl as [|? ? [Ht Hne] Hl']; subst.
  constructor; [by eapply HP|by apply IH].
Qed.

(** ** The options of a block *)

Lemma for_each_inv {A S} (body : S -> A -> exc S) (P : A -> Prop)
    (Inv : S -> Prop) (l : list A) (s : S) :
  (forall s x, P x -> Inv s -> exists s', body s x = Ret s' /\ Inv s') ->
  Forall P l -> Inv s ->
  exists s', for_each l body s = Ret s' /\ Inv s'.
Proof.
  intros Hbody HP. revert s. induction HP as [|x l Hx HP IH]; intros s Hs.
  - by exists s.
  - cbn [for_each]. destruct (Hbody s x Hx Hs) as (s1 & -> & Hs1).
    cbn [bind]. by apply IH.
Qed.

Lemma label_range (l : ascii) :
  cls_abcd l = true -> in_range 97 100 (lower_char l) = true.
Proof.
  destruct l as [[] [] [] [] [] [] [] []]; intros H; vm_compute in H;
    try discriminate H; reflexivity.
Qed.

Lemma slot_of_range (l : ascii) :
  in_range 97 100 l = true ->
  (slot_of l < 4)%nat /\ code l - ord_a = Z.of_nat (slot_of l).
Proof.
  destruct l as [[] [] [] [] [] [] [] []]; intros H; vm_compute in H;
    try discriminate H; vm_compute; split; first [lia|reflexivity].
Qed.

Lemma code_inj (l l' : ascii) : code l = code l' -> l = l'.
Proof.
  unfold code. intros H. apply Nat2Z.inj_iff || idtac.
  apply N2Z.inj in H. rewrite <- (ascii_N_embedding l), <- (ascii_N_embedding l').
  by rewrite H.
Qed.

Lemma slot_of_inj (l l' : ascii) :
  in_range 97 100 l = true -> in_range 97 100 l' = true ->
  slot_of l = slot_of l' -> l = l'.
Proof.
  intros H H' E. destruct (slot_of_range l H) as [_ Hl].
  destruct (slot_of_range l' H') as [_ Hl'].
  apply code_inj. rewrite E in Hl. lia.
Qed.

Lemma store_option_insert (ol : list pystr) (l : ascii) (c : pystr) :
  in_range 97 100 l = true -> length ol = 4%nat ->
  store_option ol ([l], c) = Ret (<[slot_of l := c]> ol).
Proof.
  intros Hl Hlen. unfold store_option. cbn [fst snd ord bind].
  destruct (slot_of_range l Hl) as [Hlt Heq].
  destruct (Z.leb_spec 0 (code l - ord_a)); [|lia].
  destruct (Z.ltb_spec (code l - ord_a) 4); [|lia]. cbn [andb].
  rewrite setitem_ok by lia. by rewrite Heq, Nat2Z.id.
Qed.

(** The label of a pair of [opts] is a lowercase letter a-d. *)
Lemma labelled_pair_range (oc : pystr * pystr) :
  labelled_pair oc -> exists l, oc.1 = [l] /\ in_range 97 100 l = true.
Proof.
  intros (x & Hx & Hc). exists (lower_char x). split; [done|].
  by apply label_range.
Qed.

Lemma store_options_slots (opts : list (pystr * pystr)) (ol0 : list pystr) :
  Forall labelled_pair opts -> length ol0 = 4%nat ->
  exists ol, for_each opts store_option ol0 = Ret ol /\ length ol = 4%nat /\
    (forall pre l c post, opts = pre ++ ([l], c) :: post ->
       Forall (fun oc => oc.1 <> [l]) post -> ol !! slot_of l = Some c) /\
    (forall l, in_range 97 100 l = true ->
       Forall (fun oc => oc.1 <> [l]) opts ->
       ol !! slot_of l = ol0 !! slot_of l).
Proof.
  intros HF. revert ol0. induction HF as [|oc opts Hoc HF IH]; intros ol0 Hlen.
  - exists ol0. split; [done|]. split; [done|]. split; [|done].
    intros pre l c post H. by destruct pre.
  - destruct (labelled_pair_range oc Hoc) as (l0 & Hl0 & Hr0).
    destruct oc as [lab c0]. cbn [fst] in Hl0. subst lab.
    cbn [for_each]. rewrite store_option_insert by done. cbn [bind].
    destruct (IH (<[slot_of l0 := c0]> ol0)) as (ol & Hol & Hlen' & H1 & H2);
      [by rewrite length_insert|].
    exists ol. split; [done|]. split; [done|]. split.
    + intros pre l c post Hsplit Hpost. destruct pre as [|p pre].
      * injection Hsplit as <- <- <-.
        rewrite (H2 l0 Hr0 Hpost). apply list_lookup_insert_eq.
        destruct (slot_of_range l0 Hr0). lia.
      * injection Hsplit as <- ->. by apply (H1 pre l c post).
    + intros l Hl Hall. inversion Hall as [|? ? Hne Hall']; subst.
      rewrite (H2 l Hl Hall'). apply list_lookup_insert_ne.
      intros E. apply Hne. cbn [fst]. f_equal. by apply slot_of_inj.
Qed.

(** X2: when a block has several option markers with one label, the text of
    the last one is what its slot holds after the loop over the options; a
    label without marker leaves its slot empty. *)
Theorem later_option_overwrites (block : pystr) :
  exists opts ol,
    get_opts block = Ret opts /\ fill_options opts = Ret ol /\
    length ol = 4%nat /\
    (forall pre l c post, opts = pre ++ ([l], c) :: post ->
       Forall (fun oc => oc.1 <> [l]) post -> ol !! slot_of l = Some c) /\
    (forall l, in_range 97 100 l = true ->
       Forall (fun oc => oc.1 <> [l]) opts -> ol !! slot_of l = Some []).
Proof.
  destruct (get_opts_ok block) as (opts & Hopts & HF).
  destruct (store_options_slots opts [[]; []; []; []] HF eq_refl)
    as (ol & Hol & Hlen & H1 & H2).
  exists opts, ol. split; [done|]. split; [done|]. split; [done|].
  split; [done|]. intros l Hl Hall. rewrite (H2 l Hl Hall).
  destruct (slot_of_range l Hl) as [Hlt _].
  by destruct (slot_of l) as [|[|[|[|n]]]]; [| | | |lia].
Qed.

(** ** The fields of a freeform record *)

Lemma strip_infix (s : pystr) : exists a b, s = a ++ strip s ++ b.
Proof.
  unfold strip. destruct (lstrip_split s) as (a & Ha & _).
  destruct (rstrip_split (lstrip s)) as (b & Hb & _).
  exists a, b. by rewrite <- Hb.
Qed.

Lemma strip_in (s : pystr) (c : ascii) : In c (strip s) -> In c s.
Proof.
  intros H. destruct (strip_infix s) as (a & b & Hs). rewrite Hs.
  apply in_or_app. right. apply in_or_app. by left.
Qed.

Lemma explanation_pattern_shape x y c :
  Matches explanation_pattern x no_caps y c ->
  exists body, c = Caps (Some body) None /\ forallb cls_dot body = true.
Proof.
  unfold explanation_pattern, word_ci. simpl. intros H. inv_matches.
  all: rewrite ?taken_app, ?taken_cons; simpl; eauto.
Qed.

Lemma get_explanation_text_line (block : pystr) :
  exists e, get_explanation_text block = Ret e /\ trimmed e /\ ~ In LF e.
Proof.
  unfold get_explanation_text.
  destruct (re_search explanation_pattern block) as [m|] eqn:E.
  - apply search_from_sound in E as (a & t & _ & Hm).
    apply match_here_sound in Hm as (y & HM & _).
    apply explanation_pattern_shape in HM as (body & Hc & Hdot).
    unfold group_str, group. rewrite Hc. cbn [get_grp grp1 bind].
    eexists. split; [reflexivity|]. split; [apply strip_trimmed|].
    intros Hin%strip_in. rewrite forallb_forall in Hdot.
    apply Hdot in Hin. unfold cls_dot in Hin. by rewrite chr_eqb_refl in Hin.
  - exists []. split; [done|]. split; [apply trimmed_nil|]. by intros [].
Qed.

Lemma get_opts_trimmed (block : pystr) :
  exists opts, get_opts block = Ret opts /\
    Forall (fun oc => labelled_pair oc /\ trimmed oc.2) opts.
Proof.
  unfold get_opts. generalize (finditer_opt_groups block).
  generalize (finditer opt_pattern block) as ms.
  induction ms as [|m ms IH]; intros H; cbn [map_exc].
  - by exists [].
  - destruct (H m) as (l & body & Hc & Hl); [by left|].
    destruct IH as (opts & -> & HF); [intros; apply H; by right|].
    unfold group_str, group. rewrite Hc. simpl.
    eexists. split; [reflexivity|]. constructor; [|done].
    split; [by exists l|apply strip_trimmed].
Qed.

Lemma store_option_trimmed (ol : list pystr) (oc : pystr * pystr) :
  labelled_pair oc /\ trimmed oc.2 ->
  length ol = 4%nat /\ Forall trimmed ol ->
  exists ol', store_option ol oc = Ret ol' /\
              length ol' = 4%nat /\ Forall trimmed ol'.
Proof.
  intros [Hl Ht] [Hlen Hol].
  destruct (labelled_pair_range oc Hl) as (l & Hlab & Hr).
  destruct oc as [lab c]. cbn [fst snd] in *. subst lab.
  rewrite store_option_insert by done. eexists. split; [reflexivity|].
  split; [by rewrite length_insert|]. by apply Forall_insert.
Qed.

Lemma store_line_trimmed (ol : list pystr) (ln : pystr) :
  length ol = 4%nat /\ Forall trimmed ol ->
  exists ol', store_line ol ln = Ret ol' /\
              length ol' = 4%nat /\ Forall trimmed ol'.
Proof.
  intros [Hlen Hol]. unfold store_line, re_match.
  destruct (match_here line_pattern None ln 0) as [m|] eqn:E; [|by exists ol].
  apply match_here_sound in E as (y & HM & _).
  apply line_pattern_shape in HM
    as (l & p & ws & body & _ & _ & Hl & _ & _ & _ & Hc).
  unfold group_str, group. rewrite Hc. simpl.
  pose proof (label_index l Hl) as Hi.
  destruct (Z.leb_spec 0 (code (lower_char l) - ord_a)); [|lia].
  destruct (Z.ltb_spec (code (lower_char l) - ord_a) 4); [|lia]. simpl.
  rewrite setitem_ok by lia. eexists. split; [reflexivity|].
  split; [by rewrite length_insert|].
  apply Forall_insert; [done|apply strip_trimmed].
Qed.

Lemma trimmed_labelled (l : ascii) (t : pystr) :
  in_range 97 100 l = true -> trimmed t -> t <> [] ->
  trimmed (labelled [l] t).
Proof.
  intros Hl [_ Ht] Hne. destruct (lower_label l Hl) as [_ Hc].
  pose proof (abcd_not_space l Hc) as Hs. unfold labelled. cbn [app txt].
  split.
  - by intros c u [= <- _].
  - intros c u H. destruct t as [|d t _] using rev_ind; [done|].
    rewrite app_comm_cons, app_assoc in H.
    apply app_inj_tail in H as [_ <-]. by eapply Ht.
Qed.

Lemma trimmed_single (l : ascii) : is_space l = false -> trimmed [l].
Proof.
  intros H. split.
  - by intros c t [= <- _].
  - intros c t Ht. destruct t as [|? [|? ?]]; try discriminate Ht.
    by injection Ht as <-.
Qed.

Lemma get_answer_text_shape (block : pystr) (ol : list pystr) :
  length ol = 4%nat -> Forall trimmed ol ->
  exists a, get_answer_text block ol = Ret a /\ trimmed a /\ answer_shape a.
Proof.
  intros Hlen Hol. unfold get_answer_text.
  destruct (re_search answer_pattern block) as [m|] eqn:E.
  2: { exists []. split; [done|]. split; [apply trimmed_nil|by left]. }
  apply search_answer_groups in E as (l & body & Hc & Hl).
  unfold group_str, group. rewrite Hc. cbn [get_grp grp1 grp2 bind lower map ord].
  pose proof (label_range l Hl) as Hr.
  pose proof (label_index l Hl) as Hi.
  destruct (strip body) as [|c0 s0] eqn:Es; cbn [nonempty].
  - destruct (Z.leb_spec 0 (code (lower_char l) - ord_a)); [|lia].
    destruct (Z.ltb_spec (code (lower_char l) - ord_a) 4); [|lia]. cbn [andb].
    destruct (getitem_ok ol (code (lower_char l) - ord_a)) as (x & -> & Hx);
      [lia|].
    cbn [bind]. eexists. split; [reflexivity|].
    assert (Htx : trimmed x).
    { rewrite Forall_forall in Hol. apply Hol.
      by apply list_elem_of_lookup_2 in Hx. }
    destruct x as [|x0 x]; cbn [nonempty].
    + split; [|right; exists (lower_char l); split; [done|by left]].
      apply trimmed_single, abcd_not_space.
      by destruct (lower_label _ Hr).
    + split; [by apply trimmed_labelled|].
      right. exists (lower_char l). split; [done|]. right.
      exists (x0 :: x). by split.
  - eexists. split; [reflexivity|].
    assert (Ht : trimmed (c0 :: s0)) by (rewrite <- Es; apply strip_trimmed).
    split; [by apply trimmed_labelled|].
    right. exists (lower_char l). split; [done|]. right.
    exists (c0 :: s0). by split.
Qed.

Lemma parse_block_record (block : pystr) :
  block <> [] ->
  exists q ol a e,
    parse_block block =
      Ret (Mcq (PyStr q) (map PyStr ol) (PyStr a) (PyStr e)) /\
    trimmed q /\ length ol = 4%nat /\ Forall trimmed ol /\
    trimmed a /\ answer_shape a /\ trimmed e /\ ~ In LF e.
Proof.
  intros H. unfold parse_block.
  destruct (get_opts_trimmed block) as (opts & -> & Hopts). cbn [bind].
  assert (Hq : exists q, get_q_text block = Ret q /\ trimmed q).
  { unfold get_q_text. destruct (re_search opt_pattern block).
    - eexists. split; [reflexivity|apply strip_trimmed].
    - destruct (splitlines block) as [|l ls] eqn:E;
        [by apply splitlines_nonempty in H|].
      eexists. split; [reflexivity|apply strip_trimmed]. }
  destruct Hq as (q & -> & Hq). cbn [bind].
  destruct (for_each_inv store_option
              (fun oc => labelled_pair oc /\ trimmed oc.2)
              (fun ol => length ol = 4%nat /\ Forall trimmed ol)
              opts [[]; []; []; []] store_option_trimmed Hopts)
    as (ol & Hol & Hlen & Htr).
  { split; [done|]. repeat constructor; apply trimmed_nil. }
  unfold fill_options. rewrite Hol. cbn [bind].
  assert (Hre : exists ol', rescan_lines block ol = Ret ol' /\
                  length ol' = 4%nat /\ Forall trimmed ol').
  { unfold rescan_lines. destruct (negb (any ol)); [|by exists ol].
    apply (for_each_inv store_line (fun _ => True)
             (fun ol => length ol = 4%nat /\ Forall trimmed ol)).
    - intros s x _ Hs. by apply store_line_trimmed.
    - by apply Forall_true.
    - done. }
  destruct Hre as (ol' & -> & Hlen' & Htr'). cbn [bind].
  destruct (get_answer_text_shape block ol' Hlen' Htr') as (a & -> & Ha & Hsh).
  cbn [bind].
  destruct (get_explanation_text_line block) as (e & -> & He & Hlf).
  cbn [bind]. by exists q, ol', a, e.
Qed.

(** X3: every field of every record of the freeform parser is a text
    without whitespace at either end. *)
Theorem freeform_fields_trimmed (text : pystr) :
  exists rs, parse_plain_mcqs text = Ret rs /\
    Forall (fun r => trimmed_val (question r) /\
                     Forall trimmed_val (options r) /\
                     trimmed_val (answer r) /\
                     trimmed_val (explanation r)) rs.
Proof.
  apply parse_plain_mcqs_all. intros b r _ Hne Hr.
  destruct (parse_block_record b Hne)
    as (q & ol & a & e & Hb & Hq & _ & Hol & Ha & _ & He & _).
  rewrite Hb in Hr. injection Hr as <-. cbn [question options answer explanation].
  split; [by exists q|]. split; [|split; [by exists a|by exists e]].
  apply Forall_forall. intros v Hv.
  apply list_elem_of_In, in_map_iff in Hv as (s & <- & Hs).
  exists s. split; [done|]. rewrite Forall_forall in Hol.
  by apply Hol, list_elem_of_In.
Qed.

(** X4: the answer of every record of the freeform parser is empty, a bare
    lowercase label a-d, or such a label followed by a closing parenthesis,
    a space and a non-empty text. *)
Theorem freeform_answer_shape (text : pystr) :
  exists rs, parse_plain_mcqs text = Ret rs /\
    Forall (fun r => exists a, answer r = PyStr a /\ answer_shape a) rs.
Proof.
  apply parse_plain_mcqs_all. intros b r _ Hne Hr.
  destruct (parse_block_record b Hne)
    as (q & ol & a & e & Hb & _ & _ & _ & _ & Ha & _).
  rewrite Hb in Hr. injection Hr as <-. by exists a.
Qed.


(** ** An array inside prose *)

(** X6: when [json.loads] refuses the whole text but decodes the span from
    the first opening bracket to the last closing bracket into an array,
    [parse_mcqs] returns the records of that array: the prose around it is
    ignored and the freeform parser is not run. *)
Theorem parse_mcqs_embedded_array
    (json_loads : pystr -> exc pyval) (text a m b : pystr) (e : pyexc)
    (loaded : list pyval) :
  json_loads text = Raise e ->
  text = a ++ open_bracket :: m ++ close_bracket :: b ->
  ~ In open_bracket a -> ~ In close_bracket b ->
  json_loads (open_bracket :: m ++ [close_bracket]) = Ret (PyList loaded) ->
  parse_mcqs json_loads text = Ret (map record_of_item loaded).
Proof.
  intros He Ht Ha Hb Hl. unfold parse_mcqs.
  rewrite (try_load_json_bracketed json_loads text a m b e He Ht Ha Hb).
  rewrite Hl. cbn [bind]. by rewrite for_each_normalize_item.
Qed.

Lemma parse_mcqs_embedded_array_witness :
  parse_mcqs (decoder_of array_text (PyList array_value)) wrapped_text =
    Ret [Mcq (PyStr (txt "Q1")) [empty_str; empty_str; empty_str; empty_str]
             empty_str empty_str;
         blank_record].
Proof.
  apply (parse_mcqs_embedded_array
           (decoder_of array_text (PyList array_value)) wrapped_text
           (txt "Here are the questions: ")
           (removelast (tl array_text)) (txt " Good luck!")
           JSONDecodeError array_value).
  - reflexivity.
  - reflexivity.
  - vm_compute. intuition discriminate.
  - vm_compute. intuition discriminate.
  - reflexivity.
Defined.

(** ** The exports *)

Lemma csv_row_four (params : gmap pystr pyval) (now : pystr) (m : mcq) :
  length (options m) = 4%nat ->
  exists a b c d row,
    options m = [a; b; c; d] /\ csv_row params now m = Ret row /\
    row.*1 = columns /\
    row.*2 = [question m; a; b; c; d; answer m; explanation m;
              param params "level"; param params "grade"; PyStr now].
Proof.
  intros H.
  destruct (options m) as [|a [|b [|c [|d [|? ?]]]]] eqn:E; try discriminate H.
  exists a, b, c, d. eexists. split; [done|]. unfold csv_row. rewrite E.
  split; [reflexivity|]. by split.
Qed.

Lemma for_each_csv_step (params : gmap pystr pyval) (clock : nat -> pystr)
    (ms : list mcq) (rows : list row) :
  Forall (fun r => length (options r) = 4%nat) ms ->
  exists rows',
    for_each ms (csv_step params clock) rows = Ret (rows ++ rows') /\
    length rows' = length ms /\
    forall k r, ms !! k = Some r ->
      exists a b c d row,
        options r = [a; b; c; d] /\ rows' !! k = Some row /\
        row.*1 = columns /\
        row.*2 = [question r; a; b; c; d; answer r; explanation r;
                  param params "level"; param params "grade";
                  PyStr (clock (length rows + k)%nat)].
Proof.
  intros HF. revert rows. induction HF as [|m ms Hm HF IH]; intros rows.
  - exists []. rewrite app_nil_r. split; [done|]. split; [done|].
    intros k r Hk. discriminate Hk.
  - cbn [for_each]. unfold csv_step at 1.
    destruct (csv_row_four params (clock (length rows)) m Hm)
      as (a & b & c & d & row & Ho & -> & Hc & Hv).
    cbn [bind]. destruct (IH (rows ++ [row])) as (rows' & -> & Hlen & Hrows).
    exists (row :: rows'). split; [by rewrite <- app_assoc|].
    split; [simpl; by rewrite Hlen|].
    intros [|k] r Hk.
    + injection Hk as <-. exists a, b, c, d, row.
      by rewrite Nat.add_0_r.
    + destruct (Hrows k r Hk) as (a' & b' & c' & d' & row' & ? & ? & ? & Hv').
      exists a', b', c', d', row'. split; [done|]. split; [done|].
      split; [done|]. rewrite Hv'. rewrite length_app. simpl.
      by replace (length rows + 1 + k)%nat with (length rows + S k)%nat by lia.
Qed.

(** X7: the table export never fails on what [parse_mcqs] returns.  When
    there is no record the table is one column of the lines of the text;
    otherwise it has one row for each record, in order, with the ten
    columns in their order and, in the row numbered [k], the question, the
    four option slots, the answer and the explanation of the record
    numbered [k], then the two parameters and the [k]-th reading of the
    clock. *)
Theorem export_csv_rows (json_loads : pystr -> exc pyval)
    (params : gmap pystr pyval) (clock : nat -> pystr) (raw : pystr) :
  exists rs t,
    parse_mcqs json_loads raw = Ret rs /\
    export_csv json_loads params clock raw = Ret t /\
    match rs with
    | [] => t = TextColumn (splitlines raw)
    | _ =>
        exists rows, t = Rows rows /\ length rows = length rs /\
          forall k r, rs !! k = Some r ->
            exists a b c d row,
              options r = [a; b; c; d] /\ rows !! k = Some row /\
              row.*1 = columns /\
              row.*2 = [question r; a; b; c; d; answer r; explanation r;
                        param params "level"; param params "grade";
                        PyStr (clock k)]
    end.
Proof.
  destruct (parse_mcqs_ok json_loads raw) as (rs & Hrs & HF).
  unfold export_csv. rewrite Hrs. cbn [bind].
  destruct rs as [|r0 rs]; [by exists [], (TextColumn (splitlines raw))|].
  cbn [some_records].
  destruct (for_each_csv_step params clock (r0 :: rs) [] HF)
    as (rows & -> & Hlen & Hrows).
  cbn [bind app]. exists (r0 :: rs), (Rows rows).
  split; [done|]. split; [done|]. by exists rows.
Qed.




(** ** Line ends and surrounding whitespace *)

Lemma replace_crlf_cons_other (c : ascii) (t : pystr) :
  c <> CR -> replace_crlf (c :: t) = c :: replace_crlf t.
Proof.
  intros Hc. destruct t as [|d t]; [done|]. rewrite replace_crlf_cons2.
  apply chr_eqb_neq in Hc. by rewrite Hc.
Qed.

Lemma replace_to_crlf (s : pystr) : ~ In CR s -> replace_crlf (to_crlf s) = s.
Proof.
  induction s as [|c s IH]; [done|]. intros H. cbn [to_crlf].
  assert (Hs : replace_crlf (to_crlf s) = s).
  { apply IH. intros Hin. apply H. by right. }
  destruct (chr_eqb c LF) eqn:E.
  - apply chr_eqb_eq in E as ->. rewrite replace_crlf_cons2.
    rewrite !chr_eqb_refl. cbn [andb]. by rewrite Hs.
  - rewrite replace_crlf_cons_other; [by rewrite Hs|].
    intros ->. apply H. by left.
Qed.

(** X9: a text without carriage return gives the same records whether its
    lines end with a line feed or with a carriage return and a line feed. *)
Theorem crlf_text_parses_alike (text : pystr) :
  ~ In CR text -> parse_plain_mcqs (to_crlf text) = parse_plain_mcqs text.
Proof.
  intros H. unfold parse_plain_mcqs.
  by rewrite replace_to_crlf, replace_crlf_no_cr.
Qed.

Lemma crlf_text_parses_alike_witness :
  parse_plain_mcqs (to_crlf scenario) = parse_plain_mcqs scenario.
Proof.
  apply (crlf_text_parses_alike scenario). vm_compute. intuition discriminate.
Defined.

Lemma replace_crlf_app_head (a b : pystr) :
  (forall b', b <> LF :: b') ->
  replace_crlf (a ++ b) = replace_crlf a ++ replace_crlf b.
Proof.
  intros Hb. induction a as [a IH] using (induction_ltof1 _ (@length _)).
  unfold ltof in IH. destruct a as [|c [|d t]]; [done| |].
  - destruct b as [|d b]; [done|]. cbn [app]. rewrite replace_crlf_cons2.
    assert (Hd : chr_eqb d LF = false).
    { apply chr_eqb_neq. intros ->. by apply (Hb b). }
    by rewrite Hd, andb_false_r.
  - cbn [app]. rewrite !replace_crlf_cons2.
    destruct (chr_eqb c CR && chr_eqb d LF).
    + cbn [app]. f_equal. apply IH. simpl. lia.
    + cbn [app]. f_equal. apply (IH (d :: t)). simpl. lia.
Qed.

Lemma replace_crlf_app_last (a b : pystr) :
  (forall a', a <> a' ++ [CR]) ->
  replace_crlf (a ++ b) = replace_crlf a ++ replace_crlf b.
Proof.
  induction a as [a IH] using (induction_ltof1 _ (@length _)).
  unfold ltof in IH. intros Ha. destruct a as [|c [|d t]]; [done| |].
  - cbn [app]. apply replace_crlf_cons_other. intros ->. by apply (Ha []).
  - cbn [app]. rewrite !replace_crlf_cons2.
    destruct (chr_eqb c CR && chr_eqb d LF).
    + cbn [app]. f_equal. apply IH; [simpl; lia|].
      intros a' ->. by apply (Ha (c :: d :: a')).
    + cbn [app]. f_equal. apply (IH (d :: t)); [simpl; lia|].
      intros a' E. apply (Ha (c :: a')). cbn [app]. by rewrite <- E.
Qed.

Lemma space_CR : is_space CR = true.
Proof. reflexivity. Qed.

Lemma replace_crlf_trimmed (m : pystr) : trimmed m -> trimmed (replace_crlf m).
Proof.
  intros [Hh Hl]. split.
  - intros c t E. destruct m as [|c0 m]; [done|].
    assert (H0 : is_space c0 = false) by by eapply Hh.
    rewrite replace_crlf_cons_other in E
      by (intros ->; by rewrite space_CR in H0).
    by injection E as <- _.
  - intros c t E. destruct m as [|d m _] using rev_ind; [by destruct t|].
    assert (H0 : is_space d = false) by by eapply Hl.
    rewrite replace_crlf_app_head in E.
    + cbn [replace_crlf] in E. by apply app_inj_tail in E as [_ <-].
    + intros b' [= -> _]. by rewrite space_LF in H0.
Qed.

Lemma strip_decompose (s : pystr) :
  exists a b, s = a ++ strip s ++ b /\
    forallb is_space a = true /\ forallb is_space b = true.
Proof.
  unfold strip. destruct (lstrip_split s) as (a & Ha & Hsa).
  destruct (rstrip_split (lstrip s)) as (b & Hb & Hsb).
  exists a, b. by rewrite <- Hb.
Qed.

Lemma strip_replace_crlf (s : pystr) :
  strip (replace_crlf s) = replace_crlf (strip s).
Proof.
  destruct (strip_decompose s) as (a & b & Hs & Ha & Hb).
  pose proof (strip_trimmed s) as Ht. destruct (strip s) as [|c m] eqn:E.
  - rewrite Hs. cbn [app replace_crlf]. apply strip_spaces.
    apply replace_crlf_spaces. rewrite forallb_app. by rewrite Ha, Hb.
  - assert (Hc : is_space c = false) by by eapply (proj1 Ht).
    rewrite Hs at 1. rewrite replace_crlf_app_head.
    2: { intros b' [= -> _]. by rewrite space_LF in Hc. }
    rewrite replace_crlf_app_last.
    2: { intros a' Ea. apply (proj2 Ht) in Ea. by rewrite space_CR in Ea. }
    apply strip_padded; [by apply replace_crlf_trimmed| |];
      by apply replace_crlf_spaces.
Qed.

Lemma strip_app_spaces (ws s ws' : pystr) :
  forallb is_space ws = true -> forallb is_space ws' = true ->
  strip (ws ++ s ++ ws') = strip s.
Proof.
  intros Hw Hw'. destruct (strip_decompose s) as (a & b & Hs & Ha & Hb).
  rewrite Hs at 1.
  replace (ws ++ (a ++ strip s ++ b) ++ ws')
    with ((ws ++ a) ++ strip s ++ (b ++ ws')) by by rewrite <- !app_assoc.
  apply strip_padded; [apply strip_trimmed| |]; rewrite forallb_app;
    by apply andb_true_iff.
Qed.

(** X10: whitespace around the text, line ends included, does not change
    the records of the freeform parser. *)
Theorem surrounding_whitespace_ignored (ws text ws' : pystr) :
  forallb is_space ws = true -> forallb is_space ws' = true ->
  parse_plain_mcqs (ws ++ text ++ ws') = parse_plain_mcqs text.
Proof.
  intros Hw Hw'. unfold parse_plain_mcqs.
  by rewrite !strip_replace_crlf, strip_app_spaces.
Qed.

Lemma surrounding_whitespace_ignored_witness :
  parse_plain_mcqs padded_text = parse_plain_mcqs (txt "1. Q").
Proof.
  apply (surrounding_whitespace_ignored [LF; " "%char] (txt "1. Q")
           [CR; LF; LF]); reflexivity.
Defined.

(** * The text of a record, parsed again *)

(** A last line that a pattern anchored at line starts does not match. *)
Lemma dead_last_line k c prev l t :
  (forall p s, at_bol (p, s) = false -> k (p, s) c = None) ->
  ~ In LF l -> k (prev, l ++ t) c = None -> dead k c prev l t.
Proof.
  intros Hk Hl H0 a1 a2 Ha Hne. destruct a1 as [|d a1].
  - cbn [app] in Ha. subst a2. by rewrite after_nil.
  - apply Hk. rewrite (at_bol_text _ _ []). apply after_not_lf; [done|].
    intros Hin. apply Hl. rewrite Ha. apply in_or_app. by left.
Qed.

Lemma taken_all (prev prev' : option ascii) (a : pystr) :
  taken (prev, a) (prev', []) = a.
Proof. rewrite <- (app_nil_r a) at 1. apply taken_app. Qed.

(** ** The segmentation *)

Lemma marker_not_bol k p s c :
  at_bol (p, s) = false -> rmatch marker k (p, s) c = None.
Proof. intros H. unfold marker. cbn [seq rmatch]. by rewrite H. Qed.

Lemma marker_not_digit k p ch s c :
  is_space ch = false -> is_digit ch = false ->
  rmatch marker k (p, ch :: s) c = None.
Proof.
  intros Hs Hd. unfold marker. cbn [seq rmatch fst snd].
  destruct (at_bol (p, ch :: s)); [|done].
  rewrite star_greedy_stop by done. cbn [rmatch fst snd]. by rewrite Hd.
Qed.

Lemma pattern_ahead_none p s c :
  s <> [] -> rmatch marker accept (p, s) c = None ->
  rmatch pattern_ahead accept (p, s) c = None.
Proof.
  intros Hs Hm. unfold pattern_ahead. cbn [rmatch]. rewrite Hm.
  by destruct s.
Qed.

Lemma pattern_ahead_end p c :
  at_bol (p, @nil ascii) = false ->
  rmatch pattern_ahead accept (p, []) c = Some ((p, []), c).
Proof.
  intros Hp. unfold pattern_ahead. cbn [rmatch].
  rewrite marker_not_bol by done. reflexivity.
Qed.

Lemma pattern_numbered (block : pystr) :
  (exists ch s, block = ch :: s /\ is_space ch = false) ->
  (exists s d, block = s ++ [d] /\ d <> LF) ->
  (forall c, dead (rmatch marker accept) c (Some " "%char) block []) ->
  rmatch pattern accept (None, txt "1. " ++ block) no_caps =
    Some ((after (Some " "%char) block, []), Caps (Some block) None).
Proof.
  intros (ch & s & Hb & Hch) (s' & d & Hb' & Hd) Hdead.
  rewrite pattern_unfold. cbn [txt list_ascii_of_string app at_bol fst].
  rewrite star_greedy_stop by reflexivity.
  unfold pattern_tail. cbn [seq rmatch snd fst].
  change (is_digit "1") with true. cbn match.
  rewrite star_greedy_stop by reflexivity. cbn [rmatch snd fst].
  change (cls_period ".") with true. cbn match.
  apply (star_greedy_app_some _ _ _ [" "%char]); [reflexivity|].
  rewrite star_greedy_stop by (by rewrite Hb). cbn [rmatch snd fst after last].
  match goal with
  | |- star_lazy ?p ?k ?pr ?b ?c = _ =>
      pose proof (star_lazy_dead p k pr b [] c (forallb_any b)) as E
  end.
  rewrite app_nil_r in E. rewrite E; clear E.
  - cbn [star_lazy]. rewrite pattern_ahead_end.
    + by rewrite taken_all.
    + rewrite Hb'. rewrite after_snoc. by apply chr_eqb_neq.
  - intros a1 a2 Ha Hne. cbn beta. rewrite pattern_ahead_none; [done| |].
    + by destruct a2.
    + by apply Hdead.
Qed.

(** A numbered text in which no other line starts with a number is one
    block. *)
Lemma blocks_of_numbered (block : pystr) :
  (exists ch s, block = ch :: s /\ is_space ch = false) ->
  (exists s d, block = s ++ [d] /\ d <> LF) ->
  (forall c, dead (rmatch marker accept) c (Some " "%char) block []) ->
  blocks_of (txt "1. " ++ block) = [block].
Proof.
  intros Hh Hl Hdead.
  pose proof (pattern_numbered block Hh Hl Hdead) as Hm.
  destruct Hl as (s' & d & Hb' & Hd).
  assert (Hf : finditer pattern (txt "1. " ++ block) =
               [MatchObj 0 (0 + length (txt "1. " ++ block))
                         (Caps (Some block) None)]).
  { unfold finditer. rewrite <- (app_nil_r (txt "1. " ++ block)) at 1.
    erewrite finditer_from_hit.
    - f_equal. cbn [finditer_from]. rewrite match_here_none; [done|].
      rewrite pattern_unfold.
      replace (at_bol (after None (txt "1. " ++ block), [])) with false;
        [done|].
      rewrite Hb', app_assoc, after_snoc. symmetry. by apply chr_eqb_neq.
    - done.
    - unfold match_here. rewrite app_nil_r, Hm. cbn [snd length].
      rewrite Nat.sub_0_r. reflexivity.
    - reflexivity. }
  unfold blocks_of, findall. rewrite Hf. reflexivity.
Qed.

(** ** The option probe *)

Lemma opt_ahead_not_lf p ch s c :
  ch <> LF -> rmatch opt_ahead accept (p, ch :: s) c = None.
Proof.
  intros H. unfold opt_ahead. cbn [seq rmatch fst snd].
  apply chr_eqb_neq in H. unfold cls_nl. by rewrite H.
Qed.

Lemma opt_ahead_no_marker p ch1 ch2 s c :
  is_space ch1 = false -> cls_abcd ch1 && cls_punct ch2 = false ->
  rmatch opt_ahead accept (p, LF :: ch1 :: ch2 :: s) c = None.
Proof.
  intros Hs H. unfold opt_ahead. cbn [seq rmatch fst snd].
  change (cls_nl LF) with true. cbn match.
  rewrite star_greedy_stop by done. cbn [rmatch fst snd].
  destruct (cls_abcd ch1); [|done]. cbn [andb] in H. by rewrite H.
Qed.

Lemma opt_ahead_marker p l pu s c :
  cls_abcd l = true -> cls_punct pu = true ->
  exists y, rmatch opt_ahead accept (p, LF :: l :: pu :: s) c = Some (y, c).
Proof.
  intros Hl Hp. unfold opt_ahead. cbn [seq rmatch fst snd].
  change (cls_nl LF) with true. cbn match.
  rewrite star_greedy_stop by by apply abcd_not_space.
  cbn [rmatch fst snd]. rewrite Hl, Hp.
  destruct (star_greedy_accept is_space (Some pu) s c) as (y & ->).
  by exists y.
Qed.

Lemma opt_ahead_end p c :
  rmatch opt_ahead accept (p, []) c = Some ((p, []), c).
Proof. reflexivity. Qed.

(** The match of [opt_pattern] at the line end before an option line. *)
Lemma opt_pattern_at (prev : option ascii) (l : ascii) (body rest : pystr) :
  at_bol (prev, @nil ascii) = false ->
  cls_abcd l = true ->
  (exists ch s, body = ch :: s /\ is_space ch = false) ->
  (forall c, dead (rmatch opt_ahead accept) c (Some " "%char) body rest) ->
  (forall c, exists y,
     rmatch opt_ahead accept (after (Some " "%char) body, rest) c
       = Some (y, c)) ->
  rmatch opt_pattern accept
    (prev, LF :: l :: ")"%char :: " "%char :: body ++ rest) no_caps =
    Some ((after (Some " "%char) body, rest), Caps (Some [l]) (Some body)).
Proof.
  intros Hprev Hl (ch & s & Hb & Hch) Hdead Hend.
  unfold opt_pattern. cbn [seq rmatch fst snd].
  rewrite (at_bol_text _ _ []), Hprev.
  change (cls_nl_cr LF) with true. cbn match.
  rewrite star_greedy_stop by by apply abcd_not_space.
  cbn [rmatch fst snd]. rewrite Hl.
  change (cls_punct ")") with true. cbn match.
  apply (star_greedy_app_some _ _ _ [" "%char]); [reflexivity|].
  rewrite star_greedy_stop by (by rewrite Hb).
  cbn [rmatch fst snd after last].
  rewrite star_lazy_dead; [|apply forallb_any|].
  - apply star_lazy_here. cbn beta.
    match goal with
    | |- context [rmatch opt_ahead accept ?y ?c] =>
        destruct (Hend c) as (y' & ->)
    end.
    unfold accept. by rewrite taken_app, taken_cons.
  - intros a1 a2 Ha Hne. cbn beta. by rewrite (Hdead _ a1 a2 Ha Hne).
Qed.

Lemma opt_pattern_end prev c : rmatch opt_pattern accept (prev, []) c = None.
Proof.
  unfold opt_pattern. cbn [seq rmatch fst snd star_greedy].
  by destruct (at_bol (prev, [])).
Qed.

Lemma opt_pattern_inner p ch s c :
  at_bol (p, @nil ascii) = false -> cls_nl_cr ch = false ->
  rmatch opt_pattern accept (p, ch :: s) c = None.
Proof.
  intros Hp Hch. unfold opt_pattern. cbn [seq rmatch fst snd].
  by rewrite (at_bol_text _ _ []), Hp, Hch.
Qed.

Lemma not_nl_cr (ch : ascii) : ch <> LF -> ch <> CR -> cls_nl_cr ch = false.
Proof.
  intros H1 H2. unfold cls_nl_cr. apply chr_eqb_neq in H1, H2.
  by rewrite H1, H2.
Qed.

(** Inside a line, [opt_pattern] does not match. *)
Lemma opt_pattern_dead_run prev a t c :
  at_bol (prev, @nil ascii) = false -> ~ In LF a -> ~ In CR a ->
  dead (rmatch opt_pattern accept) c prev a t.
Proof.
  intros Hp Hlf Hcr a1 a2 -> Hne. destruct a2 as [|ch a2]; [done|].
  cbn [app]. apply opt_pattern_inner.
  - destruct a1 as [|d a1]; [done|]. apply after_not_lf; [done|].
    intros Hin. apply Hlf, in_or_app. by left.
  - apply not_nl_cr; intros ->; [apply Hlf|apply Hcr];
      apply in_or_app; right; by left.
Qed.

Lemma nonspace_not_bol (ch : ascii) :
  is_space ch = false -> at_bol (Some ch, @nil ascii) = false.
Proof.
  intros H. unfold at_bol. cbn [fst]. apply chr_eqb_neq. intros ->.
  by rewrite space_LF in H.
Qed.

(** A question that does not start like an option holds no option match. *)
Lemma opt_pattern_dead_question (q rest : pystr) :
  plain q -> starts_marker q = false ->
  dead (rmatch opt_pattern accept) no_caps None q (LF :: rest).
Proof.
  intros Hq Hm. destruct (plain_head q Hq) as (c0 & q' & -> & Hc0).
  apply dead_cons.
  - unfold opt_pattern. cbn [seq rmatch fst snd at_bol].
    rewrite star_greedy_stop by done. cbn [rmatch fst snd].
    rewrite (not_space_not_nl_cr c0 Hc0).
    destruct (cls_abcd c0) eqn:E; [|done].
    destruct q' as [|c1 q'']; cbn [app].
    + by change (cls_punct LF) with false.
    + cbn [starts_marker] in Hm. rewrite E in Hm. cbn [andb] in Hm.
      by rewrite Hm.
  - apply opt_pattern_dead_run; [by apply nonspace_not_bol| |].
    + intros Hin. apply (plain_no_lf _ Hq). by right.
    + intros Hin. apply (plain_no_cr _ Hq). by right.
Qed.

(** One match of the scan, at the line end before an option line. *)
Lemma finditer_opt_hit prev l body rest i :
  at_bol (prev, @nil ascii) = false ->
  cls_abcd l = true ->
  (exists ch s, body = ch :: s /\ is_space ch = false) ->
  (forall c, dead (rmatch opt_ahead accept) c (Some " "%char) body rest) ->
  (forall c, exists y,
     rmatch opt_ahead accept (after (Some " "%char) body, rest) c
       = Some (y, c)) ->
  map m_caps (finditer_from opt_pattern 0 prev
                (LF :: l :: ")"%char :: " "%char :: body ++ rest) i) =
    Caps (Some [l]) (Some body) ::
    map m_caps (finditer_from opt_pattern 0 (after (Some " "%char) body)
                  rest 0).
Proof.
  intros Hprev Hl Hb Hdead Hend.
  pose proof (opt_pattern_at prev l body rest Hprev Hl Hb Hdead Hend) as Hm.
  assert (Hh : match_here opt_pattern prev
                 ((LF :: l :: ")"%char :: " "%char :: body) ++ rest) i =
               Some (MatchObj i
                       (i + length (LF :: l :: ")"%char :: " "%char :: body))
                       (Caps (Some [l]) (Some body)))).
  { unfold match_here. cbn [app]. rewrite Hm. cbn [snd length].
    do 2 f_equal. rewrite length_app. lia. }
  change (LF :: l :: ")"%char :: " "%char :: body ++ rest)
    with ((LF :: l :: ")"%char :: " "%char :: body) ++ rest).
  assert (Hne : LF :: l :: ")"%char :: " "%char :: body <> []) by done.
  rewrite (finditer_from_hit _ _ _ _ _ _ Hne Hh eq_refl).
  cbn [map m_caps]. f_equal. rewrite !after_cons. apply finditer_caps_shift.
Qed.

Lemma finditer_opt_end prev i : finditer_from opt_pattern 0 prev [] i = [].
Proof.
  cbn [finditer_from]. by rewrite match_here_none by apply opt_pattern_end.
Qed.

Lemma finditer_opt_last prev l body i :
  at_bol (prev, @nil ascii) = false ->
  cls_abcd l = true ->
  (exists ch s, body = ch :: s /\ is_space ch = false) ->
  (forall c, dead (rmatch opt_ahead accept) c (Some " "%char) body []) ->
  map m_caps (finditer_from opt_pattern 0 prev
                (LF :: l :: ")"%char :: " "%char :: body) i) =
    [Caps (Some [l]) (Some body)].
Proof.
  intros Hprev Hl Hb Hdead.
  pose proof (finditer_opt_hit prev l body [] i Hprev Hl Hb Hdead) as H.
  rewrite app_nil_r, finditer_opt_end in H. apply H.
  intros c. eexists. apply opt_ahead_end.
Qed.

Lemma plain_after_not_bol (p : option ascii) (s : pystr) :
  plain s -> at_bol (after p s, @nil ascii) = false.
Proof.
  intros (Hne & _ & Hlf & _). by apply after_not_lf.
Qed.

Lemma opt_ahead_dead_plain (s t : pystr) (prev : option ascii) (c : caps) :
  plain s -> dead (rmatch opt_ahead accept) c prev s t.
Proof.
  intros Hs. apply dead_no_lf; [|by apply plain_no_lf].
  intros p ch u Hch. by apply opt_ahead_not_lf.
Qed.

(** The option matches of the block of a record. *)
Lemma finditer_opt_block (q o0 o1 o2 slot3 : pystr) :
  plain q -> starts_marker q = false ->
  plain o0 -> plain o1 -> plain o2 ->
  (exists ch s, slot3 = ch :: s /\ is_space ch = false) ->
  (forall c, dead (rmatch opt_ahead accept) c (Some " "%char) slot3 []) ->
  map m_caps (finditer opt_pattern (block_text q o0 o1 o2 slot3)) =
    [Caps (Some ["a"%char]) (Some o0); Caps (Some ["b"%char]) (Some o1);
     Caps (Some ["c"%char]) (Some o2); Caps (Some ["d"%char]) (Some slot3)].
Proof.
  intros Hq Hm H0 H1 H2 H3 Hdead. unfold finditer, block_text.
  rewrite finditer_from_dead by by apply opt_pattern_dead_question.
  cbn [txt list_ascii_of_string app].
  rewrite finditer_opt_hit;
    [|by apply plain_after_not_bol|reflexivity|by apply plain_head
     |intros c; by apply opt_ahead_dead_plain
     |intros c; by apply opt_ahead_marker].
  f_equal.
  rewrite finditer_opt_hit;
    [|by apply plain_after_not_bol|reflexivity|by apply plain_head
     |intros c; by apply opt_ahead_dead_plain
     |intros c; by apply opt_ahead_marker].
  f_equal.
  rewrite finditer_opt_hit;
    [|by apply plain_after_not_bol|reflexivity|by apply plain_head
     |intros c; by apply opt_ahead_dead_plain
     |intros c; by apply opt_ahead_marker].
  f_equal.
  apply finditer_opt_last; [by apply plain_after_not_bol|reflexivity|done|done].
Qed.

Lemma get_opts_caps (block : pystr) (lcs : list (pystr * pystr)) :
  map m_caps (finditer opt_pattern block) =
    map (fun lc => Caps (Some lc.1) (Some lc.2)) lcs ->
  get_opts block = Ret (map (fun lc => (lower lc.1, strip lc.2)) lcs).
Proof.
  unfold get_opts. generalize (finditer opt_pattern block) as ms.
  induction lcs as [|lc lcs IH]; intros [|m ms] H; try discriminate H;
    [done|].
  cbn [map] in H. injection H as Hm Hms. cbn [map_exc map].
  rewrite (IH ms Hms). unfold group_str, group. by rewrite Hm.
Qed.

Lemma search_opt_block (q o0 rest : pystr) (l : ascii) :
  plain q -> starts_marker q = false -> plain o0 -> cls_abcd l = true ->
  exists m,
    re_search opt_pattern
      (q ++ LF :: txt "a) " ++ o0 ++ LF :: l :: ")"%char :: rest) = Some m /\
    m_start m = length q.
Proof.
  intros Hq Hm H0 Hl. unfold re_search.
  rewrite search_from_dead by by apply opt_pattern_dead_question.
  cbn [txt list_ascii_of_string app].
  eexists. split.
  - apply search_from_here. unfold match_here.
    rewrite opt_pattern_at;
      [reflexivity|by apply plain_after_not_bol|reflexivity
      |by apply plain_head|intros c; by apply opt_ahead_dead_plain
      |intros c; by apply opt_ahead_marker].
  - reflexivity.
Qed.

Lemma get_q_text_block (q o0 o1 o2 slot3 : pystr) :
  plain q -> starts_marker q = false -> plain o0 ->
  get_q_text (block_text q o0 o1 o2 slot3) = Ret q.
Proof.
  intros Hq Hm H0. unfold get_q_text, block_text.
  destruct (search_opt_block q o0
              (txt " " ++ o1 ++ LF :: txt "c) " ++ o2 ++
               LF :: txt "d) " ++ slot3) "b"%char Hq Hm H0 eq_refl)
    as (m & Hs & Hst).
  cbn [txt list_ascii_of_string app] in *. rewrite Hs, Hst.
  by rewrite take_app_length, plain_strip.
Qed.

(** ** The answer and explanation probes *)

(** Lines that a pattern anchored at line starts does not match. *)
Lemma dead_lines k c prev (ls : list pystr) t :
  (forall p s, at_bol (p, s) = false -> k (p, s) c = None) ->
  Forall (fun l => ~ In LF l /\ forall p s, k (p, l ++ LF :: s) c = None) ls ->
  dead k c prev (concat (map (fun l => l ++ [LF]) ls)) t.
Proof.
  intros Hk HF. revert prev.
  induction HF as [|l ls [Hl H0] HF IH]; intros prev; [apply dead_nil|].
  cbn [map concat]. apply dead_app; [|apply IH].
  apply dead_line; [done|done|apply H0].
Qed.

Lemma alt_first r1 r2 k x c y :
  rmatch r1 k x c = Some y -> rmatch (Alt r1 r2) k x c = Some y.
Proof. intros H. cbn [rmatch]. by rewrite H. Qed.

Lemma answer_not_bol p s c :
  at_bol (p, s) = false -> rmatch answer_pattern accept (p, s) c = None.
Proof. intros H. unfold answer_pattern. cbn [seq rmatch]. by rewrite H. Qed.

Lemma answer_line_none p l s c :
  (exists ch u, l = ch :: u /\ is_space ch = false) ->
  starts_ci (txt "Answer") l = false ->
  rmatch answer_pattern accept (p, l ++ LF :: s) c = None.
Proof.
  intros (ch & u & -> & Hch) Hl. unfold answer_pattern. cbn [seq rmatch].
  destruct (at_bol _); [|done]. cbn [fst snd app].
  rewrite star_greedy_stop by done. unfold word_ci.
  rewrite word_ci_run by done.
  pose proof (starts_ci_line _ (ch :: u) s Hl eq_refl) as E.
  cbn [app] in E. by rewrite E.
Qed.

Lemma answer_pattern_at p l t rest :
  at_bol (p, @nil ascii) = true -> cls_abcd l = true -> plain t ->
  rmatch answer_pattern accept
    (p, txt "Answer: " ++ l :: txt ") " ++ t ++ LF :: rest) no_caps =
    Some ((after (Some " "%char) t, LF :: rest), Caps (Some [l]) (Some t)).
Proof.
  intros Hp Hl Ht. unfold answer_pattern. cbn [seq rmatch].
  rewrite (at_bol_text _ _ []), Hp. cbn [fst snd txt list_ascii_of_string app].
  rewrite star_greedy_stop by reflexivity. unfold word_ci.
  rewrite word_ci_run by done.
  match goal with
  | |- context [starts_ci ?w ?s] =>
      replace (starts_ci w s) with true by reflexivity
  end.
  cbn [length txt list_ascii_of_string firstn skipn take drop].
  rewrite !after_cons, after_nil.
  apply (star_greedy_app_some _ _ _ [":"%char; " "%char]); [reflexivity|].
  rewrite star_greedy_stop by by apply abcd_not_sep.
  cbn [snd after last]. rewrite Hl. rewrite taken_cons.
  change (cls_punct ")") with true. cbn match.
  match goal with
  | |- match ?X with Some _ => _ | None => _ end = ?R =>
      assert (Hin : X = R); [|by rewrite Hin]
  end.
  apply (star_greedy_app_some _ _ _ [" "%char]); [reflexivity|].
  destruct (plain_head t Ht) as (ch & u & Htu & Hch).
  rewrite star_greedy_stop by (by rewrite Htu).
  cbn [fst snd after last].
  apply star_greedy_app_some; [by apply plain_dot|].
  rewrite star_greedy_stop by reflexivity.
  cbn [at_eol snd]. change (chr_eqb LF LF) with true. cbn match.
  unfold accept. by rewrite taken_app.
Qed.

Lemma after_lines (prev : option ascii) (ls : list pystr) :
  at_bol (prev, @nil ascii) = true ->
  at_bol (after prev (concat (map (fun ln => ln ++ [LF]) ls)), @nil ascii)
    = true.
Proof.
  revert prev. induction ls as [|ln ls IH]; intros prev Hp; [done|].
  cbn [map concat]. rewrite after_app. apply IH.
  rewrite after_snoc. apply chr_eqb_refl.
Qed.

(** The answer line is found below lines that do not start with the word. *)
Lemma search_answer_lines (ls : list pystr) (l : ascii) (t rest : pystr) :
  Forall (fun ln => ~ In LF ln /\
            (exists ch u, ln = ch :: u /\ is_space ch = false) /\
            starts_ci (txt "Answer") ln = false) ls ->
  cls_abcd l = true -> plain t ->
  exists m,
    re_search answer_pattern
      (concat (map (fun ln => ln ++ [LF]) ls) ++
       txt "Answer: " ++ l :: txt ") " ++ t ++ LF :: rest) = Some m /\
    m_caps m = Caps (Some [l]) (Some t).
Proof.
  intros HF Hl Ht. unfold re_search. rewrite search_from_dead.
  - eexists. split.
    + apply search_from_here. unfold match_here.
      rewrite answer_pattern_at; [reflexivity|by apply after_lines|done|done].
    + reflexivity.
  - apply dead_lines; [intros p s; apply answer_not_bol|].
    eapply Forall_impl; [exact HF|]. intros ln (Hlf & Hh & Hs).
    split; [done|]. intros p s. by apply answer_line_none.
Qed.

Lemma explanation_not_bol p s c :
  at_bol (p, s) = false -> rmatch explanation_pattern accept (p, s) c = None.
Proof.
  intros H. unfold explanation_pattern. cbn [seq rmatch]. by rewrite H.
Qed.

Lemma explanation_line_none p l s c :
  (exists ch u, l = ch :: u /\ is_space ch = false) ->
  starts_ci (txt "Explanation") l = false ->
  rmatch explanation_pattern accept (p, l ++ LF :: s) c = None.
Proof.
  intros (ch & u & -> & Hch) Hl. unfold explanation_pattern.
  cbn [seq rmatch]. destruct (at_bol _); [|done]. cbn [fst snd app].
  rewrite star_greedy_stop by done. unfold word_ci.
  rewrite word_ci_run by done.
  pose proof (starts_ci_line _ (ch :: u) s Hl eq_refl) as E.
  cbn [app] in E. by rewrite E.
Qed.

Lemma star_greedy_all p k prev a c y :
  forallb p a = true -> k (after prev a, []) c = Some y ->
  star_greedy p k prev a c = Some y.
Proof.
  intros Ha Hk. rewrite <- (app_nil_r a).
  by apply star_greedy_app_some.
Qed.

Lemma explanation_pattern_at p e :
  at_bol (p, @nil ascii) = true -> plain e -> starts_sep e = false ->
  rmatch explanation_pattern accept (p, txt "Explanation: " ++ e) no_caps =
    Some ((after (Some " "%char) e, []), Caps (Some e) None).
Proof.
  intros Hp He Hs. unfold explanation_pattern. cbn [seq rmatch].
  rewrite (at_bol_text _ _ []), Hp. cbn [fst snd txt list_ascii_of_string app].
  rewrite star_greedy_stop by reflexivity. unfold word_ci.
  rewrite word_ci_run by done.
  match goal with
  | |- context [starts_ci ?w ?s] =>
      replace (starts_ci w s) with true by reflexivity
  end.
  cbn [length txt list_ascii_of_string firstn skipn take drop].
  rewrite !after_cons, after_nil.
  apply (star_greedy_app_some _ _ _ [":"%char; " "%char]); [reflexivity|].
  destruct (plain_head e He) as (ch & u & Heu & Hch).
  rewrite star_greedy_stop by (rewrite Heu; rewrite Heu in Hs; exact Hs).
  cbn [fst snd after last].
  apply star_greedy_all; [by apply plain_dot|].
  cbn [at_eol snd]. unfold accept. by rewrite taken_all.
Qed.

(** The explanation line is found below lines that do not start with the
    word. *)
Lemma search_explanation_lines (ls : list pystr) (e : pystr) :
  Forall (fun ln => ~ In LF ln /\
            (exists ch u, ln = ch :: u /\ is_space ch = false) /\
            starts_ci (txt "Explanation") ln = false) ls ->
  plain e -> starts_sep e = false ->
  exists m,
    re_search explanation_pattern
      (concat (map (fun ln => ln ++ [LF]) ls) ++ txt "Explanation: " ++ e)
      = Some m /\
    m_caps m = Caps (Some e) None.
Proof.
  intros HF He Hs. unfold re_search. rewrite search_from_dead.
  - eexists. split.
    + apply search_from_here. unfold match_here.
      rewrite explanation_pattern_at;
        [reflexivity|by apply after_lines|done|done].
    + reflexivity.
  - apply dead_lines; [intros p s; apply explanation_not_bol|].
    eapply Forall_impl; [exact HF|]. intros ln (Hlf & Hh & Hs').
    split; [done|]. intros p s. by apply explanation_line_none.
Qed.

(** ** The block of a record *)

Lemma strip_ends (a m b : pystr) :
  (exists ch s, a = ch :: s /\ is_space ch = false) ->
  (exists s d, b = s ++ [d] /\ is_space d = false) ->
  strip (a ++ m ++ b) = a ++ m ++ b.
Proof.
  intros (ch & s & -> & Hch) (s' & d & -> & Hd).
  apply strip_of_trimmed.
  replace ((ch :: s) ++ m ++ s' ++ [d]) with (ch :: (s ++ m ++ s') ++ [d])
    by (cbn [app]; by rewrite <- !app_assoc).
  by apply trimmed_ends.
Qed.

Lemma abcd_not_lf (l : ascii) : cls_abcd l = true -> l <> LF.
Proof. intros H ->. discriminate H. Qed.

Lemma not_in_app (c : ascii) (a b : pystr) :
  ~ In c a -> ~ In c b -> ~ In c (a ++ b).
Proof. intros Ha Hb [H|H]%in_app_or; [by apply Ha|by apply Hb]. Qed.

Lemma block_text_lines (q o0 o1 o2 o3 t e : pystr) (l : ascii) :
  block_text q o0 o1 o2 (last_slot o3 (labelled [l] t) e) =
    concat (map (fun ln => ln ++ [LF])
              [q; txt "a) " ++ o0; txt "b) " ++ o1; txt "c) " ++ o2;
               txt "d) " ++ o3]) ++
    txt "Answer: " ++ l :: txt ") " ++ t ++ LF :: txt "Explanation: " ++ e.
Proof.
  unfold block_text, last_slot, labelled.
  cbn [map concat txt list_ascii_of_string app].
  repeat first [rewrite <- app_assoc | progress cbn [app]]. reflexivity.
Qed.

Lemma block_text_lines' (q o0 o1 o2 o3 t e : pystr) (l : ascii) :
  block_text q o0 o1 o2 (last_slot o3 (labelled [l] t) e) =
    concat (map (fun ln => ln ++ [LF])
              [q; txt "a) " ++ o0; txt "b) " ++ o1; txt "c) " ++ o2;
               txt "d) " ++ o3; txt "Answer: " ++ l :: txt ") " ++ t]) ++
    txt "Explanation: " ++ e.
Proof.
  unfold block_text, last_slot, labelled.
  cbn [map concat txt list_ascii_of_string app].
  repeat first [rewrite <- app_assoc | progress cbn [app]]. reflexivity.
Qed.

Lemma option_line_facts (x : ascii) (o : pystr) :
  in_range 97 100 x = true -> plain o ->
  ~ In LF (x :: txt ") " ++ o) /\
  (exists ch u, x :: txt ") " ++ o = ch :: u /\ is_space ch = false) /\
  starts_ci (txt "Answer") (x :: txt ") " ++ o) = false /\
  starts_ci (txt "Explanation") (x :: txt ") " ++ o) = false.
Proof.
  intros Hx Ho. destruct (lower_label x Hx) as [_ Hc].
  cbn [txt list_ascii_of_string app]. split; [|split; [|split]].
  - intros [E|[E|[E|Hin]]]; try discriminate E.
    + by apply (abcd_not_lf x Hc).
    + by apply (plain_no_lf o Ho).
  - exists x. eexists. split; [reflexivity|by apply abcd_not_space].
  - cbn [starts_ci]. change (cls_ci "n" ")") with false.
    by rewrite andb_false_r.
  - cbn [starts_ci]. change (cls_ci "x" ")") with false.
    by rewrite andb_false_r.
Qed.

Lemma option_line_answer (x : ascii) (o : pystr) :
  in_range 97 100 x = true -> plain o ->
  ~ In LF (txt (String x ") ") ++ o) /\
  (exists ch u, txt (String x ") ") ++ o = ch :: u /\ is_space ch = false) /\
  starts_ci (txt "Answer") (txt (String x ") ") ++ o) = false.
Proof.
  intros Hx Ho. by destruct (option_line_facts x o Hx Ho) as (? & ? & ? & ?).
Qed.

Lemma option_line_explanation (x : ascii) (o : pystr) :
  in_range 97 100 x = true -> plain o ->
  ~ In LF (txt (String x ") ") ++ o) /\
  (exists ch u, txt (String x ") ") ++ o = ch :: u /\ is_space ch = false) /\
  starts_ci (txt "Explanation") (txt (String x ") ") ++ o) = false.
Proof.
  intros Hx Ho. by destruct (option_line_facts x o Hx Ho) as (? & ? & ? & ?).
Qed.

Lemma answer_line_facts (l : ascii) (t : pystr) :
  cls_abcd l = true -> plain t ->
  ~ In LF (txt "Answer: " ++ l :: txt ") " ++ t) /\
  (exists ch u, txt "Answer: " ++ l :: txt ") " ++ t = ch :: u /\
                is_space ch = false) /\
  starts_ci (txt "Explanation") (txt "Answer: " ++ l :: txt ") " ++ t)
    = false.
Proof.
  intros Hl Ht. cbn [txt list_ascii_of_string app]. split; [|split].
  - intros Hin. repeat (destruct Hin as [E|Hin]; [try discriminate E|]).
    + by apply (abcd_not_lf l Hl).
    + by apply (plain_no_lf t Ht).
  - eexists. eexists. split; reflexivity.
  - reflexivity.
Qed.

(** The fourth option runs to the end of the block: no option line comes
    after it. *)
Lemma opt_ahead_dead_last_slot (o3 t e : pystr) (l : ascii) (prev : option ascii)
    (c : caps) :
  plain o3 -> cls_abcd l = true -> plain t -> plain e ->
  dead (rmatch opt_ahead accept) c prev
       (last_slot o3 (labelled [l] t) e) [].
Proof.
  intros H3 Hl Ht He. unfold last_slot, labelled.
  apply dead_app; [by apply opt_ahead_dead_plain|].
  change (LF :: txt "Answer: " ++ ([l] ++ txt ") " ++ t) ++
          LF :: txt "Explanation: " ++ e)
    with ([LF] ++ (txt "Answer: " ++ l :: txt ") " ++ t) ++
          [LF] ++ txt "Explanation: " ++ e).
  apply dead_app; [|apply dead_app; [|apply dead_app]].
  - apply dead_cons; [|apply dead_nil]. cbn [app txt list_ascii_of_string].
    by apply opt_ahead_no_marker.
  - apply dead_no_lf; [intros p ch u Hch; by apply opt_ahead_not_lf|].
    by apply answer_line_facts.
  - apply dead_cons; [|apply dead_nil]. cbn [app txt list_ascii_of_string].
    by apply opt_ahead_no_marker.
  - apply dead_no_lf; [intros p ch u Hch; by apply opt_ahead_not_lf|].
    cbn [txt list_ascii_of_string app]. intros Hin.
    repeat (destruct Hin as [E|Hin]; [try discriminate E|]).
    by apply (plain_no_lf e He).
Qed.

Lemma strip_last_slot (o3 a e : pystr) :
  plain o3 -> plain e -> strip (last_slot o3 a e) = last_slot o3 a e.
Proof.
  intros H3 He. unfold last_slot.
  replace (o3 ++ LF :: txt "Answer: " ++ a ++ LF :: txt "Explanation: " ++ e)
    with (o3 ++ (LF :: txt "Answer: " ++ a ++ LF :: txt "Explanation: ") ++ e)
    by (repeat first [rewrite <- app_assoc | progress cbn [app]];
        reflexivity).
  apply strip_ends; [by apply plain_head|by apply plain_last].
Qed.

Lemma abcd_not_cr (l : ascii) : cls_abcd l = true -> l <> CR.
Proof. intros H ->. discriminate H. Qed.

(** Splits the membership of a character in a text made of literal pieces
    and of variables. *)
Ltac split_in H :=
  cbn [app txt list_ascii_of_string In] in H;
  lazymatch type of H with
  | In _ (_ ++ _) => apply in_app_or in H as [H|H]; [|split_in H]
  | _ \/ _ => destruct H as [H|H]; [try discriminate H|split_in H]
  | _ => idtac
  end.

Lemma get_opts_block (q o0 o1 o2 o3 t e : pystr) (l : ascii) :
  plain q -> starts_marker q = false ->
  plain o0 -> plain o1 -> plain o2 -> plain o3 -> plain t -> plain e ->
  in_range 97 100 l = true ->
  get_opts (block_text q o0 o1 o2 (last_slot o3 (labelled [l] t) e)) =
    Ret [(["a"%char], o0); (["b"%char], o1); (["c"%char], o2);
         (["d"%char], last_slot o3 (labelled [l] t) e)].
Proof.
  intros Hq Hqm H0 H1 H2 H3 Ht He Hl.
  destruct (lower_label l Hl) as [_ Hc].
  rewrite (get_opts_caps _
             [(["a"%char], o0); (["b"%char], o1); (["c"%char], o2);
              (["d"%char], last_slot o3 (labelled [l] t) e)]).
  - cbn [map fst snd]. rewrite !plain_strip by done.
    by rewrite strip_last_slot.
  - apply finditer_opt_block; try done.
    + unfold last_slot. destruct (plain_head o3 H3) as (ch & u & -> & Hch).
      by exists ch, (u ++ LF :: txt "Answer: " ++ labelled [l] t ++
                     LF :: txt "Explanation: " ++ e).
    + intros c. by apply opt_ahead_dead_last_slot.
Qed.

Lemma fill_options_abcd (s0 s1 s2 s3 : pystr) :
  fill_options [(["a"%char], s0); (["b"%char], s1); (["c"%char], s2);
                (["d"%char], s3)] = Ret [s0; s1; s2; s3].
Proof. reflexivity. Qed.

Lemma question_line_facts (q : pystr) (w : string) :
  plain q -> starts_ci (txt w) q = false ->
  ~ In LF q /\ (exists ch u, q = ch :: u /\ is_space ch = false) /\
  starts_ci (txt w) q = false.
Proof.
  intros Hq Hw. split; [by apply plain_no_lf|].
  split; [by apply plain_head|done].
Qed.

Lemma get_answer_text_block (q o0 o1 o2 o3 t e : pystr) (l : ascii)
    (ol : list pystr) :
  plain q -> starts_ci (txt "Answer") q = false ->
  plain o0 -> plain o1 -> plain o2 -> plain o3 -> plain t ->
  in_range 97 100 l = true ->
  get_answer_text (block_text q o0 o1 o2 (last_slot o3 (labelled [l] t) e)) ol
    = Ret (labelled [l] t).
Proof.
  intros Hq Hqa H0 H1 H2 H3 Ht Hl.
  destruct (lower_label l Hl) as [Hlow Hc].
  rewrite block_text_lines. unfold get_answer_text.
  destruct (search_answer_lines
              [q; txt "a) " ++ o0; txt "b) " ++ o1; txt "c) " ++ o2;
               txt "d) " ++ o3] l t (txt "Explanation: " ++ e))
    as (m & -> & Hm); [|done|done|].
  - constructor; [by apply question_line_facts|].
    constructor; [by apply (option_line_answer "a")|].
    constructor; [by apply (option_line_answer "b")|].
    constructor; [by apply (option_line_answer "c")|].
    constructor; [by apply (option_line_answer "d")|]. constructor.
  - unfold group_str, group. rewrite Hm.
    cbn [get_grp grp1 grp2 bind lower map ord]. rewrite Hlow.
    rewrite (plain_strip t Ht).
    destruct (plain_head t Ht) as (ch & u & -> & _). reflexivity.
Qed.

Lemma get_explanation_text_block (q o0 o1 o2 o3 t e : pystr) (l : ascii) :
  plain q -> starts_ci (txt "Explanation") q = false ->
  plain o0 -> plain o1 -> plain o2 -> plain o3 -> plain t -> plain e ->
  in_range 97 100 l = true -> starts_sep e = false ->
  get_explanation_text
    (block_text q o0 o1 o2 (last_slot o3 (labelled [l] t) e)) = Ret e.
Proof.
  intros Hq Hqe H0 H1 H2 H3 Ht He Hl Hes.
  destruct (lower_label l Hl) as [Hlow Hc].
  rewrite block_text_lines'. unfold get_explanation_text.
  destruct (search_explanation_lines
              [q; txt "a) " ++ o0; txt "b) " ++ o1; txt "c) " ++ o2;
               txt "d) " ++ o3; txt "Answer: " ++ l :: txt ") " ++ t] e)
    as (m & -> & Hm); [|done|done|].
  - constructor; [by apply question_line_facts|].
    constructor; [by apply (option_line_explanation "a")|].
    constructor; [by apply (option_line_explanation "b")|].
    constructor; [by apply (option_line_explanation "c")|].
    constructor; [by apply (option_line_explanation "d")|].
    constructor; [by apply answer_line_facts|]. constructor.
  - unfold group_str, group. rewrite Hm. cbn [get_grp grp1 bind].
    by rewrite (plain_strip e He).
Qed.

(** The record of the block of a record. *)
Lemma parse_block_text (q o0 o1 o2 o3 t e : pystr) (l : ascii) :
  plain q -> plain o0 -> plain o1 -> plain o2 -> plain o3 -> plain t ->
  plain e -> in_range 97 100 l = true ->
  starts_marker q = false ->
  starts_ci (txt "Answer") q = false ->
  starts_ci (txt "Explanation") q = false ->
  starts_sep e = false ->
  parse_block (block_text q o0 o1 o2 (last_slot o3 (labelled [l] t) e)) =
    Ret (record q o0 o1 o2 (last_slot o3 (labelled [l] t) e)
                (labelled [l] t) e).
Proof.
  intros Hq H0 H1 H2 H3 Ht He Hl Hqm Hqa Hqe Hes.
  unfold parse_block. rewrite get_opts_block by done. cbn [bind].
  rewrite get_q_text_block by done. cbn [bind].
  rewrite fill_options_abcd. cbn [bind].
  assert (Hany : rescan_lines
                   (block_text q o0 o1 o2 (last_slot o3 (labelled [l] t) e))
                   [o0; o1; o2; last_slot o3 (labelled [l] t) e] =
                 Ret [o0; o1; o2; last_slot o3 (labelled [l] t) e]).
  { unfold rescan_lines, any. cbn [existsb].
    by destruct (plain_head o0 H0) as (ch & u & -> & _). }
  rewrite Hany. cbn [bind].
  rewrite get_answer_text_block by done. cbn [bind].
  rewrite get_explanation_text_block by done. reflexivity.
Qed.

Lemma block_head (q o0 o1 o2 slot3 : pystr) :
  plain q ->
  exists ch s,
    block_text q o0 o1 o2 slot3 = ch :: s /\ is_space ch = false.
Proof.
  intros Hq. unfold block_text.
  destruct (plain_head q Hq) as (ch & u & -> & Hch). by eexists _, _.
Qed.

Lemma block_last (q o0 o1 o2 o3 t e : pystr) (l : ascii) :
  plain e ->
  exists s d,
    block_text q o0 o1 o2 (last_slot o3 (labelled [l] t) e) = s ++ [d] /\
    is_space d = false.
Proof.
  intros He. rewrite block_text_lines'.
  destruct (plain_last e He) as (u & d & -> & Hd).
  eexists _, d. split; [|done]. by rewrite !app_assoc.
Qed.

Lemma strip_block (q o0 o1 o2 o3 t e : pystr) (l : ascii) :
  plain q -> plain e ->
  strip (block_text q o0 o1 o2 (last_slot o3 (labelled [l] t) e)) =
    block_text q o0 o1 o2 (last_slot o3 (labelled [l] t) e).
Proof.
  intros Hq He. apply strip_of_trimmed.
  destruct (block_head q o0 o1 o2 (last_slot o3 (labelled [l] t) e) Hq)
    as (ch & s & Hb & Hch).
  destruct (block_last q o0 o1 o2 o3 t e l He) as (s' & d & Hb' & Hd).
  split.
  - intros c u E. rewrite Hb in E. by injection E as <- _.
  - intros c u E. rewrite Hb' in E. by apply app_inj_tail in E as [_ <-].
Qed.

(** No line of the block starts with a number. *)
Lemma marker_dead_block (q o0 o1 o2 o3 t e : pystr) (l : ascii) (c : caps) :
  plain q -> plain o0 -> plain o1 -> plain o2 -> plain o3 -> plain t ->
  plain e -> in_range 97 100 l = true ->
  dead (rmatch marker accept) c (Some " "%char)
       (block_text q o0 o1 o2 (last_slot o3 (labelled [l] t) e)) [].
Proof.
  intros Hq H0 H1 H2 H3 Ht He Hl.
  destruct (lower_label l Hl) as [_ Hc].
  rewrite block_text_lines'.
  match goal with
  | |- dead _ _ _ (concat (map ?f (?x :: ?ls)) ++ ?z) _ =>
      change (concat (map f (x :: ls)) ++ z)
        with (((x ++ [LF]) ++ concat (map f ls)) ++ z)
  end.
  apply dead_app; [apply dead_app|].
  - apply dead_line; [intros p s; apply marker_not_bol|by apply plain_no_lf|].
    by apply marker_not_bol.
  - apply dead_lines; [intros p s; apply marker_not_bol|].
    constructor; [split; [by apply (option_line_answer "a")|]|].
    { intros p s. by apply marker_not_digit. }
    constructor; [split; [by apply (option_line_answer "b")|]|].
    { intros p s. by apply marker_not_digit. }
    constructor; [split; [by apply (option_line_answer "c")|]|].
    { intros p s. by apply marker_not_digit. }
    constructor; [split; [by apply (option_line_answer "d")|]|].
    { intros p s. by apply marker_not_digit. }
    constructor; [split; [by apply answer_line_facts|]|constructor].
    intros p s. by apply marker_not_digit.
  - apply dead_last_line; [intros p s; apply marker_not_bol| |].
    + cbn [txt list_ascii_of_string app]. intros Hin.
      repeat (destruct Hin as [E|Hin]; [try discriminate E|]).
      by apply (plain_no_lf e He).
    + by apply marker_not_digit.
Qed.

Lemma serialize_no_cr (q o0 o1 o2 o3 t e : pystr) (l : ascii) :
  plain q -> plain o0 -> plain o1 -> plain o2 -> plain o3 -> plain t ->
  plain e -> in_range 97 100 l = true ->
  ~ In CR (serialize q o0 o1 o2 o3 (labelled [l] t) e).
Proof.
  intros Hq H0 H1 H2 H3 Ht He Hl.
  destruct (lower_label l Hl) as [_ Hc].
  unfold serialize, labelled. intros Hin. split_in Hin.
  all: try (by eapply plain_no_cr; [|exact Hin]).
  by apply (abcd_not_cr l Hc).
Qed.

(** The text of a record is already normalized. *)
Lemma serialize_normal (q o0 o1 o2 o3 t e : pystr) (l : ascii) :
  plain q -> plain o0 -> plain o1 -> plain o2 -> plain o3 -> plain t ->
  plain e -> in_range 97 100 l = true ->
  strip (replace_crlf (serialize q o0 o1 o2 o3 (labelled [l] t) e)) =
    txt "1. " ++ block_text q o0 o1 o2 (last_slot o3 (labelled [l] t) e).
Proof.
  intros Hq H0 H1 H2 H3 Ht He Hl.
  rewrite replace_crlf_no_cr by by apply serialize_no_cr.
  change (serialize q o0 o1 o2 o3 (labelled [l] t) e)
    with (txt "1. " ++
          block_text q o0 o1 o2 (last_slot o3 (labelled [l] t) e)).
  destruct (block_last q o0 o1 o2 o3 t e l He) as (s' & d & Hb' & Hd).
  apply strip_of_trimmed. split.
  - by intros c u [= <- _].
  - intros c u E. rewrite Hb', app_assoc in E.
    by apply app_inj_tail in E as [_ <-].
Qed.

(** The text of a record is one block, and the block gives the record. *)
Lemma records_of_text (q o0 o1 o2 o3 t e : pystr) (l : ascii) :
  plain q -> plain o0 -> plain o1 -> plain o2 -> plain o3 -> plain t ->
  plain e -> in_range 97 100 l = true ->
  starts_marker q = false ->
  starts_ci (txt "Answer") q = false ->
  starts_ci (txt "Explanation") q = false ->
  starts_sep e = false ->
  for_each
    (blocks_of
       (txt "1. " ++ block_text q o0 o1 o2 (last_slot o3 (labelled [l] t) e)))
    parse_step [] =
    Ret [record q o0 o1 o2 (last_slot o3 (labelled [l] t) e)
                (labelled [l] t) e].
Proof.
  intros Hq H0 H1 H2 H3 Ht He Hl Hqm Hqa Hqe Hes.
  destruct (block_head q o0 o1 o2 (last_slot o3 (labelled [l] t) e) Hq)
    as (ch & s & Hb & Hch).
  destruct (block_last q o0 o1 o2 o3 t e l He) as (s' & d & Hb' & Hd).
  rewrite blocks_of_numbered.
  - cbn [for_each]. unfold parse_step. rewrite strip_block by done.
    rewrite Hb at 1. cbn [nonempty negb].
    by rewrite parse_block_text.
  - by exists ch, s.
  - exists s', d. split; [done|]. intros ->. by rewrite space_LF in Hd.
  - intros c. by apply marker_dead_block.
Qed.

(** X11: the text of a record, as the prompt asks for it (the question
    numbered 1, the options a to d, the answer line and the explanation
    line), parses into one record that gives back the question, the first
    three options, the answer and the explanation; the fourth slot holds
    the fourth option followed by the answer line and the explanation
    line.  The fields are non-empty texts on one line, without whitespace
    at either end; the question starts neither like an option nor with the
    words of the two last lines, and the explanation does not start with a
    separator of its line. *)
Theorem record_text_parses_back (q o0 o1 o2 o3 t e : pystr) (l : ascii) :
  plain q -> plain o0 -> plain o1 -> plain o2 -> plain o3 -> plain t ->
  plain e -> in_range 97 100 l = true ->
  starts_marker q = false ->
  starts_ci (txt "Answer") q = false ->
  starts_ci (txt "Explanation") q = false ->
  starts_sep e = false ->
  parse_plain_mcqs (serialize q o0 o1 o2 o3 (labelled [l] t) e) =
    Ret [record q o0 o1 o2 (last_slot o3 (labelled [l] t) e)
                (labelled [l] t) e].
Proof.
  intros Hq H0 H1 H2 H3 Ht He Hl Hqm Hqa Hqe Hes.
  unfold parse_plain_mcqs. rewrite serialize_normal by done.
  cbn [txt list_ascii_of_string app nonempty negb].
  change ("1"%char :: "."%char :: " "%char ::
          block_text q o0 o1 o2 (last_slot o3 (labelled [l] t) e))
    with (txt "1. " ++
          block_text q o0 o1 o2 (last_slot o3 (labelled [l] t) e)).
  by apply records_of_text.
Qed.

Lemma plainb_plain (s : pystr) : plainb s = true -> plain s.
Proof.
  unfold plainb. destruct s as [|c s]; [done|].
  destruct (last (c :: s)) as [d|] eqn:El; [|done].
  intros [[Hc Hd]%andb_true_iff Hall]%andb_true_iff.
  apply negb_true_iff in Hc, Hd. rewrite forallb_forall in Hall.
  split; [done|]. split; [split|split].
  - by intros c' u [= <- _].
  - intros c' u E. rewrite E, last_snoc in El. by injection El as ->.
  - intros Hin. apply Hall in Hin. by rewrite chr_eqb_refl in Hin.
  - intros Hin. apply Hall in Hin.
    by rewrite chr_eqb_refl, andb_false_r in Hin.
Qed.

Lemma record_text_parses_back_witness :
  parse_plain_mcqs
    (serialize (txt "What is 2+2?") (txt "3") (txt "4") (txt "5") (txt "6")
               (labelled ["b"%char] (txt "4")) (txt "Basic arithmetic")) =
    Ret [record (txt "What is 2+2?") (txt "3") (txt "4") (txt "5")
                (last_slot (txt "6") (labelled ["b"%char] (txt "4"))
                           (txt "Basic arithmetic"))
                (labelled ["b"%char] (txt "4")) (txt "Basic arithmetic")].
Proof.
  apply (record_text_parses_back
           (txt "What is 2+2?") (txt "3") (txt "4") (txt "5") (txt "6")
           (txt "4") (txt "Basic arithmetic") "b"%char);
    first [by apply plainb_plain | reflexivity].
Defined.

(** X12: exam mode does not keep the answer of such a text out of the
    document: the cell of option D holds the fourth slot, and with it the
    answer line and the explanation line, whatever the two flags are. *)
Theorem exam_paper_shows_answer_line
    (py_str : pyval -> pystr) (json_loads : pystr -> exc pyval)
    (params : gmap pystr pyval) (clock : nat -> pystr)
    (include_answers exam_mode : bool)
    (q o0 o1 o2 o3 t e : pystr) (l : ascii) :
  plain q -> plain o0 -> plain o1 -> plain o2 -> plain o3 -> plain t ->
  plain e -> in_range 97 100 l = true ->
  starts_marker q = false ->
  starts_ci (txt "Answer") q = false ->
  starts_ci (txt "Explanation") q = false ->
  starts_sep e = false ->
  (forall ls,
     try_load_json json_loads (serialize q o0 o1 o2 o3 (labelled [l] t) e)
       <> Ret (PyList ls)) ->
  exists doc,
    export_pdf py_str json_loads params clock include_answers exam_mode
      (serialize q o0 o1 o2 o3 (labelled [l] t) e) = Ret doc /\
    In (MultiCell 8
          (safe_text (txt "   D) " ++ last_slot o3 (labelled [l] t) e)))
       doc.
Proof.
  intros Hq H0 H1 H2 H3 Ht He Hl Hqm Hqa Hqe Hes Hfree.
  unfold export_pdf. rewrite parse_mcqs_freeform by done.
  unfold parse_plain_mcqs. rewrite serialize_normal by done.
  cbn [txt list_ascii_of_string app nonempty negb].
  change ("1"%char :: "."%char :: " "%char ::
          block_text q o0 o1 o2 (last_slot o3 (labelled [l] t) e))
    with (txt "1. " ++
          block_text q o0 o1 o2 (last_slot o3 (labelled [l] t) e)).
  rewrite records_of_text by done. cbn [bind some_records].
  eexists. split; [reflexivity|].
  apply in_or_app. right.
  unfold record_cells, record. cbn [options option_cells truthy fstr].
  apply in_or_app. left. apply in_or_app. right. apply in_or_app. left.
  do 3 (apply in_or_app; right).
  destruct (plain_head o3 H3) as (ch & u & -> & _).
  cbn [last_slot app nonempty txt list_ascii_of_string]. by left.
Qed.

Lemma exam_paper_shows_answer_line_witness :
  exists doc,
    export_pdf (fun _ => []) refuse_all ∅ (fun _ => []) true true
      (serialize (txt "What is 2+2?") (txt "3") (txt "4") (txt "5")
                 (txt "6") (labelled ["b"%char] (txt "4"))
                 (txt "Basic arithmetic")) = Ret doc /\
    In (MultiCell 8
          (safe_text
             (txt "   D) " ++
              last_slot (txt "6") (labelled ["b"%char] (txt "4"))
                        (txt "Basic arithmetic"))))
       doc.
Proof.
  apply (exam_paper_shows_answer_line
           (fun _ => []) refuse_all ∅ (fun _ => []) true true
           (txt "What is 2+2?") (txt "3") (txt "4") (txt "5") (txt "6")
           (txt "4") (txt "Basic arithmetic") "b"%char);
    first [by apply plainb_plain | reflexivity | intros ls; discriminate].
Defined.
